(** * Video-Or: the analyze-video route handler and its streaming relay

    A shallow embedding of [app/api/analyze-video/route.ts] (the [POST]
    handler and [fileToDataUrl]) and of the summary/details derivations of
    [app/page.tsx] and of the non-streaming variant of the route, together
    with the parts of the JavaScript platform the handler relies on: strings
    of UTF-16 code units, [String.prototype.trim], [FormData.get], base64
    ([Buffer.toString("base64")]), the UTF-8 [TextDecoder]/[TextEncoder]
    pair and the default controller of a [ReadableStream]. *)

From Stdlib Require Import List NArith ZArith Lia Bool.
From Stdlib.Strings Require Import String Ascii Byte.
From Stdlib Require Import DecimalString.
Import ListNotations.

Local Open Scope N_scope.
Local Open Scope list_scope.

(* ================================================================== *)
(** ** JavaScript strings *)

Module JS.

(** A JavaScript string is a sequence of 16-bit code units. *)
Definition jsstring := list N.

(** An ASCII source literal as a JavaScript string. *)
Definition lit (s : string) : jsstring :=
  map N_of_ascii (list_ascii_of_string s).

(** The code unit of the double quote, which appears inside the template
    literal of the focus clause. *)
Definition dquote : N := 34.

Fixpoint eqb (a b : jsstring) : bool :=
  match a, b with
  | [], [] => true
  | x :: a', y :: b' => (x =? y) && eqb a' b'
  | _, _ => false
  end.

(** Truthiness of a string: only the empty string is falsy. *)
Definition truthy (s : jsstring) : bool :=
  match s with [] => false | _ :: _ => true end.

(** [a || b] on strings. *)
Definition or_else (a b : jsstring) : jsstring :=
  if truthy a then a else b.

(** WhiteSpace and LineTerminator code points of ECMA-262, the set that
    [String.prototype.trim] strips. *)
Definition is_space (u : N) : bool :=
  (u =? 0x9) || (u =? 0xA) || (u =? 0xB) || (u =? 0xC) || (u =? 0xD)
  || (u =? 0x20) || (u =? 0xA0) || (u =? 0x1680)
  || ((0x2000 <=? u) && (u <=? 0x200A))
  || (u =? 0x2028) || (u =? 0x2029) || (u =? 0x202F) || (u =? 0x205F)
  || (u =? 0x3000) || (u =? 0xFEFF).

Fixpoint trimStart (s : jsstring) : jsstring :=
  match s with
  | [] => []
  | u :: s' => if is_space u then trimStart s' else s
  end.

Definition trimEnd (s : jsstring) : jsstring := rev (trimStart (rev s)).

Definition trim (s : jsstring) : jsstring := trimEnd (trimStart s).

(** [String(n)] for a non-negative integer. *)
Definition of_number (n : N) : jsstring :=
  lit (NilZero.string_of_uint (N.to_uint n)).

(** [s.startsWith(p)]. *)
Fixpoint startsWith (p s : jsstring) : bool :=
  match p, s with
  | [], _ => true
  | x :: p', y :: s' => (x =? y) && startsWith p' s'
  | _ :: _, [] => false
  end.

(** [s.includes(p)]. *)
Fixpoint includes (p s : jsstring) : bool :=
  startsWith p s ||
  match s with
  | [] => false
  | _ :: s' => includes p s'
  end.

(** [s.endsWith(p)]. *)
Definition endsWith (p s : jsstring) : bool := startsWith (rev p) (rev s).

(** [s.split("\n")]: the pieces between line feeds; never empty. *)
Fixpoint split_lines (s : jsstring) : list jsstring :=
  match s with
  | [] => [[]]
  | u :: s' =>
      if u =? 0xA then [] :: split_lines s'
      else match split_lines s' with
           | [] => [[u]]
           | l :: ls => (u :: l) :: ls
           end
  end.

(** [parts.join("\n")]. *)
Fixpoint join_lines (parts : list jsstring) : jsstring :=
  match parts with
  | [] => []
  | [l] => l
  | l :: ls => l ++ 0xA :: join_lines ls
  end.

End JS.

Import JS.

(* ================================================================== *)
(** ** The request, the provider and the response *)

(** An uploaded [File]: its declared content type and its bytes. *)
Record File := mkFile {
  file_type : jsstring;
  file_bytes : list byte
}.

(** [file.size]. *)
Definition file_size (f : File) : N := N.of_nat (List.length (file_bytes f)).

(** A [FormData] entry value is a string or a [File]. *)
Inductive FormDataEntryValue :=
| EntryString (s : jsstring)
| EntryFile (f : File).

(** A [FormData] is an ordered list of entries; names may repeat. *)
Definition FormData := list (jsstring * FormDataEntryValue).

(** [formData.get(name)]: the first entry of that name, [None] for [null]. *)
Fixpoint formData_get (name : jsstring) (fd : FormData)
  : option FormDataEntryValue :=
  match fd with
  | [] => None
  | (k, v) :: fd' => if JS.eqb k name then Some v else formData_get name fd'
  end.

(** [!v] for the result of [formData.get]. *)
Definition entry_falsy (v : option FormDataEntryValue) : bool :=
  match v with
  | None => true
  | Some (EntryString s) => negb (truthy s)
  | Some (EntryFile _) => false
  end.

(** [(v || "").toString()] for the result of [formData.get]. *)
Definition entry_text (v : option FormDataEntryValue) : jsstring :=
  match v with
  | None => []
  | Some (EntryString s) => s
  | Some (EntryFile _) => lit "[object File]"
  end.

(** A thrown value, as far as the handler looks at it: [err.message] and
    [String(err)]. *)
Record Exn := mkExn {
  exn_message : jsstring;
  exn_string : jsstring
}.

(** How the provider's body ends: normally, or with a read error. *)
Inductive UpstreamEnd :=
| UpDone
| UpFail (e : Exn).

(** The provider's response body as the reader sees it: the chunks that
    [reader.read()] yields, then the end. *)
Record UpstreamBody := mkBody {
  up_chunks : list (list byte);
  up_end : UpstreamEnd
}.

(** The result of [fetch]: status, what [text()] settles to ([None] when it
    rejects) and the body stream ([None] for a null body). *)
Record FetchResponse := mkFetch {
  res_status : N;
  res_text : option jsstring;
  res_body : option UpstreamBody
}.

(** [response.ok]: a status in the range 200 to 299. *)
Definition res_ok (r : FetchResponse) : bool :=
  (200 <=? res_status r) && (res_status r <=? 299).

(** The outbound call: the fields of the JSON body and the headers that
    vary. *)
Record OutboundRequest := mkOut {
  out_endpoint : jsstring;
  out_authorization : jsstring;
  out_referer : jsstring;
  out_model : jsstring;
  out_text : jsstring;
  out_video_url : jsstring;
  out_stream : bool
}.

(** What the handler sees of its environment. *)
Record World := mkWorld {
  env_OPENROUTER_API_KEY : option jsstring;
  req_formData : Exn + FormData;
  req_referer : option jsstring;
  URL_parses : jsstring -> bool;
  fetch : OutboundRequest -> Exn + FetchResponse
}.

(** The body of a [NextResponse.json]. *)
Record JsonBody := mkJson {
  json_error : jsstring;
  json_details : option jsstring
}.

(** What the handler returns: a JSON response with a status, or the
    event-stream response wrapping the provider's body. *)
Inductive Response :=
| JsonResponse (status : N) (body : JsonBody)
| StreamResponse (upstream : option UpstreamBody).

(** The calls the handler makes, in the order it makes them. *)
Inductive Event :=
| EvFormData
| EvArrayBuffer
| EvNewURL (u : jsstring)
| EvFetch (r : OutboundRequest)
| EvText.

(* ================================================================== *)
(** ** The handler monad: a trace of calls, early return and exceptions *)

Inductive Outcome (A : Type) :=
| Value (a : A)
| Return (r : Response)
| Throw (e : Exn).

Arguments Value {A} a.
Arguments Return {A} r.
Arguments Throw {A} e.

Definition M (A : Type) := list Event -> Outcome A * list Event.

Definition ret {A} (a : A) : M A := fun tr => (Value a, tr).

Definition bind {A B} (m : M A) (k : A -> M B) : M B :=
  fun tr =>
    match m tr with
    | (Value a, tr') => k a tr'
    | (Return r, tr') => (Return r, tr')
    | (Throw e, tr') => (Throw e, tr')
    end.

Definition emit (ev : Event) : M unit := fun tr => (Value tt, tr ++ [ev]).

Definition return_ {A} (r : Response) : M A := fun tr => (Return r, tr).

Definition throw {A} (e : Exn) : M A := fun tr => (Throw e, tr).

Definition lift_result {A} (r : Exn + A) : M A :=
  match r with
  | inl e => throw e
  | inr a => ret a
  end.

Notation "x <- m ;; k" := (bind m (fun x => k))
  (at level 61, m at next level, right associativity).
Notation "m ;;; k" := (bind m (fun _ => k))
  (at level 61, right associativity).

(* ================================================================== *)
(** ** Base64, as [Buffer.prototype.toString("base64")] produces it *)

Module Base64.

(** The character of a 6-bit value in the standard alphabet. *)
Definition char_of_sextet (i : N) : N :=
  if i <? 26 then 65 + i
  else if i <? 52 then 97 + (i - 26)
  else if i <? 62 then 48 + (i - 52)
  else if i =? 62 then 43
  else 47.

(** The padding character [=]. *)
Definition pad : N := 61.

(** Three bytes become four characters; a final group of one or two bytes
    is padded. *)
Fixpoint encode (bs : list byte) : jsstring :=
  match bs with
  | [] => []
  | [a] =>
      let x := Byte.to_N a in
      [char_of_sextet (N.shiftr x 2);
       char_of_sextet (N.shiftl (N.land x 3) 4);
       pad; pad]
  | [a; b] =>
      let x := Byte.to_N a in
      let y := Byte.to_N b in
      [char_of_sextet (N.shiftr x 2);
       char_of_sextet (N.lor (N.shiftl (N.land x 3) 4) (N.shiftr y 4));
       char_of_sextet (N.shiftl (N.land y 15) 2);
       pad]
  | a :: b :: c :: rest =>
      let x := Byte.to_N a in
      let y := Byte.to_N b in
      let z := Byte.to_N c in
      char_of_sextet (N.shiftr x 2)
      :: char_of_sextet (N.lor (N.shiftl (N.land x 3) 4) (N.shiftr y 4))
      :: char_of_sextet (N.lor (N.shiftl (N.land y 15) 2) (N.shiftr z 6))
      :: char_of_sextet (N.land z 63)
      :: encode rest
  end.

(** Decoding per RFC 4648, section 4: the value of a character of the
    alphabet. *)
Definition sextet_of_char (c : N) : option N :=
  if (65 <=? c) && (c <=? 90) then Some (c - 65)
  else if (97 <=? c) && (c <=? 122) then Some (c - 97 + 26)
  else if (48 <=? c) && (c <=? 57) then Some (c - 48 + 52)
  else if c =? 43 then Some 62
  else if c =? 47 then Some 63
  else None.

Definition bytes_of (ns : list N) : option (list byte) :=
  fold_right (fun n acc =>
                match Byte.of_N n, acc with
                | Some b, Some bs => Some (b :: bs)
                | _, _ => None
                end) (Some []) ns.

(** Four characters give three bytes; padding is accepted only in the last
    group. [None] when the text is not base64. *)
Fixpoint decode (s : jsstring) : option (list byte) :=
  match s with
  | [] => Some []
  | c0 :: c1 :: c2 :: c3 :: rest =>
      match sextet_of_char c0, sextet_of_char c1 with
      | Some s0, Some s1 =>
          let b0 := N.lor (N.shiftl s0 2) (N.shiftr s1 4) in
          if (c2 =? pad) && (c3 =? pad) then
            match rest with
            | [] => bytes_of [b0]
            | _ :: _ => None
            end
          else
            match sextet_of_char c2 with
            | Some s2 =>
                let b1 := N.lor (N.shiftl (N.land s1 15) 4) (N.shiftr s2 2) in
                if c3 =? pad then
                  match rest with
                  | [] => bytes_of [b0; b1]
                  | _ :: _ => None
                  end
                else
                  match sextet_of_char c3, decode rest with
                  | Some s3, Some tl =>
                      let b2 := N.lor (N.shiftl (N.land s2 3) 6) s3 in
                      match bytes_of [b0; b1; b2] with
                      | Some hd => Some (hd ++ tl)
                      | None => None
                      end
                  | _, _ => None
                  end
            | None => None
            end
      | _, _ => None
      end
  | _ => None
  end.

End Base64.

(** Removing a known prefix from a string; [None] when it is not there. *)
Fixpoint strip_prefix (p s : jsstring) : option jsstring :=
  match p, s with
  | [], _ => Some s
  | x :: p', y :: s' => if x =? y then strip_prefix p' s' else None
  | _ :: _, [] => None
  end.

(* ================================================================== *)
(** ** route.ts *)

Definition MODEL : jsstring := lit "google/gemini-2.5-flash-lite".

Definition OPENROUTER_URL : jsstring :=
  lit "https://openrouter.ai/api/v1/chat/completions".

(** [fileToDataUrl]: read the whole file, default the MIME type, base64 the
    buffer and wrap it as a data URL. *)
Definition fileToDataUrl (file : File) : M jsstring :=
  emit EvArrayBuffer ;;;
  let buffer := file_bytes file in
  let mime := or_else (file_type file) (lit "video/mp4") in
  let base64 := Base64.encode buffer in
  ret (lit "data:" ++ mime ++ lit ";base64," ++ base64).

(** [NextResponse.json({ error, details }, { status })]. *)
Definition json (status : N) (error : string) (details : option jsstring)
  : Response :=
  JsonResponse status (mkJson (lit error) details).

Definition maxBytes : N := 100 * 1024 * 1024.

(** Lines 41 to 77 of [POST]: the uploaded file when there is one, else the
    URL; [None] stands for [videoUrl] left [null]. *)
Definition resolve_videoUrl (w : World)
    (fileInput : option FormDataEntryValue) (urlInput : jsstring)
  : M (option jsstring) :=
  match fileInput with
  | Some (EntryFile f) =>
      if file_size f =? 0 then
        return_ (json 400 "Uploaded video file is empty." None)
      else if maxBytes <? file_size f then
        return_ (json 413
          "Video too large. Please compress or trim below 100MB before uploading."
          None)
      else
        u <- fileToDataUrl f ;;
        ret (Some u)
  | _ =>
      if truthy urlInput then
        emit (EvNewURL urlInput) ;;;
        if URL_parses w urlInput then ret (Some urlInput)
        else return_ (json 400 "Invalid video URL provided." None)
      else ret None
  end.

Definition baseInstruction : jsstring :=
  lit "You are an expert video analysis system. Provide a structured, detailed analysis of the provided video. "
  ++ lit "Include: (1) clear summary, (2) timeline/scene breakdown where relevant with approximate timestamps if inferable, "
  ++ lit "(3) domain-specific insights (e.g., coaching, marketing hooks, storytelling, UX, security), "
  ++ lit "(4) concise bullet-point recommendations.".

(** The suffix appended when there is a focus. *)
Definition focusClause (focusPrompt : jsstring) : jsstring :=
  lit " The user has an additional focus: " ++ [dquote] ++ focusPrompt
  ++ [dquote]
  ++ lit ". Prioritize this focus in your analysis while still covering core observations.".

(** The suffix appended when there is none. *)
Definition defaultClause : jsstring :=
  lit " If no additional focus is provided, infer the most valuable insights for a professional audience.".

Definition mergedPrompt (focusPrompt : jsstring) : jsstring :=
  baseInstruction
  ++ (if truthy focusPrompt then focusClause focusPrompt else defaultClause).

(** [!apiKey] for [process.env.OPENROUTER_API_KEY]. *)
Definition apiKey_missing (apiKey : option jsstring) : bool :=
  match apiKey with
  | None => true
  | Some k => negb (truthy k)
  end.

(** The [try] block of [POST]. *)
Definition POST_try (w : World) : M Response :=
  let apiKey := env_OPENROUTER_API_KEY w in
  if apiKey_missing apiKey then
    return_ (json 500 "Server misconfigured: OPENROUTER_API_KEY is missing."
               None)
  else
    emit EvFormData ;;;
    formData <- lift_result (req_formData w) ;;
    let focusPrompt :=
      trim (entry_text (formData_get (lit "focusPrompt") formData)) in
    let urlInput :=
      trim (entry_text (formData_get (lit "videoUrl") formData)) in
    let fileInput := formData_get (lit "video") formData in
    if entry_falsy fileInput && negb (truthy urlInput) then
      return_ (json 400 "Provide a video file or a video URL." None)
    else
      videoUrl <- resolve_videoUrl w fileInput urlInput ;;
      match videoUrl with
      | None => return_ (json 400 "Unable to resolve video input." None)
      | Some videoUrl =>
          if negb (truthy videoUrl) then
            return_ (json 400 "Unable to resolve video input." None)
          else
            let body :=
              mkOut OPENROUTER_URL
                    (lit "Bearer " ++ match apiKey with
                                      | Some k => k
                                      | None => []
                                      end)
                    (match req_referer w with
                     | Some r => or_else r []
                     | None => []
                     end)
                    MODEL
                    (mergedPrompt focusPrompt)
                    videoUrl
                    true in
            emit (EvFetch body) ;;;
            openrouterRes <- lift_result (fetch w body) ;;
            if negb (res_ok openrouterRes) then
              emit EvText ;;;
              let errText := match res_text openrouterRes with
                             | Some t => t
                             | None => []
                             end in
              return_ (json 502
                "OpenRouter request failed. Check model/video compatibility and limits."
                (Some (or_else errText
                         (lit "Status "
                          ++ of_number (res_status openrouterRes)))))
            else
              ret (StreamResponse (res_body openrouterRes))
      end.

(** [POST]: the [try] block, and the [catch] that turns anything thrown
    into a 500. The result is the response and the calls made. *)
Definition POST (w : World) : Response * list Event :=
  match POST_try w [] with
  | (Value r, tr) => (r, tr)
  | (Return r, tr) => (r, tr)
  | (Throw err, tr) =>
      (json 500 "Unexpected server error while analyzing video."
            (Some (or_else (exn_message err) (exn_string err))), tr)
  end.

(* ================================================================== *)
(** ** The summary/details derivations *)

Record AnalysisResponse := mkAnalysis {
  summary : jsstring;
  details : jsstring
}.

(** page.tsx, [handleSubmit]: what [setAnalysis] receives for the text
    accumulated so far. *)
Definition page_analysis (accumulatedDetails : jsstring) : AnalysisResponse :=
  let parts := split_lines accumulatedDetails in
  let summary := or_else (hd [] parts) (lit "AI analysis in progress...") in
  let details := join_lines (tl parts) in
  mkAnalysis summary (or_else details (lit "Generating detailed analysis...")).

(** The non-streaming variant of route.ts: the summary and details it
    returns for the model's text. *)
Definition route_analysis (contentText : jsstring) : AnalysisResponse :=
  let parts := split_lines contentText in
  let firstLine := hd [] parts in
  let rest := tl parts in
  let summary :=
    or_else (trim firstLine)
            (lit "AI analysis generated. See detailed breakdown below.") in
  let details := or_else (trim (join_lines rest)) contentText in
  mkAnalysis summary details.

(* ================================================================== *)
(** ** UTF-8: [TextDecoder] in streaming mode and [TextEncoder] *)

Module Utf8.

(** The state of the UTF-8 decoder of the Encoding standard. *)
Record decoder := mkDecoder {
  code_point : N;
  bytes_seen : N;
  bytes_needed : N;
  lower_boundary : N;
  upper_boundary : N
}.

Definition fresh : decoder := mkDecoder 0 0 0 0x80 0xBF.

Definition replacement : N := 0xFFFD.

(** Step 3 of the handler: a byte met when no sequence is open. *)
Definition lead (d : decoder) (b : N) : decoder * list N :=
  if b <=? 0x7F then (d, [b])
  else if (0xC2 <=? b) && (b <=? 0xDF) then
    (mkDecoder (N.land b 0x1F) (bytes_seen d) 1
               (lower_boundary d) (upper_boundary d), [])
  else if (0xE0 <=? b) && (b <=? 0xEF) then
    (mkDecoder (N.land b 0xF) (bytes_seen d) 2
               (if b =? 0xE0 then 0xA0 else lower_boundary d)
               (if b =? 0xED then 0x9F else upper_boundary d), [])
  else if (0xF0 <=? b) && (b <=? 0xF4) then
    (mkDecoder (N.land b 0x7) (bytes_seen d) 3
               (if b =? 0xF0 then 0x90 else lower_boundary d)
               (if b =? 0xF4 then 0x8F else upper_boundary d), [])
  else (d, [replacement]).

(** The decoder's handler for one byte, with the error mode "replacement":
    the new state and the code points it emits. A byte outside the
    boundaries resets the decoder, yields U+FFFD and, being restored to the
    queue, is handled again at once. *)
Definition handler (d : decoder) (b : N) : decoder * list N :=
  if bytes_needed d =? 0 then lead d b
  else if negb ((lower_boundary d <=? b) && (b <=? upper_boundary d)) then
    let '(d', out) := lead fresh b in (d', replacement :: out)
  else
    let cp := N.lor (N.shiftl (code_point d) 6) (N.land b 0x3F) in
    let seen := bytes_seen d + 1 in
    if seen =? bytes_needed d then (fresh, [cp])
    else (mkDecoder cp seen (bytes_needed d) 0x80 0xBF, []).

(** Handling the bytes of one input, without the end-of-queue step. *)
Fixpoint run (d : decoder) (bs : list N) : decoder * list N :=
  match bs with
  | [] => (d, [])
  | b :: bs' =>
      let '(d1, out1) := handler d b in
      let '(d2, out2) := run d1 bs' in
      (d2, out1 ++ out2)
  end.

(** The UTF-16 code units of a scalar value. *)
Definition units_of_scalar (cp : N) : jsstring :=
  if cp <? 0x10000 then [cp]
  else
    let c := cp - 0x10000 in
    [0xD800 + N.shiftr c 10; 0xDC00 + N.land c 0x3FF].

(** A [TextDecoder]: its decoder and its "BOM seen" flag. *)
Record TextDecoder := mkTextDecoder {
  td_decoder : decoder;
  td_BOM_seen : bool
}.

(** [new TextDecoder()]. *)
Definition new_TextDecoder : TextDecoder := mkTextDecoder fresh false.

(** "Serialize I/O queue": the first scalar value of the stream is dropped
    when it is the byte order mark. *)
Definition serialize (seen : bool) (cps : list N) : bool * list N :=
  if seen then (true, cps)
  else match cps with
       | [] => (false, [])
       | c :: rest => (true, if c =? 0xFEFF then rest else cps)
       end.

(** [decoder.decode(value, { stream: true })]: the decoder state is kept
    for the next call and nothing is flushed. *)
Definition TextDecoder_decode (td : TextDecoder) (value : list byte)
  : TextDecoder * jsstring :=
  let '(d, cps) := run (td_decoder td) (map Byte.to_N value) in
  let '(seen, out) := serialize (td_BOM_seen td) cps in
  (mkTextDecoder d seen, flat_map units_of_scalar out).

Definition is_lead_surrogate (u : N) : bool := (0xD800 <=? u) && (u <=? 0xDBFF).
Definition is_trail_surrogate (u : N) : bool := (0xDC00 <=? u) && (u <=? 0xDFFF).

(** The scalar values of a string, a lone surrogate read as U+FFFD. *)
Fixpoint scalar_values (s : jsstring) : list N :=
  match s with
  | [] => []
  | u :: rest =>
      if is_lead_surrogate u then
        match rest with
        | v :: rest' =>
            if is_trail_surrogate v then
              (0x10000 + N.shiftl (u - 0xD800) 10 + (v - 0xDC00))
              :: scalar_values rest'
            else replacement :: scalar_values rest
        | [] => [replacement]
        end
      else if is_trail_surrogate u then replacement :: scalar_values rest
      else u :: scalar_values rest
  end.

(** The UTF-8 encoder's bytes for one scalar value. *)
Definition encode_scalar (cp : N) : list N :=
  if cp <=? 0x7F then [cp]
  else if cp <=? 0x7FF then
    [N.shiftr cp 6 + 0xC0; N.lor 0x80 (N.land cp 0x3F)]
  else if cp <=? 0xFFFF then
    [N.shiftr cp 12 + 0xE0;
     N.lor 0x80 (N.land (N.shiftr cp 6) 0x3F);
     N.lor 0x80 (N.land cp 0x3F)]
  else
    [N.shiftr cp 18 + 0xF0;
     N.lor 0x80 (N.land (N.shiftr cp 12) 0x3F);
     N.lor 0x80 (N.land (N.shiftr cp 6) 0x3F);
     N.lor 0x80 (N.land cp 0x3F)].

Definition byte_of_N (n : N) : byte :=
  match Byte.of_N n with
  | Some b => b
  | None => x00
  end.

(** The UTF-8 bytes of a sequence of scalar values. *)
Definition encode_scalars (cps : list N) : list byte :=
  map byte_of_N (flat_map encode_scalar cps).

(** [new TextEncoder().encode(chunk)]. *)
Definition TextEncoder_encode (chunk : jsstring) : list byte :=
  encode_scalars (scalar_values chunk).

(** A scalar value: a code point that is not a surrogate. *)
Definition is_scalar (cp : N) : bool :=
  (cp <=? 0x10FFFF) && negb ((0xD800 <=? cp) && (cp <=? 0xDFFF)).

End Utf8.

(* ================================================================== *)
(** ** The default controller of a [ReadableStream] *)

Module Stream.

Inductive state :=
| Readable
| Closed
| Errored (e : Exn).

(** What a [read()] of the consumer settles to. *)
Inductive ReadResult :=
| Chunk (c : list byte)
| Done
| Failed (e : Exn).

(** A stream with its controller and its reader: the state, the queue of
    chunks not yet read, the close-requested flag, the number of reads
    waiting for a chunk, and the reads settled so far, oldest first. *)
Record stream := mkStream {
  st_state : state;
  st_queue : list (list byte);
  st_closeRequested : bool;
  st_requests : nat;
  st_settled : list ReadResult
}.

(** [new ReadableStream(...)] before [start] has done anything. *)
Definition new_stream : stream := mkStream Readable [] false 0 [].

(** The [TypeError] that [enqueue] and [close] throw on a stream that can
    no longer be closed or enqueued to. *)
Definition TypeError : Exn :=
  mkExn (lit "Invalid state: Controller is already closed")
        (lit "TypeError: Invalid state: Controller is already closed").

Definition canCloseOrEnqueue (s : stream) : bool :=
  match st_state s with
  | Readable => negb (st_closeRequested s)
  | _ => false
  end.

(** [controller.enqueue(chunk)]: a waiting read takes the chunk, otherwise
    it joins the queue. *)
Definition enqueue (c : list byte) (s : stream) : Exn + stream :=
  if canCloseOrEnqueue s then
    match st_requests s with
    | S n => inr (mkStream (st_state s) (st_queue s) (st_closeRequested s) n
                           (st_settled s ++ [Chunk c]))
    | O => inr (mkStream (st_state s) (st_queue s ++ [c])
                         (st_closeRequested s) O (st_settled s))
    end
  else inl TypeError.

(** [controller.close()]: with an empty queue the stream closes and every
    waiting read settles as done; otherwise it closes when the queue has
    been read. *)
Definition close (s : stream) : Exn + stream :=
  if canCloseOrEnqueue s then
    match st_queue s with
    | [] => inr (mkStream Closed [] true O
                          (st_settled s ++ repeat Done (st_requests s)))
    | _ :: _ => inr (mkStream (st_state s) (st_queue s) true (st_requests s)
                              (st_settled s))
    end
  else inl TypeError.

(** [controller.error(e)]: nothing on a stream that is not readable;
    otherwise the queue is reset, the stream is errored and every waiting
    read is rejected. *)
Definition error (e : Exn) (s : stream) : stream :=
  match st_state s with
  | Readable =>
      mkStream (Errored e) [] (st_closeRequested s) O
               (st_settled s ++ repeat (Failed e) (st_requests s))
  | _ => s
  end.

(** One [reader.read()] of the consumer. *)
Definition read (s : stream) : stream :=
  match st_state s with
  | Closed =>
      mkStream Closed (st_queue s) (st_closeRequested s) (st_requests s)
               (st_settled s ++ [Done])
  | Errored e =>
      mkStream (Errored e) (st_queue s) (st_closeRequested s) (st_requests s)
               (st_settled s ++ [Failed e])
  | Readable =>
      match st_queue s with
      | c :: q =>
          mkStream (match q with
                    | [] => if st_closeRequested s then Closed else Readable
                    | _ :: _ => Readable
                    end)
                   q (st_closeRequested s) (st_requests s)
                   (st_settled s ++ [Chunk c])
      | [] =>
          mkStream Readable [] (st_closeRequested s) (S (st_requests s))
                   (st_settled s)
      end
  end.

(** [k] reads in a row. *)
Fixpoint reads (k : nat) (s : stream) : stream :=
  match k with
  | O => s
  | S k' => reads k' (read s)
  end.

(** The consumer's view: what its reads settled to, up to and including
    the first end or failure. *)
Fixpoint observed (rs : list ReadResult) : list ReadResult :=
  match rs with
  | [] => []
  | Chunk c :: rs' => Chunk c :: observed rs'
  | r :: _ => [r]
  end.

End Stream.

Import Stream.

(** The consumer's part in a run: how many reads it issues while [start]
    waits at each [await reader.read()], in order (none once the list is
    exhausted). *)
Definition schedule := list nat.

(** The [while] loop of [start]. At each [await reader.read()] the consumer
    first issues the reads the schedule gives it. The result is the stream
    and what the loop threw, if anything. *)
Fixpoint start_loop (decoder : Utf8.TextDecoder) (chunks : list (list byte))
    (fin : UpstreamEnd) (sched : schedule) (s : stream)
  : option Exn * stream :=
  let s := reads (hd O sched) s in
  match chunks with
  | [] =>
      match fin with
      | UpDone => (None, s)
      | UpFail e => (Some e, s)
      end
  | value :: chunks' =>
      let '(decoder', chunk) := Utf8.TextDecoder_decode decoder value in
      match enqueue (Utf8.TextEncoder_encode chunk) s with
      | inl e => (Some e, s)
      | inr s' => start_loop decoder' chunks' fin (tl sched) s'
      end
  end.

(** The [start] callback of the relayed stream. An exception that leaves
    [start] rejects its promise, and the stream is then errored with it
    unless it is no longer readable. *)
Definition start (body : option UpstreamBody) (sched : schedule) (s : stream)
  : stream :=
  match body with
  | None =>
      match close s with
      | inr s' => s'
      | inl e => error e s
      end
  | Some reader =>
      let decoder := Utf8.new_TextDecoder in
      let '(thrown, s1) :=
        start_loop decoder (up_chunks reader) (up_end reader) sched s in
      let s2 := match thrown with
                | Some e => error e s1
                | None => s1
                end in
      match close s2 with
      | inr s3 => s3
      | inl e => error e s2
      end
  end.

(** What the consumer of the relayed stream observes when it goes on
    reading after [start] has finished, until the stream ends or fails. *)
Definition relay (body : option UpstreamBody) (sched : schedule)
  : list ReadResult :=
  let s := start body sched new_stream in
  observed (st_settled (reads (S (List.length (st_queue s))) s)).

(* ================================================================== *)
(** ** The error responses of the handler, by the names the design gives
    them *)

Definition ServerMisconfigured : Response :=
  json 500 "Server misconfigured: OPENROUTER_API_KEY is missing." None.

Definition MissingInput : Response :=
  json 400 "Provide a video file or a video URL." None.

Definition EmptyFile : Response :=
  json 400 "Uploaded video file is empty." None.

Definition TooLarge : Response :=
  json 413
    "Video too large. Please compress or trim below 100MB before uploading."
    None.

Definition InvalidUrl : Response :=
  json 400 "Invalid video URL provided." None.

Definition UnresolvedInput : Response :=
  json 400 "Unable to resolve video input." None.

Definition UpstreamError (details : jsstring) : Response :=
  json 502
    "OpenRouter request failed. Check model/video compatibility and limits."
    (Some details).

(** The HTTP status of a response; the event stream is sent with 200. *)
Definition http_status (r : Response) : N :=
  match r with
  | JsonResponse status _ => status
  | StreamResponse _ => 200
  end.

(** A request that reaches input handling: the key is configured and the
    form data parses to [fd]. *)
Definition accepted (w : World) (fd : FormData) : Prop :=
  apiKey_missing (env_OPENROUTER_API_KEY w) = false /\
  req_formData w = inr fd.

(** The form fields as the handler reads them. *)
Definition field_focusPrompt (fd : FormData) : jsstring :=
  trim (entry_text (formData_get (lit "focusPrompt") fd)).

Definition field_videoUrl (fd : FormData) : jsstring :=
  trim (entry_text (formData_get (lit "videoUrl") fd)).

Definition field_video (fd : FormData) : option FormDataEntryValue :=
  formData_get (lit "video") fd.

(** The data URL that [fileToDataUrl] builds. *)
Definition dataUrl (f : File) : jsstring :=
  lit "data:" ++ or_else (file_type f) (lit "video/mp4") ++ lit ";base64,"
  ++ Base64.encode (file_bytes f).

(** Is this call an outbound call to the provider? *)
Definition is_fetch (ev : Event) : bool :=
  match ev with
  | EvFetch _ => true
  | _ => false
  end.

(** Is this call a syntax check of a URL? *)
Definition is_URL_check (ev : Event) : bool :=
  match ev with
  | EvNewURL _ => true
  | _ => false
  end.

(** The outbound request for a resolved video URL. *)
Definition outbound (w : World) (fd : FormData) (videoUrl : jsstring)
  : OutboundRequest :=
  mkOut OPENROUTER_URL
        (lit "Bearer " ++ match env_OPENROUTER_API_KEY w with
                          | Some k => k
                          | None => []
                          end)
        (match req_referer w with
         | Some r => or_else r []
         | None => []
         end)
        MODEL
        (mergedPrompt (field_focusPrompt fd))
        videoUrl
        true.

(** The [details] of the 502 response for a provider response that is not
    ok. *)
Definition upstream_details (res : FetchResponse) : jsstring :=
  or_else (match res_text res with Some t => t | None => [] end)
          (lit "Status " ++ of_number (res_status res)).

(** The catch-all response for something thrown. *)
Definition UnexpectedInternalError (err : Exn) : Response :=
  json 500 "Unexpected server error while analyzing video."
       (Some (or_else (exn_message err) (exn_string err))).

(** What the handler answers once the request has been sent, and the calls
    it makes after [fetch]. *)
Definition provider_outcome (w : World) (req : OutboundRequest)
  : Response * list Event :=
  match fetch w req with
  | inl err => (UnexpectedInternalError err, [])
  | inr res =>
      if res_ok res then (StreamResponse (res_body res), [])
      else (UpstreamError (upstream_details res), [EvText])
  end.

(** How a video URL gets resolved: from the uploaded file, after reading
    it, or from the URL field, after checking its syntax. The list holds
    the calls made on the way. *)
Inductive resolved (w : World) (fd : FormData)
  : list Event -> jsstring -> Prop :=
| resolved_file (f : File) :
    field_video fd = Some (EntryFile f) ->
    file_size f <> 0 ->
    file_size f <= maxBytes ->
    resolved w fd [EvArrayBuffer] (dataUrl f)
| resolved_url :
    (forall f, field_video fd <> Some (EntryFile f)) ->
    truthy (field_videoUrl fd) = true ->
    URL_parses w (field_videoUrl fd) = true ->
    resolved w fd [EvNewURL (field_videoUrl fd)] (field_videoUrl fd).

(** The ways through the handler: each exit with the response it gives and
    the calls made before it. *)
Inductive handled (w : World) : Response -> list Event -> Prop :=
| exit_misconfigured :
    apiKey_missing (env_OPENROUTER_API_KEY w) = true ->
    handled w ServerMisconfigured []
| exit_formData_threw (e : Exn) :
    apiKey_missing (env_OPENROUTER_API_KEY w) = false ->
    req_formData w = inl e ->
    handled w (UnexpectedInternalError e) [EvFormData]
| exit_missing_input (fd : FormData) :
    accepted w fd ->
    entry_falsy (field_video fd) = true ->
    truthy (field_videoUrl fd) = false ->
    handled w MissingInput [EvFormData]
| exit_empty_file (fd : FormData) (f : File) :
    accepted w fd ->
    field_video fd = Some (EntryFile f) ->
    file_size f = 0 ->
    handled w EmptyFile [EvFormData]
| exit_too_large (fd : FormData) (f : File) :
    accepted w fd ->
    field_video fd = Some (EntryFile f) ->
    maxBytes < file_size f ->
    handled w TooLarge [EvFormData]
| exit_invalid_url (fd : FormData) :
    accepted w fd ->
    (forall f, field_video fd <> Some (EntryFile f)) ->
    truthy (field_videoUrl fd) = true ->
    URL_parses w (field_videoUrl fd) = false ->
    handled w InvalidUrl [EvFormData; EvNewURL (field_videoUrl fd)]
| exit_unresolved (fd : FormData) (s : jsstring) :
    accepted w fd ->
    field_video fd = Some (EntryString s) ->
    truthy s = true ->
    truthy (field_videoUrl fd) = false ->
    handled w UnresolvedInput [EvFormData]
| exit_sent (fd : FormData) (pre : list Event) (videoUrl : jsstring) :
    accepted w fd ->
    resolved w fd pre videoUrl ->
    let req := outbound w fd videoUrl in
    handled w (fst (provider_outcome w req))
              (EvFormData :: pre ++ EvFetch req :: snd (provider_outcome w req)).

(** The line feed, at which the derivations split. *)
Definition newline : N := 0xA.

(** The words by which the design names the default suffix. *)
Definition defaultPhrase : jsstring := lit "infer the most valuable insights".

(** The opening of the focus clause. *)
Definition focusOpening : jsstring := lit " The user has an additional focus: ".

(** The prompt the handler assembles for a [focusPrompt] field holding
    [raw]. *)
Definition prompt_for (raw : jsstring) : jsstring := mergedPrompt (trim raw).

(** The chunks that [start] enqueues for the chunks it reads, one for
    one: each is decoded, in streaming mode, and encoded again. *)
Fixpoint forwarded (decoder : Utf8.TextDecoder) (chunks : list (list byte))
  : list (list byte) :=
  match chunks with
  | [] => []
  | value :: chunks' =>
      let '(decoder', chunk) := Utf8.TextDecoder_decode decoder value in
      Utf8.TextEncoder_encode chunk :: forwarded decoder' chunks'
  end.

(** The bytes a consumer has received: its chunks, concatenated. *)
Definition delivered (obs : list ReadResult) : list byte :=
  flat_map (fun r => match r with
                     | Chunk c => c
                     | _ => []
                     end) obs.

(** The byte order mark. *)
Definition BOM : N := 0xFEFF.

(** Text that [TextDecoder] passes on whole: scalar values, the first of
    which is not the byte order mark. *)
Definition plain_text (cps : list N) : Prop :=
  Forall (fun cp => Utf8.is_scalar cp = true) cps /\
  hd_error cps <> Some BOM.

(** A stream that [start] is still feeding, with the chunks enqueued so
    far: readable, not asked to close, none of its reads settled with an
    end or a failure; the consumer has seen the first of the chunks and the
    rest wait in the queue, and reads wait only when the queue is empty. *)
Definition flowing (s : stream) (hist : list (list byte)) : Prop :=
  st_state s = Readable /\
  st_closeRequested s = false /\
  (st_requests s <> O -> st_queue s = []) /\
  exists seen, st_settled s = map Chunk seen /\ hist = seen ++ st_queue s.

(** What the loop of [start] throws, by the way the upstream ends. *)
Definition thrown_by (fin : UpstreamEnd) : option Exn :=
  match fin with
  | UpDone => None
  | UpFail e => Some e
  end.

(** A consumer that keeps up with the first [n] reads of [start]: it has a
    read of its own under way each time. *)
Definition keeps_up (n : nat) (sched : schedule) : Prop :=
  forall i, (i < n)%nat -> (1 <= nth i sched O)%nat.

(* ================================================================== *)
(** ** Sample requests *)

Module Sample.

Definition key : option jsstring := Some (lit "sk-or-sample").

(** A stand-in for the platform's URL parser. *)
Definition parses (u : jsstring) : bool := startsWith (lit "https://") u.

Definition world (k : option jsstring) (fd : FormData)
    (net : OutboundRequest -> Exn + FetchResponse) : World :=
  mkWorld k (inr fd) None parses net.

(** A provider that answers every call the same way. *)
Definition answers (res : FetchResponse) : OutboundRequest -> Exn + FetchResponse :=
  fun _ => inr res.

Definition ok_empty : FetchResponse := mkFetch 200 None None.

Definition overloaded (status : N) : FetchResponse :=
  mkFetch status (Some (lit "overloaded")) None.

Definition silent (status : N) : FetchResponse :=
  mkFetch status (Some []) None.

Definition video_url : jsstring := lit "https://example.com/clip.mp4".

(** A provider that answers 200 and streams [body]. *)
Definition streams (body : UpstreamBody) : OutboundRequest -> Exn + FetchResponse :=
  answers (mkFetch 200 None (Some body)).

(** A request by URL, answered with the stream [body]. *)
Definition streaming_world (body : UpstreamBody) : World :=
  mkWorld key (inr [(lit "videoUrl", EntryString video_url)]) None parses
          (streams body).

Definition reset : Exn :=
  mkExn (lit "terminated") (lit "TypeError: terminated").

(** A file of [n] zero bytes, declared as MP4. *)
Definition file_of_size (n : N) : File :=
  mkFile (lit "video/mp4") (repeat x00 (N.to_nat n)).

Definition small_file : File :=
  mkFile (lit "video/webm") [x01; x02; x03; x04].

Definition empty_file : File := mkFile (lit "video/mp4") [].

Definition upload_form (f : File) : FormData :=
  [(lit "video", EntryFile f)].

Definition upload_and_url_form (f : File) (u : jsstring) : FormData :=
  [(lit "video", EntryFile f); (lit "videoUrl", EntryString u)].

Definition url_form (u : jsstring) : FormData :=
  [(lit "videoUrl", EntryString u)].

Definition text_video_form (v : jsstring) : FormData :=
  [(lit "video", EntryString v)].

Definition text_video_and_url_form (v u : jsstring) : FormData :=
  [(lit "video", EntryString v); (lit "videoUrl", EntryString u)].

End Sample.

(* ================================================================== *)
(** ** Notions for the further properties *)

(** A character that base64 text is made of: one of the alphabet, or the
    padding. *)
Definition is_base64_char (c : N) : bool :=
  match Base64.sextet_of_char c with
  | Some _ => true
  | None => c =? Base64.pad
  end.

(** The outbound calls among the calls made. *)
Definition fetches (tr : list Event) : list Event := filter is_fetch tr.

(** Well-formed UTF-8: the encoding of a sequence of scalar values. *)
Definition well_formed_utf8 (bs : list byte) : Prop :=
  exists cps,
    Forall (fun cp => Utf8.is_scalar cp = true) cps /\
    bs = Utf8.encode_scalars cps.

(** The states the UTF-8 decoder can be in between two bytes: at rest, or
    inside a sequence of two, three or four bytes, with the bits gathered so
    far and the boundaries that the first byte set for the second. *)
Definition decoder_ok (d : Utf8.decoder) : Prop :=
  let cp := Utf8.code_point d in
  let seen := Utf8.bytes_seen d in
  let needed := Utf8.bytes_needed d in
  let lo := Utf8.lower_boundary d in
  let hi := Utf8.upper_boundary d in
  d = Utf8.fresh \/
  (needed = 1 /\ seen = 0 /\ 2 <= cp <= 31 /\ lo = 0x80 /\ hi = 0xBF) \/
  (needed = 2 /\ seen = 0 /\ cp <= 15 /\
   lo = (if cp =? 0 then 0xA0 else 0x80) /\
   hi = (if cp =? 13 then 0x9F else 0xBF)) \/
  (needed = 2 /\ seen = 1 /\ 0x20 <= cp <= 0x3FF /\
   ~ (0x360 <= cp <= 0x37F) /\ lo = 0x80 /\ hi = 0xBF) \/
  (needed = 3 /\ seen = 0 /\ cp <= 4 /\
   lo = (if cp =? 0 then 0x90 else 0x80) /\
   hi = (if cp =? 4 then 0x8F else 0xBF)) \/
  (needed = 3 /\ seen = 1 /\ 0x10 <= cp <= 0x10F /\ lo = 0x80 /\ hi = 0xBF) \/
  (needed = 3 /\ seen = 2 /\ 0x400 <= cp <= 0x43FF /\ lo = 0x80 /\ hi = 0xBF).

(* ================================================================== *)
(** ** JSON values, as far as the code looks into them *)

(** A value that [JSON.parse] or [response.json()] yields. Of a number the
    code can only tell whether it is zero and how it prints, and the model
    keeps just that. An object holds its own properties, each name once. *)
#[local] Set Warnings "-register-all".

Inductive Json :=
| JNull
| JBool (b : bool)
| JNumber (zero : bool) (text : jsstring)
| JString (s : jsstring)
| JArray (items : list Json)
| JObject (fields : list (jsstring * Json)).

#[local] Set Warnings "+register-all".

(** Truthiness of a value; [None] stands for [undefined]. *)
Definition js_truthy (v : option Json) : bool :=
  match v with
  | None => false
  | Some JNull => false
  | Some (JBool b) => b
  | Some (JNumber zero _) => negb zero
  | Some (JString s) => truthy s
  | Some (JArray _) => true
  | Some (JObject _) => true
  end.

(** [a || b] on values. *)
Definition js_or (a b : option Json) : option Json :=
  if js_truthy a then a else b.

(** An own property of an object. *)
Fixpoint own_property (name : jsstring) (fields : list (jsstring * Json))
  : option Json :=
  match fields with
  | [] => None
  | (k, v) :: fields' =>
      if JS.eqb k name then Some v else own_property name fields'
  end.

(** [v?.name], for the names the code reads ([choices], [message],
    [delta], [content], [text], [error]): only an object can have them;
    strings, numbers, booleans and arrays have no property of these names,
    and on [null] and [undefined] the optional chain stops. *)
Definition member (name : jsstring) (v : option Json) : option Json :=
  match v with
  | Some (JObject fields) => own_property name fields
  | _ => None
  end.

(** [v?.[0]]: the first element of an array, the first code unit of a
    string, the property ["0"] of an object. *)
Definition element0 (v : option Json) : option Json :=
  match v with
  | Some (JArray (x :: _)) => Some x
  | Some (JString (u :: _)) => Some (JString [u])
  | Some (JObject fields) => own_property (lit "0") fields
  | _ => None
  end.

(** The [TypeError]s that the code can meet, as V8 words them. *)
Definition TypeError_null_choices : Exn :=
  mkExn (lit "Cannot read properties of null (reading 'choices')")
        (lit "TypeError: Cannot read properties of null (reading 'choices')").

Definition TypeError_split : Exn :=
  mkExn (lit "contentText.split is not a function or its return value is not iterable")
        (lit "TypeError: contentText.split is not a function or its return value is not iterable").

Definition TypeError_primitive : Exn :=
  mkExn (lit "Cannot convert object to primitive value")
        (lit "TypeError: Cannot convert object to primitive value").

(** [json.choices], which is not an optional access: it throws on [null]. *)
Definition get_choices (json : Json) : Exn + option Json :=
  match json with
  | JNull => inl TypeError_null_choices
  | _ => inr (member (lit "choices") (Some json))
  end.

(** The conversion of a value to a string, as string concatenation and
    [new Error(message)] perform it. An array prints its elements
    separated by commas, [null] among them as nothing. An object prints as
    "[object Object]", unless it has a property [toString] of its own:
    that property is not a function, and the conversion throws. *)
Fixpoint to_string (v : Json) : Exn + jsstring :=
  match v with
  | JNull => inr (lit "null")
  | JBool true => inr (lit "true")
  | JBool false => inr (lit "false")
  | JNumber _ text => inr text
  | JString s => inr s
  | JArray items =>
      (fix join (items : list Json) : Exn + jsstring :=
         match items with
         | [] => inr []
         | x :: rest =>
             match (match x with
                    | JNull => inr []
                    | _ => to_string x
                    end) with
             | inl e => inl e
             | inr s =>
                 match rest with
                 | [] => inr s
                 | _ :: _ =>
                     match join rest with
                     | inl e => inl e
                     | inr t => inr (s ++ 0x2C :: t)
                     end
                 end
             end
         end) items
  | JObject fields =>
      match own_property (lit "toString") fields with
      | Some _ => inl TypeError_primitive
      | None => inr (lit "[object Object]")
      end
  end.

(* ================================================================== *)
(** ** The non-streaming variant of the route, after the status check *)

(** What the non-streaming route answers: one of the error responses it
    shares with the streaming route, the 502 that carries the provider's
    JSON back, or the analysis. *)
Inductive NonStreamingAnswer :=
| AnswerError (r : Response)
| AnswerNoContent (raw : Json)
| AnswerAnalysis (a : AnalysisResponse).

(** The end of the non-streaming [POST], from [await openrouterRes.json()]
    on, with the [catch] of the handler around it. The argument is what
    [json()] settles to. *)
Definition finish_nonstreaming (json_result : Exn + Json)
  : NonStreamingAnswer :=
  match json_result with
  | inl err => AnswerError (UnexpectedInternalError err)
  | inr json =>
      match get_choices json with
      | inl err => AnswerError (UnexpectedInternalError err)
      | inr choices =>
          let content :=
            member (lit "content") (member (lit "message") (element0 choices)) in
          let contentText :=
            js_or (js_or content (member (lit "text") (element0 content)))
                  (Some (JString [])) in
          if negb (js_truthy contentText) then AnswerNoContent json
          else
            match contentText with
            | Some (JString s) => AnswerAnalysis (route_analysis s)
            | _ => AnswerError (UnexpectedInternalError TypeError_split)
            end
      end
  end.

(** The HTTP status of an answer. *)
Definition answer_status (a : NonStreamingAnswer) : N :=
  match a with
  | AnswerError r => http_status r
  | AnswerNoContent _ => 502
  | AnswerAnalysis _ => 200
  end.

(* ================================================================== *)
(** ** page.tsx: [handleSubmit] *)

(** What the user has put into the form. *)
Record PageInput := mkInput {
  in_videoFile : option File;
  in_videoUrl : jsstring;
  in_focusPrompt : jsstring
}.

(** What the page shows in the end. *)
Record PageView := mkView {
  view_analysis : option AnalysisResponse;
  view_error : option jsstring
}.

(** The check before anything is sent: a file, or a URL that is not
    blank. *)
Definition page_check (i : PageInput) : bool :=
  negb (match in_videoFile i with
        | Some _ => false
        | None => true
        end
        && negb (truthy (trim (in_videoUrl i)))).

(** The form data the page sends. *)
Definition page_formData (i : PageInput) : FormData :=
  (match in_videoFile i with
   | Some f => [(lit "video", EntryFile f)]
   | None => []
   end)
  ++ (if truthy (trim (in_videoUrl i))
      then [(lit "videoUrl", EntryString (trim (in_videoUrl i)))]
      else [])
  ++ (if truthy (trim (in_focusPrompt i))
      then [(lit "focusPrompt", EntryString (trim (in_focusPrompt i)))]
      else []).

(** The response as the page receives it: its status, what [res.json()]
    settles to ([None] when it rejects) and the body stream. *)
Record Reply := mkReply {
  rp_status : N;
  rp_json : option Json;
  rp_body : option UpstreamBody
}.

Definition rp_ok (r : Reply) : bool :=
  (200 <=? rp_status r) && (rp_status r <=? 299).

(** The variables of the reading loop. *)
Record Progress := mkProgress {
  accumulatedSummary : jsstring;
  accumulatedDetails : jsstring;
  isFirstChunk : bool;
  analysis : option AnalysisResponse
}.

Definition no_progress : Progress := mkProgress [] [] true None.

(** [line.slice(6)]. *)
Definition slice6 (line : jsstring) : jsstring := skipn 6 line.

(** The body of the [for] loop, for one line; [JSON_parse] is the
    platform's parser. Whatever is thrown inside the [try] is caught and
    the line skipped. *)
Definition handle_line (JSON_parse : jsstring -> Exn + Json)
    (line : jsstring) (p : Progress) : Progress :=
  if startsWith (lit "data: ") line then
    let data := trim (slice6 line) in
    if JS.eqb data (lit "[DONE]") then p
    else
      match JSON_parse data with
      | inl _ => p
      | inr parsed =>
          match get_choices parsed with
          | inl _ => p
          | inr choices =>
              let content :=
                js_or (member (lit "content")
                         (member (lit "delta") (element0 choices)))
                      (Some (JString [])) in
              if js_truthy content then
                match content with
                | None => p
                | Some c =>
                    match to_string c with
                    | inl _ => p
                    | inr text =>
                        let summary' :=
                          if isFirstChunk p then accumulatedSummary p ++ text
                          else accumulatedSummary p in
                        let details' := accumulatedDetails p ++ text in
                        mkProgress summary' details' false
                                   (Some (page_analysis details'))
                    end
                end
              else p
          end
      end
  else p.

(** The lines of one decoded chunk, in order. *)
Definition handle_chunk (JSON_parse : jsstring -> Exn + Json)
    (chunk : jsstring) (p : Progress) : Progress :=
  fold_left (fun p line => handle_line JSON_parse line p)
            (split_lines chunk) p.

(** The [while] loop over the chunks read. *)
Fixpoint read_loop (JSON_parse : jsstring -> Exn + Json)
    (decoder : Utf8.TextDecoder) (chunks : list (list byte)) (p : Progress)
  : Progress :=
  match chunks with
  | [] => p
  | value :: chunks' =>
      let '(decoder', chunk) := Utf8.TextDecoder_decode decoder value in
      read_loop JSON_parse decoder' chunks' (handle_chunk JSON_parse chunk p)
  end.

(** [setError(err.message || "Unexpected error analyzing video.")]. *)
Definition shown_error (message : jsstring) : option jsstring :=
  Some (or_else message (lit "Unexpected error analyzing video.")).

(** [handleSubmit] of the streaming page, from the check to the last
    [setAnalysis] and [setError]; [send] is the call to the route. *)
Definition handleSubmit (JSON_parse : jsstring -> Exn + Json)
    (send : FormData -> Exn + Reply) (i : PageInput) : PageView :=
  if negb (page_check i) then
    mkView None (Some (lit "Provide a video file or a video URL."))
  else
    match send (page_formData i) with
    | inl err => mkView None (shown_error (exn_message err))
    | inr res =>
        if negb (rp_ok res) then
          let data := rp_json res in
          let message :=
            js_or (member (lit "error") data)
                  (Some (JString (lit "Request failed with status "
                                  ++ of_number (rp_status res)))) in
          match message with
          | None => mkView None (shown_error [])
          | Some m =>
              match to_string m with
              | inl err => mkView None (shown_error (exn_message err))
              | inr text => mkView None (shown_error text)
              end
          end
        else
          match rp_body res with
          | None => mkView None (shown_error (lit "No response body available"))
          | Some reader =>
              let p := read_loop JSON_parse Utf8.new_TextDecoder
                                 (up_chunks reader) no_progress in
              match up_end reader with
              | UpDone => mkView (analysis p) None
              | UpFail err => mkView (analysis p) (shown_error (exn_message err))
              end
          end
    end.

(** The response of the route as it reaches the page when it is one of the
    JSON responses: the status, and the object with [error] and, when there
    are any, [details]. *)
Definition reply_of_json (status : N) (body : JsonBody) : Reply :=
  mkReply status
          (Some (JObject
                   ((lit "error", JString (json_error body))
                    :: match json_details body with
                       | Some d => [(lit "details", JString d)]
                       | None => []
                       end)))
          None.

(** The loop's variables agree with one another: before any text has
    arrived nothing is shown and nothing accumulated; afterwards what is
    shown is the split of the text accumulated, of which the accumulated
    summary is the first piece. *)
Definition progress_ok (p : Progress) : Prop :=
  (isFirstChunk p = true /\ analysis p = None /\
   accumulatedDetails p = [] /\ accumulatedSummary p = []) \/
  (isFirstChunk p = false /\
   analysis p = Some (page_analysis (accumulatedDetails p)) /\
   startsWith (accumulatedSummary p) (accumulatedDetails p) = true).

(* ================================================================== *)
(** ** The form on its way from the page to the route *)

(** The carriage return; the line feed is [newline]. *)
Definition carriage_return : N := 0xD.

(** [formData.append(name, value)] takes its value as a [USVString]: a
    surrogate that is not one of a pair becomes U+FFFD. *)
Fixpoint to_USVString (s : jsstring) : jsstring :=
  match s with
  | [] => []
  | u :: rest =>
      if Utf8.is_lead_surrogate u then
        match rest with
        | v :: rest' =>
            if Utf8.is_trail_surrogate v then u :: v :: to_USVString rest'
            else Utf8.replacement :: to_USVString rest
        | [] => [Utf8.replacement]
        end
      else if Utf8.is_trail_surrogate u then
        Utf8.replacement :: to_USVString rest
      else u :: to_USVString rest
  end.

(** The multipart/form-data encoding of a string value, which [fetch]
    applies to a [FormData] body: every carriage return not followed by a
    line feed, and every line feed not preceded by a carriage return,
    becomes the pair of the two. *)
Fixpoint normalize_newlines (s : jsstring) : jsstring :=
  match s with
  | [] => []
  | u :: rest =>
      if u =? carriage_return then
        match rest with
        | v :: rest' =>
            if v =? newline then
              carriage_return :: newline :: normalize_newlines rest'
            else carriage_return :: newline :: normalize_newlines rest
        | [] => [carriage_return; newline]
        end
      else if u =? newline then
        carriage_return :: newline :: normalize_newlines rest
      else u :: normalize_newlines rest
  end.

(** A string value as the route reads it back from the request. The bytes
    between are its UTF-8 encoding, which the route's parser decodes to the
    same string. *)
Definition on_the_wire (s : jsstring) : jsstring :=
  normalize_newlines (to_USVString s).

(** The entries that [req.formData()] yields for the entries the page
    appended, whose names are plain words and arrive as written.
    [as_received] stands for what the transport makes of a file, of which
    the route's parser builds a [File] of its own. *)
Definition received (as_received : File -> File) (fd : FormData) : FormData :=
  map (fun entry : jsstring * FormDataEntryValue =>
         (fst entry,
          match snd entry with
          | EntryString s => EntryString (on_the_wire s)
          | EntryFile f => EntryFile (as_received f)
          end)) fd.

(** Has the string a carriage return or a line feed? *)
Definition has_line_break (s : jsstring) : bool :=
  existsb (fun u => (u =? carriage_return) || (u =? newline)) s.

(* ================================================================== *)
(** * Properties *)

(** ** The handler, branch by branch *)

Arguments lit : simpl never.
Arguments json : simpl never.
Arguments Base64.encode : simpl never.
Arguments trim : simpl never.
Arguments mergedPrompt : simpl never.
Arguments of_number : simpl never.
Arguments maxBytes : simpl never.

Lemma truthy_nonempty (s : jsstring) : truthy s = true <-> s <> [].
Proof. destruct s; cbn; split; congruence. Qed.

Lemma truthy_false (s : jsstring) : truthy s = false <-> s = [].
Proof. destruct s; cbn; split; congruence. Qed.

Lemma or_else_truthy (a b : jsstring) : truthy a = true -> or_else a b = a.
Proof. unfold or_else. now intros ->. Qed.

Ltac run_handler :=
  unfold POST, POST_try, bind, emit, return_, ret, lift_result, throw.

Section Handler.

Variable w : World.
Variable fd : FormData.
Hypothesis Hacc : accepted w fd.

Lemma POST_missing_key :
  apiKey_missing (env_OPENROUTER_API_KEY w) = true ->
  POST w = (ServerMisconfigured, []).
Proof.
  intros H. run_handler. rewrite H. reflexivity.
Qed.

Lemma POST_formData_throws (e : Exn) :
  apiKey_missing (env_OPENROUTER_API_KEY w) = false ->
  req_formData w = inl e ->
  POST w = (UnexpectedInternalError e, [EvFormData]).
Proof.
  intros H1 H2. run_handler. rewrite H1, H2. reflexivity.
Qed.

Lemma POST_missing_input :
  entry_falsy (field_video fd) = true ->
  truthy (field_videoUrl fd) = false ->
  POST w = (MissingInput, [EvFormData]).
Proof.
  destruct Hacc as [Hk Hf]. intros H1 H2. run_handler.
  rewrite Hk, Hf. cbn.
  fold (field_video fd) (field_videoUrl fd). rewrite H1, H2. reflexivity.
Qed.

(** After a successful resolution the handler sends the request and answers
    with the provider's outcome. *)
Lemma POST_file (f : File) :
  field_video fd = Some (EntryFile f) ->
  POST w =
    if file_size f =? 0 then (EmptyFile, [EvFormData])
    else if maxBytes <? file_size f then (TooLarge, [EvFormData])
    else
      let req := outbound w fd (dataUrl f) in
      (fst (provider_outcome w req),
       [EvFormData; EvArrayBuffer; EvFetch req] ++ snd (provider_outcome w req)).
Proof.
  destruct Hacc as [Hk Hf]. intros H1. run_handler.
  rewrite Hk, Hf. cbn.
  fold (field_video fd) (field_videoUrl fd) (field_focusPrompt fd).
  rewrite H1. unfold resolve_videoUrl.
  destruct (file_size f =? 0); [reflexivity|].
  destruct (maxBytes <? file_size f); [reflexivity|].
  unfold fileToDataUrl; run_handler. cbn.
  fold (dataUrl f).
  assert (Ht : truthy (dataUrl f) = true) by reflexivity.
  rewrite Ht. cbn.
  fold (outbound w fd (dataUrl f)).
  unfold provider_outcome.
  destruct (fetch w (outbound w fd (dataUrl f))) as [e|res]; [reflexivity|].
  cbn. destruct (res_ok res); reflexivity.
Qed.

Lemma POST_no_file :
  (forall f, field_video fd <> Some (EntryFile f)) ->
  POST w =
    if entry_falsy (field_video fd) && negb (truthy (field_videoUrl fd))
    then (MissingInput, [EvFormData])
    else if truthy (field_videoUrl fd) then
      if URL_parses w (field_videoUrl fd) then
        let req := outbound w fd (field_videoUrl fd) in
        (fst (provider_outcome w req),
         [EvFormData; EvNewURL (field_videoUrl fd); EvFetch req]
         ++ snd (provider_outcome w req))
      else (InvalidUrl, [EvFormData; EvNewURL (field_videoUrl fd)])
    else (UnresolvedInput, [EvFormData]).
Proof.
  destruct Hacc as [Hk Hf]. intros H1. run_handler.
  rewrite Hk, Hf. cbn.
  fold (field_video fd) (field_videoUrl fd) (field_focusPrompt fd).
  destruct (entry_falsy (field_video fd) && negb (truthy (field_videoUrl fd)));
    [reflexivity|].
  assert (Hres : resolve_videoUrl w (field_video fd) (field_videoUrl fd) =
                 if truthy (field_videoUrl fd) then
                   emit (EvNewURL (field_videoUrl fd)) ;;;
                   if URL_parses w (field_videoUrl fd)
                   then ret (Some (field_videoUrl fd))
                   else return_ InvalidUrl
                 else ret None).
  { unfold resolve_videoUrl.
    destruct (field_video fd) as [[s|f]|]; try reflexivity.
    now destruct (H1 f). }
  rewrite Hres. clear Hres.
  destruct (truthy (field_videoUrl fd)) eqn:Hu; [|reflexivity].
  run_handler. cbn.
  destruct (URL_parses w (field_videoUrl fd)); [|reflexivity].
  rewrite Hu. cbn.
  fold (outbound w fd (field_videoUrl fd)).
  unfold provider_outcome.
  destruct (fetch w (outbound w fd (field_videoUrl fd))) as [e|res];
    [reflexivity|].
  cbn. destruct (res_ok res); reflexivity.
Qed.

End Handler.

(** Every run of the handler leaves by one of the exits. *)
Lemma POST_handled (w : World) : handled w (fst (POST w)) (snd (POST w)).
Proof.
  destruct (apiKey_missing (env_OPENROUTER_API_KEY w)) eqn:Hk.
  { rewrite (POST_missing_key w Hk). now constructor. }
  destruct (req_formData w) as [e|fd] eqn:Hf.
  { rewrite (POST_formData_throws w e Hk Hf). now constructor. }
  assert (Hacc : accepted w fd) by (split; assumption).
  destruct (field_video fd) as [[s|f]|] eqn:Hv.
  - rewrite (POST_no_file w fd Hacc) by (rewrite Hv; congruence).
    rewrite Hv. cbn [entry_falsy].
    destruct (truthy s) eqn:Hs; cbn [negb andb].
    + destruct (truthy (field_videoUrl fd)) eqn:Hu.
      * destruct (URL_parses w (field_videoUrl fd)) eqn:Hp.
        -- cbn [fst snd]. apply (exit_sent w fd [_] _ Hacc).
           apply resolved_url; [rewrite Hv; congruence|assumption..].
        -- apply (exit_invalid_url w fd); try assumption.
           rewrite Hv; congruence.
      * now apply (exit_unresolved w fd s).
    + destruct (truthy (field_videoUrl fd)) eqn:Hu; cbn [negb].
      * destruct (URL_parses w (field_videoUrl fd)) eqn:Hp.
        -- cbn [fst snd]. apply (exit_sent w fd [_] _ Hacc).
           apply resolved_url; [rewrite Hv; congruence|assumption..].
        -- apply (exit_invalid_url w fd); try assumption.
           rewrite Hv; congruence.
      * apply (exit_missing_input w fd); try assumption.
        rewrite Hv. cbn. now rewrite Hs.
  - rewrite (POST_file w fd Hacc f Hv).
    destruct (file_size f =? 0) eqn:H0.
    { apply N.eqb_eq in H0. now apply (exit_empty_file w fd f). }
    destruct (maxBytes <? file_size f) eqn:Hm.
    { apply N.ltb_lt in Hm. now apply (exit_too_large w fd f). }
    cbn [fst snd]. apply (exit_sent w fd [_] _ Hacc).
    apply resolved_file; [assumption| |].
    + now apply N.eqb_neq.
    + apply N.ltb_ge in Hm. exact Hm.
  - rewrite (POST_no_file w fd Hacc) by (rewrite Hv; congruence).
    rewrite Hv. cbn [entry_falsy andb].
    destruct (truthy (field_videoUrl fd)) eqn:Hu; cbn [negb].
    + destruct (URL_parses w (field_videoUrl fd)) eqn:Hp.
      * cbn [fst snd]. apply (exit_sent w fd [_] _ Hacc).
        apply resolved_url; [rewrite Hv; congruence|assumption..].
      * apply (exit_invalid_url w fd); try assumption.
        rewrite Hv; congruence.
    + apply (exit_missing_input w fd); try assumption.
      now rewrite Hv.
Qed.

Lemma provider_outcome_status (w : World) (req : OutboundRequest) :
  In (http_status (fst (provider_outcome w req))) [200; 500; 502].
Proof.
  unfold provider_outcome.
  destruct (fetch w req) as [e|res]; cbn; [tauto|].
  destruct (res_ok res); cbn; tauto.
Qed.

Lemma provider_outcome_no_fetch (w : World) (req : OutboundRequest) :
  existsb is_fetch (snd (provider_outcome w req)) = false.
Proof.
  unfold provider_outcome.
  destruct (fetch w req) as [e|res]; [reflexivity|].
  destruct (res_ok res); reflexivity.
Qed.

Lemma provider_outcome_no_URL_check (w : World) (req : OutboundRequest) :
  existsb is_URL_check (snd (provider_outcome w req)) = false.
Proof.
  unfold provider_outcome.
  destruct (fetch w req) as [e|res]; [reflexivity|].
  destruct (res_ok res); reflexivity.
Qed.

(** A 400 or a 413 is sent only when no outbound call was made. *)
Lemma handled_client_error_no_fetch (w : World) (r : Response)
    (tr : list Event) :
  handled w r tr ->
  http_status r = 400 \/ http_status r = 413 ->
  existsb is_fetch tr = false.
Proof.
  intros H Hs. destruct H; try reflexivity.
  exfalso. subst req.
  pose proof (provider_outcome_status w (outbound w fd videoUrl)) as Hin.
  cbn in Hin. destruct Hs as [Hs|Hs]; rewrite Hs in Hin;
    repeat (destruct Hin as [Hin|Hin]; [discriminate|]); exact Hin.
Qed.

(** C9: when the provider API key is absent (undefined, or empty) the
    handler answers ServerMisconfigured (HTTP 500) having made no call at
    all, so before the form data is even read; and whenever it answers with
    one of the validation failures MissingInput, EmptyFile, TooLarge or
    InvalidUrl, no outbound call to the provider has been made. *)
Theorem misconfigured_first_and_validation_before_fetch (w : World) :
  (apiKey_missing (env_OPENROUTER_API_KEY w) = true ->
   POST w = (ServerMisconfigured, []) /\ http_status ServerMisconfigured = 500)
  /\
  (In (fst (POST w)) [MissingInput; EmptyFile; TooLarge; InvalidUrl] ->
   existsb is_fetch (snd (POST w)) = false).
Proof.
  split.
  - intros Hk. split; [|reflexivity].
    now apply POST_missing_key.
  - intros Hin.
    apply (handled_client_error_no_fetch w _ _ (POST_handled w)).
    cbn in Hin.
    destruct Hin as [<-|[<-|[<-|[<-|[]]]]]; cbn; tauto.
Qed.

Lemma misconfigured_first_and_validation_before_fetch_witness :
  apiKey_missing None = true /\
  POST (Sample.world None (Sample.url_form Sample.video_url)
                     (Sample.answers Sample.ok_empty))
    = (ServerMisconfigured, [])
  /\ fst (POST (Sample.world Sample.key (Sample.url_form (lit "not a url"))
                             (Sample.answers Sample.ok_empty))) = InvalidUrl
  /\ existsb is_fetch
       (snd (POST (Sample.world Sample.key (Sample.url_form (lit "not a url"))
                                (Sample.answers Sample.ok_empty)))) = false.
Proof.
  split; [reflexivity|]. split; [|split; [reflexivity|]].
  - apply (proj1 (misconfigured_first_and_validation_before_fetch _)).
    reflexivity.
  - apply (proj2 (misconfigured_first_and_validation_before_fetch _)).
    right. right. right. left. reflexivity.
Defined.

(** *** The size checks *)

Lemma file_size_of_size (n : N) : file_size (Sample.file_of_size n) = n.
Proof.
  unfold file_size, Sample.file_of_size. cbn [file_bytes].
  rewrite repeat_length. apply N2Nat.id.
Qed.

Lemma upload_accepted (f : File) (net : OutboundRequest -> Exn + FetchResponse) :
  accepted (Sample.world Sample.key (Sample.upload_form f) net)
           (Sample.upload_form f)
  /\ field_video (Sample.upload_form f) = Some (EntryFile f).
Proof. repeat split. Qed.

(** An upload of exactly [maxBytes] bytes passes both size checks. *)
Lemma upload_at_ceiling (f : File) :
  file_size f = maxBytes ->
  fst (POST (Sample.world Sample.key (Sample.upload_form f)
                          (Sample.answers Sample.ok_empty)))
  = StreamResponse None.
Proof.
  intros Hsize.
  destruct (upload_accepted f (Sample.answers Sample.ok_empty)) as [Hacc Hv].
  rewrite (POST_file _ _ Hacc f Hv). rewrite Hsize.
  change (maxBytes =? 0) with false. rewrite N.ltb_irrefl.
  reflexivity.
Qed.

(** C4, as stated, fails at the ceiling itself: a file of exactly 100 MiB
    is at or above the ceiling, yet the handler does not answer TooLarge;
    it sends the request and relays the provider's answer. *)
Lemma exact_ceiling_is_accepted :
  maxBytes <= file_size (Sample.file_of_size maxBytes) /\
  fst (POST (Sample.world Sample.key
                          (Sample.upload_form (Sample.file_of_size maxBytes))
                          (Sample.answers Sample.ok_empty)))
  <> TooLarge.
Proof.
  split.
  - rewrite file_size_of_size. apply N.le_refl.
  - rewrite (upload_at_ceiling _ (file_size_of_size maxBytes)).
    discriminate.
Qed.

(** C4 (amended): an uploaded file whose byte length is strictly above the
    100 MiB ceiling is refused with TooLarge (HTTP 413), and an uploaded
    file of byte length zero is refused with EmptyFile (HTTP 400); in both
    cases nothing but the form data has been read. *)
Theorem oversized_and_empty_files_refused (w : World) (fd : FormData)
    (f : File) :
  accepted w fd ->
  field_video fd = Some (EntryFile f) ->
  (maxBytes < file_size f ->
   POST w = (TooLarge, [EvFormData]) /\ http_status TooLarge = 413)
  /\
  (file_size f = 0 ->
   POST w = (EmptyFile, [EvFormData]) /\ http_status EmptyFile = 400).
Proof.
  intros Hacc Hv. rewrite (POST_file w fd Hacc f Hv). split.
  - intros Hbig. split; [|reflexivity].
    assert (H0 : (file_size f =? 0) = false).
    { apply N.eqb_neq. intros E. rewrite E in Hbig.
      now apply N.nlt_0_r in Hbig. }
    rewrite H0. apply N.ltb_lt in Hbig. now rewrite Hbig.
  - intros Hz. split; [|reflexivity].
    apply N.eqb_eq in Hz. now rewrite Hz.
Qed.

Lemma oversized_and_empty_files_refused_witness :
  POST (Sample.world Sample.key
          (Sample.upload_form (Sample.file_of_size (maxBytes + 1)))
          (Sample.answers Sample.ok_empty))
    = (TooLarge, [EvFormData])
  /\ POST (Sample.world Sample.key (Sample.upload_form Sample.empty_file)
             (Sample.answers Sample.ok_empty))
    = (EmptyFile, [EvFormData]).
Proof.
  split.
  - apply (oversized_and_empty_files_refused
             _ _ (Sample.file_of_size (maxBytes + 1))
             (proj1 (upload_accepted _ (Sample.answers Sample.ok_empty)))
             (proj2 (upload_accepted _ (Sample.answers Sample.ok_empty)))).
    rewrite file_size_of_size. lia.
  - apply (oversized_and_empty_files_refused
             _ _ Sample.empty_file
             (proj1 (upload_accepted _ (Sample.answers Sample.ok_empty)))
             (proj2 (upload_accepted _ (Sample.answers Sample.ok_empty)))).
    reflexivity.
Defined.

(** *** File before URL *)

(** C5, as stated, fails for a file that does not pass the size checks: an
    empty upload sent together with a well-formed URL is answered with
    EmptyFile, and no request carrying the file, or anything else, is sent
    to the provider. *)
Lemma empty_file_with_url_is_refused :
  let fd := Sample.upload_and_url_form Sample.empty_file Sample.video_url in
  let w := Sample.world Sample.key fd (Sample.answers Sample.ok_empty) in
  accepted w fd /\
  field_video fd = Some (EntryFile Sample.empty_file) /\
  field_videoUrl fd = Sample.video_url /\
  POST w = (EmptyFile, [EvFormData]) /\
  ~ In (EvFetch (outbound w fd (dataUrl Sample.empty_file))) (snd (POST w)).
Proof.
  cbv zeta. repeat split.
  intros [H|[]]. discriminate H.
Qed.

(** C5 (amended): when a file and a URL string are both supplied, the URL
    string, well-formed or not, is never syntax-checked and never changes
    the outcome: any other request with the same file, focus, key, referer
    and provider is answered alike, whatever its URL field. And when the
    file is non-empty and not above the size ceiling, the video reference
    sent to the provider is the data URL built from the file. *)
Theorem file_takes_precedence_over_url (w : World) (fd : FormData)
    (f : File) :
  accepted w fd ->
  field_video fd = Some (EntryFile f) ->
  existsb is_URL_check (snd (POST w)) = false /\
  (forall w' fd',
     accepted w' fd' ->
     field_video fd' = Some (EntryFile f) ->
     field_focusPrompt fd' = field_focusPrompt fd ->
     env_OPENROUTER_API_KEY w' = env_OPENROUTER_API_KEY w ->
     req_referer w' = req_referer w ->
     fetch w' = fetch w ->
     POST w' = POST w) /\
  (file_size f <> 0 -> file_size f <= maxBytes ->
   let req := outbound w fd (dataUrl f) in
   POST w = (fst (provider_outcome w req),
             [EvFormData; EvArrayBuffer; EvFetch req]
             ++ snd (provider_outcome w req))
   /\ out_video_url req = dataUrl f).
Proof.
  intros Hacc Hv. rewrite (POST_file w fd Hacc f Hv). split; [|split].
  - destruct (file_size f =? 0); [reflexivity|].
    destruct (maxBytes <? file_size f); [reflexivity|].
    cbn. apply provider_outcome_no_URL_check.
  - intros w' fd' Hacc' Hv' Hfocus Hkey Href Hfetch.
    rewrite (POST_file w' fd' Hacc' f Hv').
    assert (Hreq : outbound w' fd' (dataUrl f) = outbound w fd (dataUrl f)).
    { unfold outbound. now rewrite Hfocus, Hkey, Href. }
    rewrite Hreq. unfold provider_outcome. rewrite Hfetch. reflexivity.
  - intros Hne Hle. cbv zeta. split; [|reflexivity].
    apply N.eqb_neq in Hne. rewrite Hne.
    apply N.ltb_ge in Hle. now rewrite Hle.
Qed.

Lemma file_takes_precedence_over_url_witness :
  let fd := Sample.upload_and_url_form Sample.small_file (lit "not a url") in
  let w := Sample.world Sample.key fd (Sample.answers Sample.ok_empty) in
  existsb is_URL_check (snd (POST w)) = false /\
  fst (POST w) = StreamResponse None /\
  In (EvFetch (outbound w fd (dataUrl Sample.small_file))) (snd (POST w)).
Proof.
  cbv zeta.
  pose (fd := Sample.upload_and_url_form Sample.small_file (lit "not a url")).
  pose (w := Sample.world Sample.key fd (Sample.answers Sample.ok_empty)).
  assert (Hacc : accepted w fd) by (split; reflexivity).
  assert (Hv : field_video fd = Some (EntryFile Sample.small_file))
    by reflexivity.
  destruct (file_takes_precedence_over_url w fd Sample.small_file Hacc Hv)
    as (Hno & _ & Hsent).
  assert (Hne : file_size Sample.small_file <> 0) by discriminate.
  assert (Hle : file_size Sample.small_file <= maxBytes) by discriminate.
  destruct (Hsent Hne Hle) as [Hpost _].
  fold fd w. split; [exact Hno|].
  rewrite Hpost. split; [reflexivity|].
  right. right. left. reflexivity.
Defined.

(** *** A [video] field that is not a file *)

(** C10, as stated, fails for a [video] field holding the empty string: it
    is present and is not a file, yet it does not suppress the MissingInput
    check; with no URL the answer is MissingInput, not the "Unable to
    resolve video input" response. *)
Lemma empty_text_video_field_is_missing_input :
  let fd := Sample.text_video_form [] in
  let w := Sample.world Sample.key fd (Sample.answers Sample.ok_empty) in
  accepted w fd /\
  field_video fd = Some (EntryString []) /\
  field_videoUrl fd = [] /\
  POST w = (MissingInput, [EvFormData]) /\
  fst (POST w) <> UnresolvedInput.
Proof.
  cbv zeta. repeat split. discriminate.
Qed.

(** C10 (amended): a [video] field that holds a non-empty string suppresses
    the MissingInput check and is not read as a file. With a URL also
    supplied the URL is used: it is syntax-checked and, when well-formed,
    sent to the provider. With no URL the request fails with the HTTP 400
    response "Unable to resolve video input", which is none of the errors
    of the taxonomy. *)
Theorem text_video_field_falls_through (w : World) (fd : FormData)
    (s : jsstring) :
  accepted w fd ->
  field_video fd = Some (EntryString s) ->
  s <> [] ->
  fst (POST w) <> MissingInput /\
  ~ In EvArrayBuffer (snd (POST w)) /\
  (field_videoUrl fd <> [] ->
   POST w =
     if URL_parses w (field_videoUrl fd) then
       let req := outbound w fd (field_videoUrl fd) in
       (fst (provider_outcome w req),
        [EvFormData; EvNewURL (field_videoUrl fd); EvFetch req]
        ++ snd (provider_outcome w req))
     else (InvalidUrl, [EvFormData; EvNewURL (field_videoUrl fd)])) /\
  (field_videoUrl fd = [] ->
   POST w = (UnresolvedInput, [EvFormData]) /\
   http_status UnresolvedInput = 400 /\
   ~ In UnresolvedInput
        [ServerMisconfigured; MissingInput; InvalidUrl; EmptyFile; TooLarge] /\
   (forall d, UnresolvedInput <> UpstreamError d) /\
   (forall e, UnresolvedInput <> UnexpectedInternalError e)).
Proof.
  intros Hacc Hv Hs.
  assert (Hnf : forall f, field_video fd <> Some (EntryFile f))
    by (intros f; rewrite Hv; discriminate).
  apply truthy_nonempty in Hs.
  rewrite (POST_no_file w fd Hacc Hnf). rewrite Hv. cbn [entry_falsy].
  rewrite Hs. cbn [negb andb].
  destruct (truthy (field_videoUrl fd)) eqn:Hu.
  - apply truthy_nonempty in Hu.
    split; [|split; [|split]].
    + destruct (URL_parses w (field_videoUrl fd)); cbn [fst].
      * intros E.
        pose proof (provider_outcome_status w
                      (outbound w fd (field_videoUrl fd))) as Hin.
        rewrite E in Hin. cbn in Hin.
        repeat (destruct Hin as [Hin|Hin]; [discriminate|]). exact Hin.
      * discriminate.
    + destruct (URL_parses w (field_videoUrl fd)); cbn [snd].
      * intros [H|[H|[H|H]]]; try discriminate.
        unfold provider_outcome in H.
        destruct (fetch w _) as [e|res]; [exact H|].
        destruct (res_ok res); cbn in H; [exact H|].
        destruct H as [H|H]; [discriminate|exact H].
      * intros [H|[H|H]]; try discriminate. exact H.
    + reflexivity.
    + intros E. now destruct (Hu E).
  - apply truthy_false in Hu.
    split; [|split; [|split]].
    + discriminate.
    + intros [H|H]; [discriminate|exact H].
    + intros E. now destruct (E Hu).
    + intros _. repeat split; try discriminate.
      intros [H|[H|[H|[H|[H|H]]]]]; try discriminate H. exact H.
Qed.

Lemma text_video_field_falls_through_witness :
  let fd := Sample.text_video_form (lit "clip.mp4") in
  let w := Sample.world Sample.key fd (Sample.answers Sample.ok_empty) in
  lit "clip.mp4" <> [] /\ POST w = (UnresolvedInput, [EvFormData]).
Proof.
  cbv zeta.
  pose (fd := Sample.text_video_form (lit "clip.mp4")).
  pose (w := Sample.world Sample.key fd (Sample.answers Sample.ok_empty)).
  assert (Hacc : accepted w fd) by (split; reflexivity).
  assert (Hv : field_video fd = Some (EntryString (lit "clip.mp4")))
    by reflexivity.
  assert (Hs : lit "clip.mp4" <> []) by discriminate.
  split; [exact Hs|].
  destruct (text_video_field_falls_through w fd _ Hacc Hv Hs)
    as (_ & _ & _ & Hnone).
  apply Hnone. reflexivity.
Defined.

(** With a URL next to it, the text [video] field leaves the URL in charge. *)
Lemma text_video_field_with_url :
  let fd := Sample.text_video_and_url_form (lit "clip.mp4") Sample.video_url in
  let w := Sample.world Sample.key fd (Sample.answers Sample.ok_empty) in
  POST w = (StreamResponse None,
            [EvFormData; EvNewURL Sample.video_url;
             EvFetch (outbound w fd Sample.video_url)]).
Proof. reflexivity. Qed.

(** *** A provider response that is not ok *)

(** The handler makes at most one outbound call, and answers with the
    provider's outcome for it. *)
Lemma handled_fetch_outcome (w : World) (r : Response) (tr : list Event)
    (req : OutboundRequest) :
  handled w r tr ->
  In (EvFetch req) tr ->
  r = fst (provider_outcome w req) /\
  exists pre, tr = pre ++ EvFetch req :: snd (provider_outcome w req).
Proof.
  intros H Hin.
  destruct H; cbn in Hin;
    try (repeat (destruct Hin as [Hin|Hin]; [discriminate|]); now destruct Hin).
  destruct Hin as [Hin|Hin]; [discriminate|].
  subst req0.
  assert (Hreq : req = outbound w fd videoUrl).
  { apply in_app_or in Hin. destruct Hin as [Hin|Hin].
    - destruct H0; cbn in Hin; destruct Hin as [Hin|[]]; discriminate.
    - destruct Hin as [Hin|Hin]; [congruence|].
      exfalso.
      pose proof (provider_outcome_no_fetch w (outbound w fd videoUrl)) as Hn.
      induction (snd (provider_outcome w (outbound w fd videoUrl)))
        as [|ev evs IH]; [exact Hin|].
      cbn in Hn. apply orb_false_elim in Hn. destruct Hn as [Hn1 Hn2].
      destruct Hin as [Hin|Hin]; [subst ev; discriminate|auto]. }
  subst req. split; [reflexivity|].
  exists (EvFormData :: pre). reflexivity.
Qed.

(** C3, as stated, fails when the provider's error body is not empty: the
    502 response then carries that text and nothing of the provider's
    status, so a 503 and a 500 with the same body are answered alike. *)
Lemma upstream_status_not_carried :
  let fd := Sample.url_form Sample.video_url in
  let w503 := Sample.world Sample.key fd
                (Sample.answers (Sample.overloaded 503)) in
  let w500 := Sample.world Sample.key fd
                (Sample.answers (Sample.overloaded 500)) in
  res_ok (Sample.overloaded 503) = false /\
  fst (POST w503) = UpstreamError (lit "overloaded") /\
  includes (of_number 503) (lit "overloaded") = false /\
  fst (POST w503) = fst (POST w500).
Proof.
  cbv zeta. repeat split.
Qed.

(** C3 (amended): whenever the outbound call returns a non-success status,
    the handler answers with the JSON response UpstreamError, HTTP 502,
    whose details are the provider's body text when that text is not empty
    and otherwise (empty or unreadable text) the text "Status " followed by
    the provider's status; this is an ordinary JSON response, not the event
    stream, and reading the body text is the last call the handler makes,
    so no stream was opened. *)
Theorem upstream_failure_is_clean_error (w : World) (req : OutboundRequest)
    (res : FetchResponse) :
  In (EvFetch req) (snd (POST w)) ->
  fetch w req = inr res ->
  res_ok res = false ->
  fst (POST w) = UpstreamError (upstream_details res) /\
  http_status (fst (POST w)) = 502 /\
  (forall body, fst (POST w) <> StreamResponse body) /\
  (exists pre, snd (POST w) = pre ++ [EvFetch req; EvText]) /\
  (forall t, res_text res = Some t -> t <> [] -> upstream_details res = t) /\
  (res_text res = None \/ res_text res = Some [] ->
   upstream_details res = lit "Status " ++ of_number (res_status res)).
Proof.
  intros Hin Hfetch Hok.
  destruct (handled_fetch_outcome w _ _ req (POST_handled w) Hin)
    as [Hr [pre Htr]].
  assert (Hout : provider_outcome w req =
                 (UpstreamError (upstream_details res), [EvText])).
  { unfold provider_outcome. now rewrite Hfetch, Hok. }
  rewrite Hout in Hr, Htr. cbn [fst snd] in Hr, Htr.
  rewrite Hr. repeat split.
  - discriminate.
  - exists pre. exact Htr.
  - intros t Ht Hne. unfold upstream_details. rewrite Ht.
    apply or_else_truthy. now apply truthy_nonempty.
  - intros [Ht|Ht]; unfold upstream_details; rewrite Ht; reflexivity.
Qed.

Lemma upstream_failure_is_clean_error_witness :
  let fd := Sample.url_form Sample.video_url in
  let w := Sample.world Sample.key fd (Sample.answers (Sample.silent 503)) in
  res_ok (Sample.silent 503) = false /\
  fst (POST w) = UpstreamError (lit "Status 503").
Proof.
  cbv zeta. split; [reflexivity|].
  pose (fd := Sample.url_form Sample.video_url).
  pose (w := Sample.world Sample.key fd (Sample.answers (Sample.silent 503))).
  assert (Hin : In (EvFetch (outbound w fd Sample.video_url)) (snd (POST w)))
    by (right; right; left; reflexivity).
  destruct (upstream_failure_is_clean_error w _ (Sample.silent 503) Hin
              eq_refl eq_refl) as [Hr _].
  exact Hr.
Defined.

(** ** Prompt assembly *)

Lemma startsWith_app (p s : jsstring) : startsWith p (p ++ s) = true.
Proof.
  induction p as [|x p IH]; [reflexivity|].
  cbn. now rewrite N.eqb_refl.
Qed.

Lemma includes_app_r (p a s : jsstring) :
  includes p s = true -> includes p (a ++ s) = true.
Proof.
  intros H. induction a as [|x a IH]; [exact H|].
  cbn. rewrite IH. apply orb_true_r.
Qed.

Lemma includes_startsWith (p s : jsstring) :
  startsWith p s = true -> includes p s = true.
Proof. intros H. destruct s; cbn [includes]; now rewrite H. Qed.

Lemma includes_middle (p a b : jsstring) : includes p (a ++ p ++ b) = true.
Proof.
  apply includes_app_r, includes_startsWith, startsWith_app.
Qed.

(** A pattern without the character [c] cannot reach across a [c]. *)
Lemma startsWith_before (c : N) (p a b : jsstring) :
  ~ In c p -> startsWith p (a ++ c :: b) = true -> startsWith p a = true.
Proof.
  revert a. induction p as [|x p IH]; intros a Hc H.
  - destruct a; reflexivity.
  - destruct a as [|y a]; cbn in H |- *.
    + apply andb_prop in H. destruct H as [H _].
      apply N.eqb_eq in H. subst x. destruct Hc. now left.
    + apply andb_prop in H. destruct H as [H1 H2].
      rewrite H1. cbn. apply IH; [|exact H2].
      intros Hin. apply Hc. now right.
Qed.

Lemma includes_split_at (c : N) (p a b : jsstring) :
  ~ In c p ->
  includes p (a ++ c :: b) = true ->
  includes p a = true \/ includes p b = true.
Proof.
  intros Hc. induction a as [|y a IH]; intros H.
  - cbn [app] in H. cbn [includes] in H.
    apply orb_prop in H. destruct H as [H|H]; [|now right].
    left. destruct p as [|x p]; [reflexivity|].
    cbn in H. apply andb_prop in H. destruct H as [H _].
    apply N.eqb_eq in H. subst x. destruct Hc. now left.
  - cbn [app includes] in H. apply orb_prop in H. destruct H as [H|H].
    + left. cbn [includes].
      change (y :: a ++ c :: b) with ((y :: a) ++ c :: b) in H.
      rewrite (startsWith_before c p (y :: a) b Hc H). reflexivity.
    + destruct (IH H) as [H'|H']; [left|now right].
      cbn [includes]. rewrite H'. apply orb_true_r.
Qed.

Lemma mergedPrompt_focus (focus : jsstring) :
  focus <> [] ->
  mergedPrompt focus =
    (baseInstruction ++ focusOpening) ++ dquote :: focus
    ++ dquote
       :: lit ". Prioritize this focus in your analysis while still covering core observations.".
Proof.
  intros H. apply truthy_nonempty in H.
  unfold mergedPrompt, focusClause. rewrite H.
  rewrite <- app_assoc. reflexivity.
Qed.

(** C7, as stated, fails for a focus that itself holds the words of the
    default suffix: the focus is copied into the prompt as it is, so the
    prompt then contains the default suffix, inside the quoted focus. *)
Lemma focus_can_carry_default_suffix :
  let raw :=
    lit "Summarize. If no additional focus is provided, infer the most valuable insights for a professional audience." in
  trim raw <> [] /\
  includes (dquote :: trim raw ++ [dquote]) (prompt_for raw) = true /\
  includes defaultClause (prompt_for raw) = true /\
  includes defaultPhrase (prompt_for raw) = true.
Proof.
  cbv zeta. split; [discriminate|]. repeat split; vm_compute; reflexivity.
Qed.

(** C7 (amended): the prompt is a function of the focus field alone. When
    the focus is not empty after trimming, the prompt is the base
    instruction followed by the focus clause: it contains the trimmed focus
    between double quotes, it does not end with the default suffix, and the
    words "infer the most valuable insights" occur in it only if they occur
    in the focus text itself. When the focus is empty after trimming, the
    prompt is the base instruction followed by the default suffix, and
    contains neither the opening of the focus clause nor any double
    quote. *)
Theorem prompt_follows_focus (raw : jsstring) :
  (forall w fd videoUrl,
     entry_text (formData_get (lit "focusPrompt") fd) = raw ->
     out_text (outbound w fd videoUrl) = prompt_for raw) /\
  (trim raw <> [] ->
   prompt_for raw = baseInstruction ++ focusClause (trim raw) /\
   includes (dquote :: trim raw ++ [dquote]) (prompt_for raw) = true /\
   endsWith defaultClause (prompt_for raw) = false /\
   (includes defaultPhrase (prompt_for raw) = true ->
    includes defaultPhrase (trim raw) = true)) /\
  (trim raw = [] ->
   prompt_for raw = baseInstruction ++ defaultClause /\
   endsWith defaultClause (prompt_for raw) = true /\
   includes defaultPhrase (prompt_for raw) = true /\
   includes focusOpening (prompt_for raw) = false /\
   includes [dquote] (prompt_for raw) = false).
Proof.
  split; [|split].
  - intros w fd videoUrl Hraw. unfold prompt_for. rewrite <- Hraw. reflexivity.
  - intros Hne. unfold prompt_for.
    pose proof (mergedPrompt_focus (trim raw) Hne) as Hshape.
    repeat split.
    + unfold mergedPrompt. apply truthy_nonempty in Hne. now rewrite Hne.
    + rewrite Hshape.
      match goal with
      | |- includes _ (_ ++ dquote :: trim raw ++ dquote :: ?t) = true =>
          replace (dquote :: trim raw ++ dquote :: t)
            with ((dquote :: trim raw ++ [dquote]) ++ t)
            by (cbn [app]; now rewrite <- app_assoc)
      end.
      apply includes_middle.
    + rewrite Hshape. unfold endsWith.
      rewrite rev_app_distr. cbn [rev]. rewrite rev_app_distr.
      reflexivity.
    + rewrite Hshape. intros H.
      assert (Hq : ~ In dquote defaultPhrase).
      { vm_compute. intuition discriminate. }
      apply (includes_split_at dquote) in H; [|exact Hq].
      destruct H as [H|H]; [vm_compute in H; discriminate|].
      apply (includes_split_at dquote) in H; [|exact Hq].
      destruct H as [H|H]; [exact H|vm_compute in H; discriminate].
  - intros He. unfold prompt_for. rewrite He. repeat split.
Qed.

Lemma prompt_follows_focus_witness :
  trim (lit "  analyze footwork ") <> [] /\
  includes (dquote :: lit "analyze footwork" ++ [dquote])
           (prompt_for (lit "  analyze footwork ")) = true /\
  trim (lit "   ") = [] /\
  includes defaultPhrase (prompt_for (lit "   ")) = true.
Proof.
  assert (H1 : trim (lit "  analyze footwork ") <> []) by discriminate.
  assert (H2 : trim (lit "   ") = []) by reflexivity.
  split; [exact H1|]. split.
  - exact (proj1 (proj2 (proj1 (proj2 (prompt_follows_focus _)) H1))).
  - split; [exact H2|].
    exact (proj1 (proj2 (proj2 (proj2 (proj2 (prompt_follows_focus _)) H2)))).
Defined.

(** ** Summary and details *)

Lemma split_lines_single (s : jsstring) :
  ~ In newline s -> split_lines s = [s].
Proof.
  induction s as [|u s IH]; intros H; [reflexivity|].
  cbn [split_lines].
  destruct (u =? 0xA) eqn:E.
  - apply N.eqb_eq in E. subst u. destruct H. now left.
  - rewrite IH; [reflexivity|]. intros Hin. apply H. now right.
Qed.

Lemma split_lines_first (first rest : jsstring) :
  ~ In newline first ->
  split_lines (first ++ newline :: rest) = first :: split_lines rest.
Proof.
  induction first as [|u s IH]; intros H; [reflexivity|].
  cbn [app split_lines].
  destruct (u =? 0xA) eqn:E.
  - apply N.eqb_eq in E. subst u. destruct H. now left.
  - rewrite IH; [reflexivity|]. intros Hin. apply H. now right.
Qed.

Lemma split_lines_nonempty (s : jsstring) : split_lines s <> [].
Proof.
  destruct s as [|u s]; cbn; [discriminate|].
  destruct (u =? 0xA); [discriminate|].
  destruct (split_lines s); discriminate.
Qed.

Lemma join_split_lines (s : jsstring) : join_lines (split_lines s) = s.
Proof.
  induction s as [|u s IH]; [reflexivity|].
  cbn [split_lines].
  destruct (u =? 0xA) eqn:E.
  - apply N.eqb_eq in E. subst u.
    pose proof (split_lines_nonempty s) as Hne.
    destruct (split_lines s) as [|l ls]; [now destruct Hne|].
    cbn [join_lines app]. cbn [join_lines] in IH. now rewrite IH.
  - pose proof (split_lines_nonempty s) as Hne.
    destruct (split_lines s) as [|l ls]; [now destruct Hne|].
    rewrite <- IH. destruct ls; reflexivity.
Qed.

(** C8, as stated, fails on single-line output. The page leaves the
    details at the placeholder "Generating detailed analysis...", not at the
    raw text; and the non-streaming route trims the summary, so that it is
    not the raw text when that has spaces around it. *)
Lemma single_line_details_not_raw :
  ~ In newline (lit "Looks fine") /\
  summary (page_analysis (lit "Looks fine")) = lit "Looks fine" /\
  details (page_analysis (lit "Looks fine"))
    = lit "Generating detailed analysis..." /\
  details (page_analysis (lit "Looks fine")) <> lit "Looks fine" /\
  ~ In newline (lit " Looks fine") /\
  summary (route_analysis (lit " Looks fine")) <> lit " Looks fine".
Proof.
  repeat split; try discriminate;
    vm_compute; intuition discriminate.
Qed.

(** C8 (amended): both derivations split the raw text at its first line
    feed. On the page, the summary is the first line as it stands, or "AI
    analysis in progress..." when that line is empty, and the details are the
    remaining lines joined, untrimmed, or "Generating detailed analysis..."
    when there is nothing after the first line feed or no line feed at all.
    In the non-streaming route, the summary is the trimmed first line, or
    the fallback sentence when that is empty, and the details are the
    remaining lines joined and trimmed, or the full raw text when that is
    empty, which covers single-line output. *)
Theorem summary_details_split (first rest : jsstring) :
  ~ In newline first ->
  (page_analysis first =
     mkAnalysis (or_else first (lit "AI analysis in progress..."))
                (lit "Generating detailed analysis...") /\
   route_analysis first =
     mkAnalysis (or_else (trim first)
                   (lit "AI analysis generated. See detailed breakdown below."))
                first)
  /\
  (page_analysis (first ++ newline :: rest) =
     mkAnalysis (or_else first (lit "AI analysis in progress..."))
                (or_else rest (lit "Generating detailed analysis...")) /\
   route_analysis (first ++ newline :: rest) =
     mkAnalysis (or_else (trim first)
                   (lit "AI analysis generated. See detailed breakdown below."))
                (or_else (trim rest) (first ++ newline :: rest))).
Proof.
  intros H. unfold page_analysis, route_analysis.
  rewrite (split_lines_single first H), (split_lines_first first rest H).
  cbn [hd tl]. rewrite join_split_lines.
  repeat split.
Qed.

Lemma summary_details_split_witness :
  ~ In newline (lit "Line one") /\
  page_analysis (lit "Line one" ++ newline :: lit "Line two")
    = mkAnalysis (lit "Line one") (lit "Line two") /\
  route_analysis (lit "Line one")
    = mkAnalysis (lit "Line one") (lit "Line one").
Proof.
  assert (H : ~ In newline (lit "Line one"))
    by (vm_compute; intuition discriminate).
  split; [exact H|]. split.
  - exact (proj1 (proj2 (summary_details_split _ (lit "Line two") H))).
  - exact (proj2 (proj1 (summary_details_split _ [] H))).
Defined.

(** ** Bits as arithmetic *)

Ltac lia_div := zify; Z.to_euclidean_division_equations; lia.

Lemma lor_disjoint (a b k : N) :
  b < 2 ^ k -> N.lor (a * 2 ^ k) b = a * 2 ^ k + b.
Proof.
  intros Hb.
  assert (Hland : N.land (a * 2 ^ k) b = 0).
  { apply N.bits_inj_0. intros i. rewrite N.land_spec.
    destruct (N.lt_ge_cases i k) as [Hi|Hi].
    - rewrite N.mul_pow2_bits_low by exact Hi. reflexivity.
    - rewrite <- (N.mod_small b (2 ^ k)) by exact Hb.
      rewrite N.mod_pow2_bits_high by exact Hi. apply andb_false_r. }
  rewrite <- N.lxor_lor by exact Hland.
  symmetry. apply N.add_nocarry_lxor. exact Hland.
Qed.

Lemma land_low (x k : N) : N.land x (N.ones k) = x mod 2 ^ k.
Proof. apply N.land_ones. Qed.

Lemma shiftl_lor (a b k : N) :
  b < 2 ^ k -> N.lor (N.shiftl a k) b = a * 2 ^ k + b.
Proof. intros H. rewrite N.shiftl_mul_pow2. now apply lor_disjoint. Qed.

Lemma byte_bound (b : byte) : Byte.to_N b < 256.
Proof. pose proof (Byte.to_N_bounded b). lia. Qed.

(** Booleans of comparisons into propositions, for [lia]. *)
Ltac bool_hyps :=
  repeat match goal with
  | H : (_ && _) = true |- _ => apply andb_prop in H; destruct H
  | H : (_ && _) = false |- _ => apply andb_false_iff in H; destruct H
  | H : (_ || _) = true |- _ => apply orb_prop in H; destruct H
  | H : (_ || _) = false |- _ => apply orb_false_elim in H; destruct H
  | H : negb _ = true |- _ => apply negb_true_iff in H
  | H : negb _ = false |- _ => apply negb_false_iff in H
  | H : (_ <=? _) = true |- _ => apply N.leb_le in H
  | H : (_ <=? _) = false |- _ => apply N.leb_gt in H
  | H : (_ <? _) = true |- _ => apply N.ltb_lt in H
  | H : (_ <? _) = false |- _ => apply N.ltb_ge in H
  | H : (_ =? _) = true |- _ => apply N.eqb_eq in H
  | H : (_ =? _) = false |- _ => apply N.eqb_neq in H
  end.

Ltac split_ifs :=
  repeat match goal with
  | |- context [if ?c then _ else _] => destruct c eqn:?
  end.

Module Base64Facts.
Import Base64.

Ltac split_sextet i :=
  unfold char_of_sextet;
  destruct (i <? 26) eqn:?;
    [|destruct (i <? 52) eqn:?;
      [|destruct (i <? 62) eqn:?; [|destruct (i =? 62) eqn:?]]].

Lemma sextet_of_char_of_sextet (i : N) :
  i < 64 -> sextet_of_char (char_of_sextet i) = Some i.
Proof.
  intros Hi. split_sextet i; unfold sextet_of_char;
    split_ifs; bool_hyps; try (f_equal; lia); try (exfalso; lia).
Qed.

Lemma char_of_sextet_not_pad (i : N) : (char_of_sextet i =? pad) = false.
Proof.
  apply N.eqb_neq. unfold pad. split_sextet i; bool_hyps; lia.
Qed.

Ltac masks :=
  change 3 with (N.ones 2); change 15 with (N.ones 4);
  change 63 with (N.ones 6); rewrite ?land_low, ?N.shiftr_div_pow2.

Ltac pows := cbn [N.pow Pos.pow Pos.iter Pos.mul].

(** The middle sextets, in arithmetic. *)
Lemma sextet1 (x y : N) :
  y < 256 ->
  N.lor (N.shiftl (N.land x 3) 4) (N.shiftr y 4) = x mod 4 * 16 + y / 16.
Proof.
  intros Hy. masks. rewrite shiftl_lor by (pows; lia_div). reflexivity.
Qed.

Lemma sextet2 (y z : N) :
  z < 256 ->
  N.lor (N.shiftl (N.land y 15) 2) (N.shiftr z 6) = y mod 16 * 4 + z / 64.
Proof.
  intros Hz. masks. rewrite shiftl_lor by (pows; lia_div). reflexivity.
Qed.

Lemma first_byte_back (x s1 : N) :
  x < 256 -> s1 / 16 = x mod 4 ->
  N.lor (N.shiftl (N.shiftr x 2) 2) (N.shiftr s1 4) = x.
Proof.
  intros Hx Hs. masks. rewrite shiftl_lor by (pows; lia_div).
  pows. lia_div.
Qed.

Lemma second_byte_back (y s1 s2 : N) :
  y < 256 -> s1 mod 16 = y / 16 -> s2 / 4 = y mod 16 ->
  N.lor (N.shiftl (N.land s1 15) 4) (N.shiftr s2 2) = y.
Proof.
  intros Hy H1 H2. masks. rewrite shiftl_lor by (pows; lia_div).
  pows. lia_div.
Qed.

Lemma third_byte_back (z s2 : N) :
  z < 256 -> s2 mod 4 = z / 64 ->
  N.lor (N.shiftl (N.land s2 3) 6) (N.land z 63) = z.
Proof.
  intros Hz H2. masks. rewrite shiftl_lor by (pows; lia_div).
  pows. lia_div.
Qed.

Lemma bytes_of_to_N (bs : list byte) : bytes_of (map Byte.to_N bs) = Some bs.
Proof.
  induction bs as [|b bs IH]; [reflexivity|].
  cbn [map bytes_of fold_right]. fold (bytes_of (map Byte.to_N bs)).
  now rewrite IH, Byte.of_to_N.
Qed.

Lemma encode_one (a : byte) :
  encode [a] =
    [char_of_sextet (N.shiftr (Byte.to_N a) 2);
     char_of_sextet (N.shiftl (N.land (Byte.to_N a) 3) 4); pad; pad].
Proof. reflexivity. Qed.

Lemma encode_two (a b : byte) :
  encode [a; b] =
    [char_of_sextet (N.shiftr (Byte.to_N a) 2);
     char_of_sextet (N.lor (N.shiftl (N.land (Byte.to_N a) 3) 4)
                           (N.shiftr (Byte.to_N b) 4));
     char_of_sextet (N.shiftl (N.land (Byte.to_N b) 15) 2); pad].
Proof. reflexivity. Qed.

Lemma encode_three (a b c : byte) (rest : list byte) :
  encode (a :: b :: c :: rest) =
    char_of_sextet (N.shiftr (Byte.to_N a) 2)
    :: char_of_sextet (N.lor (N.shiftl (N.land (Byte.to_N a) 3) 4)
                             (N.shiftr (Byte.to_N b) 4))
    :: char_of_sextet (N.lor (N.shiftl (N.land (Byte.to_N b) 15) 2)
                             (N.shiftr (Byte.to_N c) 6))
    :: char_of_sextet (N.land (Byte.to_N c) 63)
    :: encode rest.
Proof. reflexivity. Qed.

(** Decoding what [encode] produced gives the bytes back. *)
Lemma decode_encode_bounded (n : nat) (bs : list byte) :
  (List.length bs <= n)%nat -> decode (encode bs) = Some bs.
Proof.
  revert bs. induction n as [|n IH]; intros bs Hlen.
  { destruct bs; [reflexivity|cbn in Hlen; lia]. }
  destruct bs as [|a [|b [|c rest]]]; [reflexivity| | |].
  - pose proof (byte_bound a) as Ha.
    rewrite encode_one. cbn [decode].
    assert (Hs0 : N.shiftr (Byte.to_N a) 2 < 64) by (masks; pows; lia_div).
    assert (Hs1 : N.shiftl (N.land (Byte.to_N a) 3) 4 < 64)
      by (masks; rewrite N.shiftl_mul_pow2; pows; lia_div).
    rewrite !sextet_of_char_of_sextet by assumption.
    rewrite N.eqb_refl. cbn [andb].
    rewrite first_byte_back;
      [exact (bytes_of_to_N [a]) | exact Ha |].
    masks. rewrite N.shiftl_mul_pow2. pows. lia_div.
  - pose proof (byte_bound a) as Ha. pose proof (byte_bound b) as Hb.
    rewrite encode_two. cbn [decode].
    assert (Hs0 : N.shiftr (Byte.to_N a) 2 < 64) by (masks; pows; lia_div).
    rewrite sextet1 by exact Hb.
    assert (Hs2 : N.shiftl (N.land (Byte.to_N b) 15) 2 < 64)
      by (masks; rewrite N.shiftl_mul_pow2; pows; lia_div).
    rewrite !sextet_of_char_of_sextet by (assumption || lia_div).
    rewrite char_of_sextet_not_pad, N.eqb_refl. cbn [andb].
    rewrite first_byte_back by (assumption || lia_div).
    rewrite (second_byte_back (Byte.to_N b));
      [exact (bytes_of_to_N [a; b]) | exact Hb | lia_div |].
    masks. rewrite N.shiftl_mul_pow2. pows. lia_div.
  - pose proof (byte_bound a) as Ha. pose proof (byte_bound b) as Hb.
    pose proof (byte_bound c) as Hc.
    rewrite encode_three. cbn [decode].
    assert (Hs0 : N.shiftr (Byte.to_N a) 2 < 64) by (masks; pows; lia_div).
    assert (Hs3 : N.land (Byte.to_N c) 63 < 64) by (masks; pows; lia_div).
    rewrite sextet1 by exact Hb. rewrite sextet2 by exact Hc.
    rewrite !sextet_of_char_of_sextet by (assumption || lia_div).
    rewrite !char_of_sextet_not_pad. cbn [andb].
    rewrite IH by (cbn in Hlen; lia).
    rewrite first_byte_back by (assumption || lia_div).
    rewrite (second_byte_back (Byte.to_N b)) by (assumption || lia_div).
    rewrite third_byte_back by (assumption || lia_div).
    change (bytes_of [Byte.to_N a; Byte.to_N b; Byte.to_N c])
      with (bytes_of (map Byte.to_N [a; b; c])).
    rewrite bytes_of_to_N. reflexivity.
Qed.

Lemma decode_encode (bs : list byte) : decode (encode bs) = Some bs.
Proof. apply (decode_encode_bounded (List.length bs)). apply le_n. Qed.

End Base64Facts.

(** ** The data URL *)

Lemma strip_prefix_app (p s : jsstring) : strip_prefix p (p ++ s) = Some s.
Proof.
  induction p as [|x p IH]; [reflexivity|].
  cbn. now rewrite N.eqb_refl.
Qed.

(** C6: for every non-empty file not above the size ceiling (so for every
    one under it) the handler sends the provider the data URL built from
    the file, and that data URL round-trips: stripping the prefix
    "data:{mimeType};base64,", with the MIME type the file declares or
    "video/mp4" when it declares none, and base64-decoding the remainder
    yields exactly the bytes of the file. *)
Theorem data_url_round_trips (w : World) (fd : FormData) (f : File) :
  accepted w fd ->
  field_video fd = Some (EntryFile f) ->
  file_size f <> 0 ->
  file_size f <= maxBytes ->
  let req := outbound w fd (dataUrl f) in
  let mimeType := or_else (file_type f) (lit "video/mp4") in
  (exists rest,
     snd (POST w) = [EvFormData; EvArrayBuffer; EvFetch req] ++ rest) /\
  out_video_url req = dataUrl f /\
  exists encoded,
    strip_prefix (lit "data:" ++ mimeType ++ lit ";base64,") (dataUrl f)
      = Some encoded /\
    Base64.decode encoded = Some (file_bytes f).
Proof.
  intros Hacc Hv Hne Hle. cbv zeta. split; [|split].
  - rewrite (POST_file w fd Hacc f Hv).
    apply N.eqb_neq in Hne. rewrite Hne.
    apply N.ltb_ge in Hle. rewrite Hle.
    cbn [snd]. eexists. reflexivity.
  - reflexivity.
  - exists (Base64.encode (file_bytes f)). split.
    + unfold dataUrl. rewrite !app_assoc. apply strip_prefix_app.
    + apply Base64Facts.decode_encode.
Qed.

Lemma data_url_round_trips_witness :
  let fd := Sample.upload_form Sample.small_file in
  let w := Sample.world Sample.key fd (Sample.answers Sample.ok_empty) in
  file_size Sample.small_file <> 0 /\
  file_size Sample.small_file <= maxBytes /\
  exists encoded,
    strip_prefix (lit "data:video/webm;base64,") (dataUrl Sample.small_file)
      = Some encoded /\
    Base64.decode encoded = Some [x01; x02; x03; x04].
Proof.
  cbv zeta.
  assert (Hne : file_size Sample.small_file <> 0) by discriminate.
  assert (Hle : file_size Sample.small_file <= maxBytes) by discriminate.
  split; [exact Hne|]. split; [exact Hle|].
  exact (proj2 (proj2 (data_url_round_trips
                         _ _ Sample.small_file
                         (proj1 (upload_accepted _ (Sample.answers Sample.ok_empty)))
                         (proj2 (upload_accepted _ (Sample.answers Sample.ok_empty)))
                         Hne Hle))).
Defined.

(** ** UTF-8 *)

Module Utf8Facts.
Import Utf8.

Lemma run_app (d : decoder) (a b : list N) :
  run d (a ++ b) =
    let '(d1, o1) := run d a in
    let '(d2, o2) := run d1 b in
    (d2, o1 ++ o2).
Proof.
  revert d. induction a as [|x a IH]; intros d.
  - cbn. destruct (run d b). reflexivity.
  - cbn [app run]. destruct (handler d x) as [d1 o1].
    rewrite IH. destruct (run d1 a) as [d2 o2].
    destruct (run d2 b) as [d3 o3]. now rewrite app_assoc.
Qed.

(** The bit operations of the codec, as arithmetic. *)
Lemma continuation_byte (x : N) :
  N.lor 0x80 (N.land x 0x3F) = 128 + x mod 64.
Proof.
  change 0x3F with (N.ones 6). rewrite land_low.
  change 0x80 with (2 * 2 ^ 6). rewrite lor_disjoint; [reflexivity|].
  apply N.mod_lt. discriminate.
Qed.

Lemma accumulate (c b : N) :
  N.lor (N.shiftl c 6) (N.land b 0x3F) = c * 64 + b mod 64.
Proof.
  change 0x3F with (N.ones 6). rewrite land_low.
  rewrite shiftl_lor; [reflexivity|]. apply N.mod_lt. discriminate.
Qed.

Lemma land_1F (b : N) : N.land b 0x1F = b mod 32.
Proof. change 0x1F with (N.ones 5). apply land_low. Qed.

Lemma land_F (b : N) : N.land b 0xF = b mod 16.
Proof. change 0xF with (N.ones 4). apply land_low. Qed.

Lemma land_7 (b : N) : N.land b 0x7 = b mod 8.
Proof. change 0x7 with (N.ones 3). apply land_low. Qed.

Lemma land_3FF (b : N) : N.land b 0x3FF = b mod 1024.
Proof. change 0x3FF with (N.ones 10). apply land_low. Qed.

Ltac arith_form :=
  rewrite ?continuation_byte, ?accumulate, ?land_1F, ?land_F, ?land_7,
    ?land_3FF, ?N.shiftr_div_pow2, ?N.shiftl_mul_pow2;
  cbn [N.pow Pos.pow Pos.iter Pos.mul].

(** Settle a comparison that the hypotheses decide. *)
Ltac settle_test :=
  match goal with
  | |- context [?a <=? ?b] =>
      first [ rewrite (proj2 (N.leb_le a b)) by lia_div
            | rewrite (proj2 (N.leb_gt a b)) by lia_div ]
  | |- context [?a <? ?b] =>
      first [ rewrite (proj2 (N.ltb_lt a b)) by lia_div
            | rewrite (proj2 (N.ltb_ge a b)) by lia_div ]
  | |- context [?a =? ?b] =>
      first [ rewrite (proj2 (N.eqb_eq a b)) by lia_div
            | rewrite (proj2 (N.eqb_neq a b)) by lia_div ]
  end.

Ltac split_test :=
  match goal with
  | |- context [?a =? ?b] => destruct (a =? b) eqn:?; bool_hyps
  end.

Ltac step_codec :=
  cbn [run]; unfold handler, lead;
  cbn [fresh code_point bytes_seen bytes_needed
       lower_boundary upper_boundary andb negb app];
  arith_form.

Lemma is_scalar_spec (cp : N) :
  is_scalar cp = true <-> cp <= 0x10FFFF /\ (cp < 0xD800 \/ 0xDFFF < cp).
Proof.
  unfold is_scalar. split.
  - intros H. bool_hyps; lia.
  - intros [H1 H2]. apply andb_true_intro. split.
    + now apply N.leb_le.
    + apply negb_true_iff, andb_false_iff.
      destruct H2; [left; apply N.leb_gt|right; apply N.leb_gt]; lia.
Qed.

(** Decoding the encoding of a scalar value, from a fresh decoder, gives
    the scalar value and leaves the decoder fresh. *)
Lemma run_encode_scalar (cp : N) :
  is_scalar cp = true -> run fresh (encode_scalar cp) = (fresh, [cp]).
Proof.
  intros H. apply is_scalar_spec in H. destruct H as [Hmax Hsur].
  unfold encode_scalar.
  destruct (cp <=? 0x7F) eqn:H1; bool_hyps.
  { step_codec. repeat settle_test. reflexivity. }
  destruct (cp <=? 0x7FF) eqn:H2; bool_hyps.
  { step_codec. repeat (settle_test; step_codec).
    f_equal. f_equal. lia_div. }
  destruct (cp <=? 0xFFFF) eqn:H3; bool_hyps.
  { step_codec. repeat (first [settle_test | split_test]; step_codec).
    all: f_equal; f_equal; lia_div. }
  step_codec. repeat (first [settle_test | split_test]; step_codec).
  all: f_equal; f_equal; lia_div.
Qed.

Lemma to_N_byte_of_N (n : N) : n < 256 -> Byte.to_N (byte_of_N n) = n.
Proof.
  intros H. unfold byte_of_N. destruct (Byte.of_N n) as [b|] eqn:E.
  - now apply Byte.to_of_N.
  - apply Byte.of_N_None_iff in E. lia.
Qed.

Lemma encode_scalar_range (cp : N) :
  is_scalar cp = true -> Forall (fun n => n < 256) (encode_scalar cp).
Proof.
  intros H. apply is_scalar_spec in H. destruct H as [Hmax _].
  unfold encode_scalar.
  destruct (cp <=? 0x7F) eqn:H1; [|destruct (cp <=? 0x7FF) eqn:H2;
    [|destruct (cp <=? 0xFFFF) eqn:H3]]; bool_hyps; arith_form;
    repeat constructor; lia_div.
Qed.

Lemma bytes_of_encode_scalars (cps : list N) :
  Forall (fun cp => is_scalar cp = true) cps ->
  map Byte.to_N (encode_scalars cps) = flat_map encode_scalar cps.
Proof.
  intros H. unfold encode_scalars. rewrite map_map.
  induction H as [|cp cps Hcp _ IH]; [reflexivity|].
  cbn [flat_map]. rewrite !map_app, IH. f_equal.
  pose proof (encode_scalar_range cp Hcp) as Hr.
  induction Hr as [|n ns Hn _ IHr]; [reflexivity|].
  cbn [map]. now rewrite to_N_byte_of_N, IHr.
Qed.

Lemma run_scalars (cps : list N) :
  Forall (fun cp => is_scalar cp = true) cps ->
  run fresh (flat_map encode_scalar cps) = (fresh, cps).
Proof.
  induction 1 as [|cp cps Hcp _ IH]; [reflexivity|].
  cbn [flat_map]. rewrite run_app, (run_encode_scalar cp Hcp), IH.
  reflexivity.
Qed.

Lemma encode_scalars_app (a b : list N) :
  encode_scalars (a ++ b) = encode_scalars a ++ encode_scalars b.
Proof. unfold encode_scalars. now rewrite flat_map_app, map_app. Qed.

(** A scalar value read back from its UTF-16 code units. *)
Lemma scalar_values_units (cp : N) (rest : jsstring) :
  is_scalar cp = true ->
  scalar_values (units_of_scalar cp ++ rest) = cp :: scalar_values rest.
Proof.
  intros H. apply is_scalar_spec in H. destruct H as [Hmax Hsur].
  unfold units_of_scalar.
  destruct (cp <? 0x10000) eqn:H1; bool_hyps.
  - cbn [app scalar_values]. unfold is_lead_surrogate, is_trail_surrogate.
    destruct Hsur.
    + repeat settle_test. reflexivity.
    + repeat settle_test. reflexivity.
  - arith_form. cbn [app scalar_values].
    unfold is_lead_surrogate, is_trail_surrogate.
    repeat settle_test. cbn [andb]. arith_form.
    f_equal. lia_div.
Qed.

Lemma scalar_values_of_scalars (cps : list N) :
  Forall (fun cp => is_scalar cp = true) cps ->
  scalar_values (flat_map units_of_scalar cps) = cps.
Proof.
  induction 1 as [|cp cps Hcp _ IH]; [reflexivity|].
  cbn [flat_map]. now rewrite scalar_values_units, IH.
Qed.

Lemma serialize_app (seen : bool) (a b : list N) :
  serialize seen (a ++ b) =
    let '(s1, a') := serialize seen a in
    let '(s2, b') := serialize s1 b in
    (s2, a' ++ b').
Proof.
  destruct seen; cbn.
  - reflexivity.
  - destruct a as [|c a]; cbn.
    + destruct b; reflexivity.
    + destruct (c =? 0xFEFF); reflexivity.
Qed.

Lemma serialize_sublist (seen : bool) (cps : list N) (P : N -> Prop) :
  Forall P cps -> Forall P (snd (serialize seen cps)).
Proof.
  intros H. destruct seen; [exact H|].
  destruct H as [|c cps Hc H]; cbn; [constructor|].
  destruct (c =? 0xFEFF); cbn; [exact H|now constructor].
Qed.

Lemma serialize_plain (cps : list N) :
  hd_error cps <> Some BOM -> snd (serialize false cps) = cps.
Proof.
  destruct cps as [|c cps]; cbn; [reflexivity|]. intros H.
  destruct (c =? 0xFEFF) eqn:E; [|reflexivity].
  apply N.eqb_eq in E. subst c. now destruct H.
Qed.

(** One pass of a chunk through the decoder and the encoder, when what the
    decoder emits for it are scalar values. *)
Lemma decode_then_encode (td : TextDecoder) (value : list byte) :
  Forall (fun cp => is_scalar cp = true)
         (snd (run (td_decoder td) (map Byte.to_N value))) ->
  fst (TextDecoder_decode td value) =
    mkTextDecoder
      (fst (run (td_decoder td) (map Byte.to_N value)))
      (fst (serialize (td_BOM_seen td)
              (snd (run (td_decoder td) (map Byte.to_N value))))) /\
  TextEncoder_encode (snd (TextDecoder_decode td value)) =
    encode_scalars
      (snd (serialize (td_BOM_seen td)
              (snd (run (td_decoder td) (map Byte.to_N value))))).
Proof.
  intros H. unfold TextDecoder_decode, TextEncoder_encode.
  destruct (run (td_decoder td) (map Byte.to_N value)) as [d cps].
  cbn [fst snd] in *.
  pose proof (serialize_sublist (td_BOM_seen td) cps _ H) as Hs.
  destruct (serialize (td_BOM_seen td) cps) as [seen out].
  cbn [fst snd] in *. split; [reflexivity|].
  now rewrite scalar_values_of_scalars.
Qed.

(** However the bytes are cut into chunks, what is forwarded for them adds
    up to the encoding of what the decoder makes of the whole. *)
Lemma forwarded_concat (chunks : list (list byte)) (td : TextDecoder) :
  Forall (fun cp => is_scalar cp = true)
         (snd (run (td_decoder td) (map Byte.to_N (List.concat chunks)))) ->
  List.concat (forwarded td chunks) =
    encode_scalars
      (snd (serialize (td_BOM_seen td)
              (snd (run (td_decoder td) (map Byte.to_N (List.concat chunks)))))).
Proof.
  revert td. induction chunks as [|value chunks IH]; intros td H.
  - cbn. destruct (td_BOM_seen td); reflexivity.
  - cbn [List.concat forwarded] in *. rewrite map_app, run_app in H |- *.
    pose proof (decode_then_encode td value) as Hone.
    destruct (run (td_decoder td) (map Byte.to_N value)) as [d1 o1] eqn:E1.
    specialize (IH (mkTextDecoder d1 (fst (serialize (td_BOM_seen td) o1)))).
    cbn [td_decoder td_BOM_seen fst snd] in *.
    destruct (run d1 (map Byte.to_N (List.concat chunks))) as [d2 o2] eqn:E2.
    cbn [fst snd] in *.
    apply Forall_app in H. destruct H as [H1 H2].
    destruct (Hone H1) as [Htd Henc].
    destruct (TextDecoder_decode td value) as [td' chunk].
    cbn [fst snd] in *. subst td'. cbn [List.concat].
    rewrite Henc, (IH H2), serialize_app.
    destruct (serialize (td_BOM_seen td) o1) as [s1 o1'].
    cbn [fst snd].
    destruct (serialize s1 o2) as [s2 o2']. cbn [snd].
    now rewrite encode_scalars_app.
Qed.

(** Well-formed UTF-8 comes out as it went in, whatever the chunking. *)
Lemma forwarded_plain_text (chunks : list (list byte)) (text : list N) :
  plain_text text ->
  List.concat chunks = encode_scalars text ->
  List.concat (forwarded new_TextDecoder chunks) = List.concat chunks.
Proof.
  intros [Hscalar Hbom] Hbytes.
  assert (Hrun : run fresh (map Byte.to_N (List.concat chunks)) = (fresh, text)).
  { rewrite Hbytes, bytes_of_encode_scalars by exact Hscalar.
    now apply run_scalars. }
  rewrite forwarded_concat; cbn [new_TextDecoder td_decoder td_BOM_seen];
    rewrite Hrun; cbn [snd]; [|exact Hscalar].
  now rewrite serialize_plain.
Qed.

(** Chunks that are each the encoding of scalar values are forwarded
    unchanged, one for one. *)
Lemma forwarded_whole_chunks (texts : list (list N)) (seen : bool) :
  Forall (Forall (fun cp => is_scalar cp = true)) texts ->
  seen = true \/ hd_error (List.concat texts) <> Some BOM ->
  forwarded (mkTextDecoder fresh seen) (map encode_scalars texts)
  = map encode_scalars texts.
Proof.
  intros H. revert seen. induction H as [|text texts Ht _ IH]; intros seen Hb.
  - reflexivity.
  - cbn [map forwarded].
    pose proof (decode_then_encode (mkTextDecoder fresh seen)
                                   (encode_scalars text)) as Hone.
    cbn [td_decoder td_BOM_seen] in Hone.
    rewrite (bytes_of_encode_scalars text Ht), (run_scalars text Ht) in Hone.
    cbn [fst snd] in Hone. destruct (Hone Ht) as [Htd Henc].
    destruct (TextDecoder_decode (mkTextDecoder fresh seen)
                                 (encode_scalars text)) as [td' chunk].
    cbn [fst snd] in *. subst td'. rewrite Henc.
    destruct seen.
    + cbn [serialize fst snd]. rewrite IH by now left. reflexivity.
    + destruct text as [|c text].
      * cbn [serialize fst snd]. rewrite IH; [reflexivity|].
        destruct Hb as [Hb|Hb]; [discriminate|right; exact Hb].
      * destruct Hb as [Hb|Hb]; [discriminate|].
        cbn [List.concat app hd_error] in Hb.
        assert (Hc : (c =? 0xFEFF) = false).
        { apply N.eqb_neq. intros E. apply Hb. now rewrite E. }
        cbn [serialize]. rewrite Hc. cbn [fst snd].
        rewrite IH by now left. reflexivity.
Qed.

End Utf8Facts.

(** ** The relayed stream *)

Lemma observed_chunks (seen : list (list byte)) (rs : list ReadResult) :
  observed (map Chunk seen ++ rs) = map Chunk seen ++ observed rs.
Proof.
  induction seen as [|c seen IH]; [reflexivity|].
  cbn. now rewrite IH.
Qed.

Lemma observed_ends (r : ReadResult) (n : nat) :
  r = Done \/ (exists e, r = Failed e) ->
  observed (repeat r n ++ [r]) = [r].
Proof.
  intros [->|[e ->]]; destruct n; reflexivity.
Qed.

Lemma read_flowing (s : stream) (hist : list (list byte)) :
  flowing s hist -> flowing (read s) hist.
Proof.
  intros (Hst & Hcl & Hreq & seen & Hseen & Hhist).
  destruct s as [st q cr n settled]. cbn in *. subst st cr.
  unfold read. cbn. destruct q as [|c q].
  - repeat split; cbn; auto. exists seen. now split.
  - assert (Hn : n = O).
    { destruct n; [reflexivity|]. discriminate Hreq. discriminate. }
    subst n. repeat split; cbn.
    + destruct q; reflexivity.
    + intros H. now destruct H.
    + exists (seen ++ [c]). split.
      * now rewrite map_app, Hseen.
      * now rewrite <- app_assoc.
Qed.

Lemma reads_flowing (k : nat) (s : stream) (hist : list (list byte)) :
  flowing s hist -> flowing (reads k s) hist.
Proof.
  revert s. induction k as [|k IH]; intros s H; [exact H|].
  cbn. apply IH. now apply read_flowing.
Qed.

Lemma enqueue_flowing (c : list byte) (s : stream) (hist : list (list byte)) :
  flowing s hist ->
  exists s', enqueue c s = inr s' /\ flowing s' (hist ++ [c]).
Proof.
  intros (Hst & Hcl & Hreq & seen & Hseen & Hhist).
  destruct s as [st q cr n settled]. cbn in *. subst st cr.
  unfold enqueue, canCloseOrEnqueue. cbn. destruct n as [|n].
  - eexists. split; [reflexivity|]. repeat split; cbn.
    + intros H. now destruct H.
    + exists seen. split; [exact Hseen|]. now rewrite Hhist, app_assoc.
  - rewrite Hreq in * by discriminate.
    eexists. split; [reflexivity|]. repeat split; cbn.
    exists (seen ++ [c]). split.
    + now rewrite map_app, Hseen.
    + now rewrite Hhist, !app_nil_r.
Qed.

(** The loop enqueues one chunk for each chunk read and leaves only the way
    the upstream ends. *)
Lemma start_loop_flowing (chunks : list (list byte)) (fin : UpstreamEnd) :
  forall decoder sched s hist,
  flowing s hist ->
  exists s',
    start_loop decoder chunks fin sched s = (thrown_by fin, s') /\
    flowing s' (hist ++ forwarded decoder chunks).
Proof.
  induction chunks as [|value chunks IH]; intros decoder sched s hist H.
  - cbn. exists (reads (hd O sched) s). split.
    + destruct fin; reflexivity.
    + rewrite app_nil_r. now apply reads_flowing.
  - cbn [start_loop forwarded].
    destruct (Utf8.TextDecoder_decode decoder value) as [decoder' chunk].
    pose proof (reads_flowing (hd O sched) s hist H) as Hr.
    destruct (enqueue_flowing (Utf8.TextEncoder_encode chunk) _ _ Hr)
      as (s1 & Henq & H1).
    rewrite Henq.
    destruct (IH decoder' (tl sched) s1 _ H1) as (s' & Hloop & H').
    exists s'. split; [exact Hloop|].
    now rewrite <- app_assoc in H'.
Qed.

(** Reading on after a close has been requested: the queue drains, then
    the stream ends. *)
Lemma reads_drain (q : list (list byte)) (n : nat) (settled : list ReadResult) :
  q <> [] ->
  reads (List.length q) (mkStream Readable q true n settled)
  = mkStream Closed [] true n (settled ++ map Chunk q).
Proof.
  revert settled. induction q as [|c q IH]; intros settled Hq.
  - now destruct Hq.
  - cbn [List.length reads]. unfold read at 1. cbn.
    destruct q as [|c' q].
    + reflexivity.
    + rewrite IH by discriminate. now rewrite <- app_assoc.
Qed.

Lemma forwarded_length (chunks : list (list byte)) (decoder : Utf8.TextDecoder) :
  List.length (forwarded decoder chunks) = List.length chunks.
Proof.
  revert decoder. induction chunks as [|v chunks IH]; intros decoder.
  - reflexivity.
  - cbn [forwarded]. destruct (Utf8.TextDecoder_decode decoder v).
    cbn. now rewrite IH.
Qed.

(** A normal end: every forwarded chunk is observed, in order, then the
    end, whatever the consumer's pace. *)
Lemma relay_done (chunks : list (list byte)) (sched : schedule) :
  relay (Some (mkBody chunks UpDone)) sched
  = map Chunk (forwarded Utf8.new_TextDecoder chunks) ++ [Done].
Proof.
  unfold relay, start. cbn [up_chunks up_end].
  assert (H0 : flowing new_stream []).
  { repeat split; cbn; auto. now exists []. }
  destruct (start_loop_flowing chunks UpDone Utf8.new_TextDecoder sched
              new_stream [] H0) as (s & Hloop & Hs).
  rewrite Hloop. cbn [thrown_by app] in *.
  destruct Hs as (Hst & Hcl & Hreq & seen & Hseen & Hhist).
  destruct s as [st q cr n settled]. cbn in *. subst st cr settled.
  unfold close, canCloseOrEnqueue. cbn.
  destruct q as [|c q].
  - cbn. rewrite app_nil_r in Hhist. subst seen.
    rewrite <- app_assoc, observed_chunks.
    rewrite (observed_ends Done n) by now left. reflexivity.
  - assert (Hn : n = O).
    { destruct n; [reflexivity|]. discriminate Hreq. discriminate. }
    subst n. cbn [st_queue reads].
    change (reads (List.length (c :: q))
              (read (mkStream Readable (c :: q) true 0 (map Chunk seen))))
      with (reads (S (List.length (c :: q)))
              (mkStream Readable (c :: q) true 0 (map Chunk seen))).
    replace (S (List.length (c :: q))) with (List.length (c :: q) + 1)%nat
      by lia.
    assert (Hsplit : forall a b s0, reads (a + b) s0 = reads b (reads a s0)).
    { induction a as [|a IHa]; intros b s0; [reflexivity|].
      cbn. apply IHa. }
    rewrite Hsplit, reads_drain by discriminate.
    unfold reads, read.
    cbn [st_state st_settled st_queue st_closeRequested st_requests].
    rewrite <- map_app, <- Hhist.
    rewrite observed_chunks. reflexivity.
Qed.

Lemma read_waits (s : stream) (hist : list (list byte)) :
  flowing s hist -> st_queue s = [] ->
  st_queue (read s) = [] /\ st_requests (read s) = S (st_requests s).
Proof.
  intros (Hst & _) Hq. destruct s as [st q cr n settled]. cbn in *.
  subst st q. split; reflexivity.
Qed.

Lemma reads_wait (k : nat) (s : stream) (hist : list (list byte)) :
  flowing s hist -> st_queue s = [] ->
  st_queue (reads k s) = [] /\
  st_requests (reads k s) = (k + st_requests s)%nat.
Proof.
  revert s. induction k as [|k IH]; intros s H Hq; [now split|].
  destruct (read_waits s hist H Hq) as [Hq' Hn'].
  cbn [reads].
  destruct (IH (read s) (read_flowing s hist H) Hq') as [Hq2 Hn2].
  split; [exact Hq2|]. rewrite Hn2, Hn'. lia.
Qed.

Lemma keeps_up_tl (n : nat) (sched : schedule) :
  keeps_up (S n) sched ->
  (1 <= hd O sched)%nat /\ keeps_up n (tl sched).
Proof.
  intros H. split.
  - specialize (H O (Nat.lt_0_succ n)). now destruct sched.
  - intros i Hi. specialize (H (S i) (proj1 (Nat.succ_lt_mono i n) Hi)).
    destruct sched as [|k sched]; [|exact H].
    cbn in H. lia.
Qed.

(** With a consumer that keeps up, nothing is left in the queue. *)
Lemma start_loop_keeps_up (chunks : list (list byte)) (fin : UpstreamEnd) :
  forall decoder sched s hist,
  flowing s hist -> st_queue s = [] ->
  keeps_up (List.length chunks) sched ->
  st_queue (snd (start_loop decoder chunks fin sched s)) = [].
Proof.
  induction chunks as [|value chunks IH]; intros decoder sched s hist H Hq Hk.
  - cbn [start_loop].
    destruct (reads_wait (hd O sched) s hist H Hq) as [Hq' _].
    destruct fin; exact Hq'.
  - cbn [start_loop].
    destruct (Utf8.TextDecoder_decode decoder value) as [decoder' chunk].
    destruct (keeps_up_tl _ _ Hk) as [Hhd Htl].
    pose proof (reads_flowing (hd O sched) s hist H) as Hr.
    destruct (reads_wait (hd O sched) s hist H Hq) as [Hq1 Hn1].
    destruct (enqueue_flowing (Utf8.TextEncoder_encode chunk) _ _ Hr)
      as (s1 & Henq & H1).
    rewrite Henq.
    apply (IH decoder' (tl sched) s1 _ H1); [|exact Htl].
    revert Henq. unfold enqueue.
    destruct (canCloseOrEnqueue (reads (hd O sched) s)); [|discriminate].
    destruct (st_requests (reads (hd O sched) s)) as [|n] eqn:En; [lia|].
    intros Henq. injection Henq as <-. exact Hq1.
Qed.

(** An upstream failure: the consumer observes the forwarded chunks it had
    read, in order, then the failure; with a consumer that keeps up these
    are all of them. *)
Lemma relay_failed (chunks : list (list byte)) (e : Exn) (sched : schedule) :
  exists seen queued,
    forwarded Utf8.new_TextDecoder chunks = seen ++ queued /\
    relay (Some (mkBody chunks (UpFail e))) sched
    = map Chunk seen ++ [Failed e] /\
    (keeps_up (List.length chunks) sched -> queued = []).
Proof.
  assert (H0 : flowing new_stream []).
  { repeat split; cbn; auto. now exists []. }
  pose proof (start_loop_keeps_up chunks (UpFail e) Utf8.new_TextDecoder
                sched new_stream [] H0 eq_refl) as Hkeep.
  unfold relay, start. cbn [up_chunks up_end].
  destruct (start_loop_flowing chunks (UpFail e) Utf8.new_TextDecoder sched
              new_stream [] H0) as (s & Hloop & Hs).
  rewrite Hloop in Hkeep |- *. cbn [thrown_by app snd] in *.
  destruct Hs as (Hst & Hcl & Hreq & seen & Hseen & Hhist).
  destruct s as [st q cr n settled]. cbn in *. subst st cr settled.
  exists seen, q. split; [exact Hhist|]. split; [|exact Hkeep].
  unfold error, close, canCloseOrEnqueue. cbn.
  rewrite <- app_assoc, observed_chunks.
  rewrite (observed_ends (Failed e) n) by (right; now exists e).
  reflexivity.
Qed.

Lemma delivered_chunks (cs : list (list byte)) (r : ReadResult) :
  r = Done \/ (exists e, r = Failed e) ->
  delivered (map Chunk cs ++ [r]) = List.concat cs.
Proof.
  intros Hr. unfold delivered. rewrite flat_map_app, flat_map_concat_map.
  rewrite map_map, map_id.
  destruct Hr as [->|[e ->]]; cbn; apply app_nil_r.
Qed.

(** The event stream is answered only to a call that passed the status
    check, and it wraps the body of that very response. *)
Lemma stream_after_ok_status (w : World) (body : option UpstreamBody) :
  fst (POST w) = StreamResponse body ->
  exists req res,
    In (EvFetch req) (snd (POST w)) /\
    fetch w req = inr res /\ res_ok res = true /\ res_body res = body.
Proof.
  intros Hr. pose proof (POST_handled w) as H.
  rewrite Hr in H.
  remember (StreamResponse body) as r eqn:Er.
  remember (snd (POST w)) as tr eqn:Etr.
  destruct H; try discriminate Er.
  subst req. exists (outbound w fd videoUrl).
  unfold provider_outcome in *.
  destruct (fetch w (outbound w fd videoUrl)) as [e|res]; [discriminate Er|].
  destruct (res_ok res) eqn:Hok; [|discriminate Er].
  cbn in Er. injection Er as Eb.
  exists res. repeat split; try assumption.
  right. apply in_or_app. right. now left.
Qed.

Lemma streaming_world_streams (body : UpstreamBody) :
  fst (POST (Sample.streaming_world body)) = StreamResponse (Some body).
Proof. reflexivity. Qed.

(** C1, as stated, fails in two ways. A chunk that is not well-formed
    UTF-8 does not reach the consumer as it was sent: for the byte FF the
    consumer observes the three bytes of U+FFFD. And when the upstream read
    fails, the chunks still waiting in the queue are dropped: a consumer
    that had not yet read observes the failure and none of the two chunks
    that came before it. *)
Lemma relayed_chunks_can_differ :
  fst (POST (Sample.streaming_world (mkBody [[xff]] UpDone)))
    = StreamResponse (Some (mkBody [[xff]] UpDone)) /\
  relay (Some (mkBody [[xff]] UpDone)) [1; 1]%nat
    = [Chunk [xef; xbf; xbd]; Done] /\
  relay (Some (mkBody [[xff]] UpDone)) [1; 1]%nat
    <> map Chunk [[xff]] ++ [Done] /\
  relay (Some (mkBody [[x41]; [x42]] (UpFail Sample.reset))) []
    = [Failed Sample.reset] /\
  relay (Some (mkBody [[x41]; [x42]] (UpFail Sample.reset))) []
    <> map Chunk [[x41]; [x42]] ++ [Failed Sample.reset].
Proof.
  repeat split; try reflexivity; vm_compute; discriminate.
Qed.

(** C1 (amended): for a streaming call that has passed the upstream status
    check and whose body yields N chunks, the relay forwards N chunks, each
    the UTF-8 encoding of what the streaming decoder made of the chunk read.
    If the body then ends normally, the consumer observes these N chunks in
    order followed by the end of the stream, and they are exactly the
    upstream chunks when each of those is the UTF-8 encoding of scalar
    values and the first is not a byte order mark. If the upstream read
    fails after the N chunks, the consumer observes, in order, those of the
    N forwarded chunks it had read before the failure, all N when it kept
    up with the relay, followed by the failure itself: never a normal end. *)
Theorem relay_ends_as_upstream_ends (w : World) (chunks : list (list byte))
    (fin : UpstreamEnd) (sched : schedule) :
  fst (POST w) = StreamResponse (Some (mkBody chunks fin)) ->
  let sent := forwarded Utf8.new_TextDecoder chunks in
  (exists req res,
     In (EvFetch req) (snd (POST w)) /\
     fetch w req = inr res /\ res_ok res = true /\
     res_body res = Some (mkBody chunks fin)) /\
  List.length sent = List.length chunks /\
  (fin = UpDone ->
   relay (Some (mkBody chunks fin)) sched = map Chunk sent ++ [Done] /\
   (forall texts,
      chunks = map Utf8.encode_scalars texts ->
      Forall (Forall (fun cp => Utf8.is_scalar cp = true)) texts ->
      hd_error (List.concat texts) <> Some BOM ->
      relay (Some (mkBody chunks fin)) sched = map Chunk chunks ++ [Done])) /\
  (forall e, fin = UpFail e ->
   exists seen queued,
     sent = seen ++ queued /\
     relay (Some (mkBody chunks fin)) sched = map Chunk seen ++ [Failed e] /\
     (keeps_up (List.length chunks) sched -> queued = []) /\
     ~ In Done (relay (Some (mkBody chunks fin)) sched)).
Proof.
  intros Hpost. cbv zeta.
  split; [exact (stream_after_ok_status w _ Hpost)|].
  split; [apply forwarded_length|]. split.
  - intros ->. split; [apply relay_done|].
    intros texts -> Hscalar Hbom. rewrite relay_done.
    unfold Utf8.new_TextDecoder.
    rewrite (Utf8Facts.forwarded_whole_chunks texts false Hscalar);
      [reflexivity|now right].
  - intros e ->.
    destruct (relay_failed chunks e sched) as (seen & queued & Hs & Hr & Hk).
    exists seen, queued. repeat split; try assumption.
    rewrite Hr. intros Hin. apply in_app_or in Hin.
    destruct Hin as [Hin|[Hin|[]]]; [|discriminate].
    apply in_map_iff in Hin. destruct Hin as (c & Hc & _). discriminate.
Qed.

Lemma relay_ends_as_upstream_ends_witness :
  relay (Some (mkBody [[x68; x69]; [xc3; xa9]] UpDone)) [0; 3]%nat
    = [Chunk [x68; x69]; Chunk [xc3; xa9]; Done] /\
  exists (seen queued : list (list byte)),
    relay (Some (mkBody [[x68; x69]; [xc3; xa9]] (UpFail Sample.reset)))
          [1; 1]%nat
    = map Chunk seen ++ [Failed Sample.reset] /\ queued = [].
Proof.
  split.
  - destruct (relay_ends_as_upstream_ends
                _ _ _ [0; 3]%nat
                (streaming_world_streams
                   (mkBody [[x68; x69]; [xc3; xa9]] UpDone)))
      as (_ & _ & Hdone & _).
    destruct (Hdone eq_refl) as [_ Hsame].
    apply (Hsame [[0x68; 0x69]; [0xE9]]).
    + reflexivity.
    + repeat constructor.
    + discriminate.
  - destruct (relay_ends_as_upstream_ends
                _ _ _ [1; 1]%nat
                (streaming_world_streams
                   (mkBody [[x68; x69]; [xc3; xa9]] (UpFail Sample.reset))))
      as (_ & _ & _ & Hfail).
    destruct (Hfail Sample.reset eq_refl) as (seen & queued & _ & Hr & Hk & _).
    exists seen, queued. split; [exact Hr|].
    apply Hk. intros i Hi. cbn in Hi.
    destruct i as [|[|i]]; cbn; lia.
Defined.

(** C2, as stated, fails for upstream bytes that are not plain UTF-8 text:
    the byte FF is delivered as the three bytes of U+FFFD, a leading byte
    order mark is dropped, and a sequence cut short by the end of the body
    is never delivered. *)
Lemma relayed_bytes_can_differ :
  fst (POST (Sample.streaming_world (mkBody [[xff]] UpDone)))
    = StreamResponse (Some (mkBody [[xff]] UpDone)) /\
  delivered (relay (Some (mkBody [[xff]] UpDone)) [])
    = [xef; xbf; xbd] /\
  delivered (relay (Some (mkBody [[xff]] UpDone)) [])
    <> List.concat [[xff]] /\
  delivered (relay (Some (mkBody [[xef; xbb; xbf; x41]] UpDone)) [])
    = [x41] /\
  delivered (relay (Some (mkBody [[x41; xe2; x82]] UpDone)) [])
    = [x41].
Proof.
  repeat split; try reflexivity; vm_compute; discriminate.
Qed.

(** C2 (amended): for every streaming call that has passed the upstream
    status check, the bytes delivered to the caller are those of the
    chunks decoded and encoded again: of all of them when the body ends
    normally or the consumer keeps up with the relay, and otherwise, when
    the upstream read fails, of those the consumer had read before the
    failure. When the upstream bytes, taken together, are the UTF-8
    encoding of scalar values not starting with a byte order mark, the
    chunks encoded again add up to the bytes received, however the
    transport cut them: the bytes delivered are then, byte for byte and in
    order, a prefix of the bytes received, and all of them when the body
    ends normally or the consumer keeps up. *)
Theorem relay_preserves_utf8_bytes (w : World) (body : option UpstreamBody)
    (sched : schedule) :
  fst (POST w) = StreamResponse body ->
  let chunks := match body with
                | Some reader => up_chunks reader
                | None => []
                end in
  let ends_normally := match body with
                       | Some reader => up_end reader = UpDone
                       | None => True
                       end in
  let sent := forwarded Utf8.new_TextDecoder chunks in
  let got := delivered (relay body sched) in
  (exists seen queued,
     sent = seen ++ queued /\
     got = List.concat seen /\
     (ends_normally -> queued = []) /\
     (keeps_up (List.length chunks) sched -> queued = [])) /\
  (forall text,
     plain_text text ->
     List.concat chunks = Utf8.encode_scalars text ->
     List.concat sent = List.concat chunks /\
     (exists rest, List.concat chunks = got ++ rest) /\
     (ends_normally -> got = List.concat chunks) /\
     (keeps_up (List.length chunks) sched -> got = List.concat chunks)).
Proof.
  intros _. cbv zeta.
  set (chunks := match body with
                 | Some reader => up_chunks reader
                 | None => []
                 end).
  set (ends_normally := match body with
                        | Some reader => up_end reader = UpDone
                        | None => True
                        end).
  assert (Hgen : exists seen queued,
            forwarded Utf8.new_TextDecoder chunks = seen ++ queued /\
            delivered (relay body sched) = List.concat seen /\
            (ends_normally -> queued = []) /\
            (keeps_up (List.length chunks) sched -> queued = [])).
  { destruct body as [[cs [|e]]|]; cbn in chunks, ends_normally;
      subst chunks ends_normally.
    - exists (forwarded Utf8.new_TextDecoder cs), [].
      rewrite relay_done, delivered_chunks by now left.
      now rewrite app_nil_r.
    - destruct (relay_failed cs e sched) as (seen & queued & Hs & Hr & Hk).
      exists seen, queued. rewrite Hr, delivered_chunks by (right; now exists e).
      repeat split; try assumption. discriminate.
    - exists [], []. repeat split. }
  split; [exact Hgen|].
  intros text Htext Hbytes.
  pose proof (Utf8Facts.forwarded_plain_text chunks text Htext Hbytes) as Hsame.
  destruct Hgen as (seen & queued & Hs & Hg & Hn & Hk).
  split; [exact Hsame|].
  rewrite <- Hsame, Hs, concat_app, Hg. repeat split.
  - now exists (List.concat queued).
  - intros H. rewrite (Hn H). cbn. now rewrite app_nil_r.
  - intros H. rewrite (Hk H). cbn. now rewrite app_nil_r.
Qed.

Lemma relay_preserves_utf8_bytes_witness :
  plain_text [0x20AC; 0x1F600] /\
  delivered (relay (Some (mkBody [[xe2; x82]; [xac; xf0; x9f]; [x98; x80]]
                                 UpDone)) [1; 0; 2]%nat)
    = [xe2; x82; xac; xf0; x9f; x98; x80] /\
  delivered (relay (Some (mkBody [[xe2; x82]; [xac; xf0; x9f]; [x98; x80]]
                                 (UpFail Sample.reset))) [1; 1; 1]%nat)
    = [xe2; x82; xac; xf0; x9f; x98; x80].
Proof.
  assert (Htext : plain_text [0x20AC; 0x1F600]).
  { split; [repeat constructor|discriminate]. }
  split; [exact Htext|]. split.
  - destruct (relay_preserves_utf8_bytes
                _ _ [1; 0; 2]%nat
                (streaming_world_streams
                   (mkBody [[xe2; x82]; [xac; xf0; x9f]; [x98; x80]] UpDone)))
      as [_ Hplain].
    destruct (Hplain [0x20AC; 0x1F600] Htext eq_refl) as (_ & _ & Hdone & _).
    exact (Hdone eq_refl).
  - destruct (relay_preserves_utf8_bytes
                _ _ [1; 1; 1]%nat
                (streaming_world_streams
                   (mkBody [[xe2; x82]; [xac; xf0; x9f]; [x98; x80]]
                           (UpFail Sample.reset))))
      as [_ Hplain].
    destruct (Hplain [0x20AC; 0x1F600] Htext eq_refl) as (_ & _ & _ & Hkeep).
    apply Hkeep. intros i Hi. cbn in Hi.
    destruct i as [|[|[|i]]]; cbn; lia.
Defined.

(* ================================================================== *)
(** * Further properties *)

(** ** The answers of the handler *)

(** X1: the handler has nine answers and no other: the six error responses
    it words itself, the 502 for a provider response that is not ok, the
    500 for anything thrown, and the event stream. In particular its status
    is always 200, 400, 413, 500 or 502. *)
Theorem POST_answers_are_closed (w : World) :
  (fst (POST w) = ServerMisconfigured \/
   fst (POST w) = MissingInput \/
   fst (POST w) = EmptyFile \/
   fst (POST w) = TooLarge \/
   fst (POST w) = InvalidUrl \/
   fst (POST w) = UnresolvedInput \/
   (exists res, fst (POST w) = UpstreamError (upstream_details res)) \/
   (exists e, fst (POST w) = UnexpectedInternalError e) \/
   (exists body, fst (POST w) = StreamResponse body)) /\
  In (http_status (fst (POST w))) [200; 400; 413; 500; 502].
Proof.
  pose proof (POST_handled w) as H.
  destruct H; try (split; [tauto|cbn; tauto]).
  - split; [|cbn; tauto]. do 7 right. left. now exists e.
  - subst req. unfold provider_outcome.
    destruct (fetch w (outbound w fd videoUrl)) as [e|res]; cbn [fst].
    + split; [|cbn; tauto]. do 7 right. left. now exists e.
    + destruct (res_ok res); cbn [fst].
      * split; [|cbn; tauto]. do 8 right. now exists (res_body res).
      * split; [|cbn; tauto]. do 6 right. left. now exists res.
Qed.

(** ** The outbound call *)

Lemma handled_fetch_request (w : World) (r : Response) (tr : list Event)
    (req : OutboundRequest) :
  handled w r tr ->
  In (EvFetch req) tr ->
  exists fd pre videoUrl,
    accepted w fd /\ resolved w fd pre videoUrl /\
    req = outbound w fd videoUrl /\
    r = fst (provider_outcome w req) /\
    tr = EvFormData :: pre ++ EvFetch req :: snd (provider_outcome w req).
Proof.
  intros H Hin.
  destruct (handled_fetch_outcome w r tr req H Hin) as [Hr _].
  destruct H; cbn in Hin;
    try (repeat (destruct Hin as [Hin|Hin]; [discriminate|]); now destruct Hin).
  destruct Hin as [Hin|Hin]; [discriminate|].
  subst req0.
  assert (Hreq : req = outbound w fd videoUrl).
  { apply in_app_or in Hin. destruct Hin as [Hin|Hin].
    - destruct H0; cbn in Hin; destruct Hin as [Hin|[]]; discriminate.
    - destruct Hin as [Hin|Hin]; [congruence|].
      exfalso.
      pose proof (provider_outcome_no_fetch w (outbound w fd videoUrl)) as Hn.
      induction (snd (provider_outcome w (outbound w fd videoUrl)))
        as [|ev evs IH]; [exact Hin|].
      cbn in Hn. apply orb_false_elim in Hn. destruct Hn as [Hn1 Hn2].
      destruct Hin as [Hin|Hin]; [subst ev; discriminate|auto]. }
  subst req. exists fd, pre, videoUrl.
  split; [assumption|]. split; [assumption|]. repeat split.
Qed.

Lemma resolved_nonempty (w : World) (fd : FormData) (pre : list Event)
    (videoUrl : jsstring) :
  resolved w fd pre videoUrl ->
  videoUrl <> [] /\ existsb is_fetch pre = false.
Proof.
  intros H. destruct H as [f _ _ _|_ Hu _].
  - split; [discriminate|reflexivity].
  - split; [now apply truthy_nonempty|reflexivity].
Qed.

Lemma filter_none (A : Type) (p : A -> bool) (l : list A) :
  existsb p l = false -> filter p l = [].
Proof.
  induction l as [|x l IH]; [reflexivity|].
  cbn. intros H. apply orb_false_elim in H. destruct H as [Hx Hl].
  rewrite Hx. now apply IH.
Qed.

(** X2: the handler calls the provider at most once, and never without a
    key or without a video: a request that is sent goes to the chat
    completions endpoint, names the model, asks for a stream, carries
    "Bearer " and a non-empty key, a non-empty video URL, and as its text
    the prompt assembled from the trimmed [focusPrompt] field. *)
Theorem at_most_one_well_formed_call (w : World) :
  (List.length (fetches (snd (POST w))) <= 1)%nat /\
  (forall req,
     In (EvFetch req) (snd (POST w)) ->
     out_endpoint req = OPENROUTER_URL /\
     out_model req = MODEL /\
     out_stream req = true /\
     out_video_url req <> [] /\
     (exists key,
        env_OPENROUTER_API_KEY w = Some key /\ key <> [] /\
        out_authorization req = lit "Bearer " ++ key) /\
     (exists fd,
        req_formData w = inr fd /\
        out_text req = mergedPrompt (field_focusPrompt fd))).
Proof.
  split.
  - pose proof (POST_handled w) as H. unfold fetches.
    destruct H; try (cbn; lia).
    subst req. destruct (resolved_nonempty _ _ _ _ H0) as [_ Hpre].
    cbn [filter is_fetch]. rewrite filter_app.
    rewrite (filter_none _ _ _ Hpre). cbn [app filter is_fetch].
    rewrite (filter_none _ _ _ (provider_outcome_no_fetch w _)).
    cbn. lia.
  - intros req Hin.
    destruct (handled_fetch_request w _ _ req (POST_handled w) Hin)
      as (fd & pre & videoUrl & [Hk Hf] & Hres & -> & _).
    destruct (resolved_nonempty _ _ _ _ Hres) as [Hv _].
    repeat split; try reflexivity; try assumption.
    + unfold apiKey_missing in Hk.
      destruct (env_OPENROUTER_API_KEY w) as [key|] eqn:Ek; [|discriminate].
      exists key. split; [reflexivity|]. split.
      * apply truthy_nonempty. now apply negb_false_iff.
      * unfold outbound. cbn. now rewrite Ek.
    + exists fd. split; [exact Hf|reflexivity].
Qed.

(** ** What is thrown *)

(** X3: nothing thrown leaves the handler. When reading the form data
    throws, or when the call to the provider throws, the answer is the 500
    response "Unexpected server error while analyzing video." whose
    details are the message of what was thrown, or its rendering as a
    string when it has no message; and nothing is called after the call
    that threw. *)
Theorem thrown_becomes_500 (w : World) (e : Exn) :
  (apiKey_missing (env_OPENROUTER_API_KEY w) = false ->
   req_formData w = inl e ->
   POST w = (UnexpectedInternalError e, [EvFormData])) /\
  (forall req,
     In (EvFetch req) (snd (POST w)) ->
     fetch w req = inl e ->
     fst (POST w) = UnexpectedInternalError e /\
     exists pre, snd (POST w) = pre ++ [EvFetch req]) /\
  http_status (UnexpectedInternalError e) = 500 /\
  (exn_message e <> [] ->
   UnexpectedInternalError e
   = json 500 "Unexpected server error while analyzing video."
          (Some (exn_message e))) /\
  (exn_message e = [] ->
   UnexpectedInternalError e
   = json 500 "Unexpected server error while analyzing video."
          (Some (exn_string e))).
Proof.
  split; [|split; [|split; [reflexivity|split]]].
  - intros Hk Hf. now apply POST_formData_throws.
  - intros req Hin Hfetch.
    destruct (handled_fetch_outcome w _ _ req (POST_handled w) Hin)
      as [Hr [pre Htr]].
    unfold provider_outcome in Hr, Htr. rewrite Hfetch in Hr, Htr.
    split; [exact Hr|]. exists pre. exact Htr.
  - intros Hm. unfold UnexpectedInternalError.
    rewrite or_else_truthy; [reflexivity|]. now apply truthy_nonempty.
  - intros Hm. unfold UnexpectedInternalError, or_else. now rewrite Hm.
Qed.

Lemma thrown_becomes_500_witness :
  POST (Sample.world Sample.key (Sample.url_form Sample.video_url)
          (fun _ => inl Sample.reset))
  = (json 500 "Unexpected server error while analyzing video."
          (Some (lit "terminated")),
     [EvFormData; EvNewURL Sample.video_url;
      EvFetch (outbound
                 (Sample.world Sample.key (Sample.url_form Sample.video_url)
                               (fun _ => inl Sample.reset))
                 (Sample.url_form Sample.video_url) Sample.video_url)]).
Proof.
  pose (w := Sample.world Sample.key (Sample.url_form Sample.video_url)
                          (fun _ => inl Sample.reset)).
  pose (req := outbound w (Sample.url_form Sample.video_url) Sample.video_url).
  assert (Hin : In (EvFetch req) (snd (POST w)))
    by (right; right; left; reflexivity).
  destruct (thrown_becomes_500 w Sample.reset) as (_ & Hf & _ & Hm & _).
  destruct (Hf req Hin eq_refl) as [Hr _].
  assert (Hne : exn_message Sample.reset <> []) by discriminate.
  fold w req. rewrite (surjective_pairing (POST w)), Hr, (Hm Hne).
  reflexivity.
Defined.

Lemma at_most_one_well_formed_call_witness :
  let w := Sample.streaming_world (mkBody [] UpDone) in
  fetches (snd (POST w))
  = [EvFetch (outbound w (Sample.url_form Sample.video_url) Sample.video_url)]
  /\ out_authorization
       (outbound w (Sample.url_form Sample.video_url) Sample.video_url)
     = lit "Bearer sk-or-sample".
Proof.
  cbv zeta.
  pose (w := Sample.streaming_world (mkBody [] UpDone)).
  pose (req := outbound w (Sample.url_form Sample.video_url) Sample.video_url).
  assert (Hin : In (EvFetch req) (snd (POST w)))
    by (right; right; left; reflexivity).
  destruct (at_most_one_well_formed_call w) as [_ Hshape].
  destruct (Hshape req Hin) as (_ & _ & _ & _ & (key & Hk & _ & Ha) & _).
  split; [reflexivity|].
  fold w req. rewrite Ha. injection Hk as <-. reflexivity.
Defined.

(** ** Requests by URL, and requests with nothing *)

(** X4: a request with no [video] field and a URL is settled by the URL
    alone. The URL is trimmed and its syntax checked exactly once; when it
    does not parse the answer is InvalidUrl and the provider is not called;
    when it parses, the text sent to the provider is the trimmed field as
    the caller wrote it, not a normalised form, and no file is read. *)
Theorem url_request_passes_url_through (w : World) (fd : FormData) :
  accepted w fd ->
  field_video fd = None ->
  field_videoUrl fd <> [] ->
  filter is_URL_check (snd (POST w)) = [EvNewURL (field_videoUrl fd)] /\
  ~ In EvArrayBuffer (snd (POST w)) /\
  (URL_parses w (field_videoUrl fd) = false ->
   POST w = (InvalidUrl, [EvFormData; EvNewURL (field_videoUrl fd)])) /\
  (URL_parses w (field_videoUrl fd) = true ->
   let req := outbound w fd (field_videoUrl fd) in
   fetches (snd (POST w)) = [EvFetch req] /\
   out_video_url req = field_videoUrl fd /\
   fst (POST w) = fst (provider_outcome w req)).
Proof.
  intros Hacc Hv Hu.
  assert (Hnf : forall f, field_video fd <> Some (EntryFile f))
    by (intros f; rewrite Hv; discriminate).
  apply truthy_nonempty in Hu.
  rewrite (POST_no_file w fd Hacc Hnf). rewrite Hv, Hu. cbn [entry_falsy negb andb].
  destruct (URL_parses w (field_videoUrl fd)) eqn:Hp.
  - cbv zeta. cbn [fst snd].
    assert (Htail : forall p, (forall ev, In ev (snd (provider_outcome w
                       (outbound w fd (field_videoUrl fd)))) -> p ev = false) ->
              filter p (snd (provider_outcome w
                       (outbound w fd (field_videoUrl fd)))) = []).
    { intros p Hp'. apply filter_none.
      induction (snd (provider_outcome w (outbound w fd (field_videoUrl fd))))
        as [|ev evs IH]; [reflexivity|].
      cbn. rewrite (Hp' ev (or_introl eq_refl)). apply IH.
      intros ev' Hin. apply Hp'. now right. }
    assert (Hevs : forall ev, In ev (snd (provider_outcome w
                       (outbound w fd (field_videoUrl fd)))) -> ev = EvText).
    { unfold provider_outcome. destruct (fetch w _) as [e|res]; [intros ? []|].
      destruct (res_ok res); cbn; [intros ? []|].
      intros ev [<-|[]]. reflexivity. }
    repeat split.
    + cbn [app filter is_URL_check]. rewrite Htail; [reflexivity|].
      intros ev Hin. now rewrite (Hevs ev Hin).
    + intros [H|[H|[H|H]]]; try discriminate.
      apply Hevs in H. discriminate.
    + discriminate.
    + unfold fetches. cbn [app filter is_fetch]. rewrite Htail; [reflexivity|].
      intros ev Hin. now rewrite (Hevs ev Hin).
  - repeat split; try discriminate.
    intros [H|[H|[]]]; discriminate.
Qed.

Lemma url_request_passes_url_through_witness :
  let fd := Sample.url_form (lit "  https://example.com/a%20b/../c  ") in
  let w := Sample.world Sample.key fd (Sample.answers Sample.ok_empty) in
  field_videoUrl fd = lit "https://example.com/a%20b/../c" /\
  fetches (snd (POST w))
  = [EvFetch (outbound w fd (lit "https://example.com/a%20b/../c"))].
Proof.
  cbv zeta.
  pose (fd := Sample.url_form (lit "  https://example.com/a%20b/../c  ")).
  pose (w := Sample.world Sample.key fd (Sample.answers Sample.ok_empty)).
  assert (Hacc : accepted w fd) by (split; reflexivity).
  assert (Hu : field_videoUrl fd <> []) by discriminate.
  destruct (url_request_passes_url_through w fd Hacc eq_refl Hu)
    as (_ & _ & _ & Hsent).
  split; [reflexivity|].
  exact (proj1 (Hsent eq_refl)).
Defined.

(** X5: among the requests that reach input handling, MissingInput is the
    answer exactly when the [video] field is absent or an empty string and
    the [videoUrl] field is absent or blank: a URL of white space alone
    counts as no URL. Nothing but the form data has then been read. *)
Theorem missing_input_exactly (w : World) (fd : FormData) :
  accepted w fd ->
  (fst (POST w) = MissingInput <->
   entry_falsy (field_video fd) = true /\ field_videoUrl fd = []) /\
  (fst (POST w) = MissingInput -> snd (POST w) = [EvFormData]).
Proof.
  intros Hacc.
  assert (Hsent : forall req, fst (provider_outcome w req) <> MissingInput).
  { intros req E. pose proof (provider_outcome_status w req) as Hin.
    rewrite E in Hin. cbn in Hin.
    repeat (destruct Hin as [Hin|Hin]; [discriminate|]). exact Hin. }
  destruct (field_video fd) as [[s|f]|] eqn:Hv.
  - rewrite (POST_no_file w fd Hacc) by (rewrite Hv; discriminate).
    rewrite Hv. cbn [entry_falsy].
    destruct (truthy s) eqn:Hs; cbn [negb andb];
      destruct (truthy (field_videoUrl fd)) eqn:Hu; cbn [negb];
      try destruct (URL_parses w (field_videoUrl fd)); cbn [fst snd];
      (split; [split|]);
      try (intros E; first [discriminate E | now destruct (Hsent _ E)]);
      try (intros [E1 E2]; first [discriminate E1
                                 | apply truthy_false in E2; congruence]);
      try reflexivity;
      try (intros _; split; [reflexivity|now apply truthy_false]).
  - rewrite (POST_file w fd Hacc f Hv).
    destruct (file_size f =? 0); [|destruct (maxBytes <? file_size f)];
      cbn [fst snd]; (split; [split|]);
      try (intros E; first [discriminate E | now destruct (Hsent _ E)]);
      intros [E _]; discriminate E.
  - rewrite (POST_no_file w fd Hacc) by (rewrite Hv; discriminate).
    rewrite Hv. cbn [entry_falsy andb].
    destruct (truthy (field_videoUrl fd)) eqn:Hu; cbn [negb];
      try destruct (URL_parses w (field_videoUrl fd)); cbn [fst snd];
      (split; [split|]);
      try (intros E; first [discriminate E | now destruct (Hsent _ E)]);
      try (intros [E1 E2]; apply truthy_false in E2; congruence);
      try reflexivity;
      try (intros _; split; [reflexivity|now apply truthy_false]).
Qed.

Lemma missing_input_exactly_witness :
  let fd := Sample.url_form (lit "   ") in
  let w := Sample.world Sample.key fd (Sample.answers Sample.ok_empty) in
  field_videoUrl fd = [] /\ POST w = (MissingInput, [EvFormData]).
Proof.
  cbv zeta.
  pose (fd := Sample.url_form (lit "   ")).
  pose (w := Sample.world Sample.key fd (Sample.answers Sample.ok_empty)).
  assert (Hacc : accepted w fd) by (split; reflexivity).
  destruct (missing_input_exactly w fd Hacc) as [Hiff Htr].
  assert (Hr : fst (POST w) = MissingInput)
    by (apply Hiff; split; reflexivity).
  split; [reflexivity|].
  fold fd w. rewrite (surjective_pairing (POST w)), Hr, (Htr Hr).
  reflexivity.
Defined.

(** ** The data URL of an upload *)

Lemma is_base64_char_of_sextet (i : N) :
  is_base64_char (Base64.char_of_sextet i) = true.
Proof.
  unfold is_base64_char.
  destruct (N.lt_ge_cases i 64) as [Hi|Hi].
  - now rewrite Base64Facts.sextet_of_char_of_sextet.
  - unfold Base64.char_of_sextet.
    rewrite (proj2 (N.ltb_ge i 26)), (proj2 (N.ltb_ge i 52)),
      (proj2 (N.ltb_ge i 62)), (proj2 (N.eqb_neq i 62)) by lia.
    reflexivity.
Qed.

Lemma encode_shape_bounded (n : nat) (bs : list byte) :
  (List.length bs <= n)%nat ->
  List.length (Base64.encode bs) = (4 * ((List.length bs + 2) / 3))%nat /\
  forallb is_base64_char (Base64.encode bs) = true.
Proof.
  revert bs. induction n as [|n IH]; intros bs Hlen.
  { destruct bs; [split; reflexivity|cbn in Hlen; lia]. }
  destruct bs as [|a [|b [|c rest]]]; [split; reflexivity| | |].
  - rewrite Base64Facts.encode_one. split; [reflexivity|].
    cbn [forallb]. rewrite !is_base64_char_of_sextet. reflexivity.
  - rewrite Base64Facts.encode_two. split; [reflexivity|].
    cbn [forallb]. rewrite !is_base64_char_of_sextet. reflexivity.
  - rewrite Base64Facts.encode_three.
    destruct (IH rest) as [IHl IHc]; [cbn in Hlen; lia|].
    split.
    + cbn [List.length]. rewrite IHl.
      replace (S (S (S (List.length rest))) + 2)%nat
        with ((List.length rest + 2) + 1 * 3)%nat by lia.
      rewrite Nat.div_add by discriminate. lia.
    + cbn [forallb]. rewrite !is_base64_char_of_sextet, IHc. reflexivity.
Qed.

(** X6: the data URL that [fileToDataUrl] builds is "data:", the declared
    type of the file or "video/mp4" when it declares none, ";base64," and
    then base64 text: four characters for every three bytes of the file,
    rounded up, each a character of the base64 alphabet or the padding. So
    its length is 13 plus the length of the type plus 4 * ceil(size / 3). *)
Theorem data_url_shape (f : File) :
  let mime := or_else (file_type f) (lit "video/mp4") in
  let size := List.length (file_bytes f) in
  fileToDataUrl f [] = (Value (dataUrl f), [EvArrayBuffer]) /\
  dataUrl f = lit "data:" ++ mime ++ lit ";base64," ++ Base64.encode (file_bytes f) /\
  (file_type f = [] -> startsWith (lit "data:video/mp4;base64,") (dataUrl f) = true) /\
  forallb is_base64_char (Base64.encode (file_bytes f)) = true /\
  List.length (Base64.encode (file_bytes f)) = (4 * ((size + 2) / 3))%nat /\
  List.length (dataUrl f)
  = (13 + List.length mime + 4 * ((size + 2) / 3))%nat.
Proof.
  cbv zeta.
  destruct (encode_shape_bounded _ (file_bytes f) (le_n _)) as [Hl Hc].
  repeat split; try assumption.
  - intros Ht. unfold dataUrl. rewrite Ht. reflexivity.
  - unfold dataUrl. rewrite !length_app, Hl.
    change (List.length (lit "data:")) with 5%nat.
    change (List.length (lit ";base64,")) with 8%nat. lia.
Qed.

Lemma data_url_shape_witness :
  dataUrl (mkFile [] [x01; x02; x03; x04])
  = lit "data:video/mp4;base64,AQIDBA==".
Proof.
  destruct (data_url_shape (mkFile [] [x01; x02; x03; x04]))
    as (_ & Hshape & _).
  rewrite Hshape. reflexivity.
Defined.

(** ** Trimming *)

Lemma trimStart_head (s : jsstring) (u : N) :
  hd_error (trimStart s) = Some u -> is_space u = false.
Proof.
  induction s as [|v s IH]; [discriminate|].
  cbn [trimStart]. destruct (is_space v) eqn:E; [exact IH|].
  cbn. intros H. injection H as <-. exact E.
Qed.

Lemma trimStart_fixed (s : jsstring) :
  (forall u, hd_error s = Some u -> is_space u = false) -> trimStart s = s.
Proof.
  destruct s as [|v s]; [reflexivity|]. intros H.
  cbn. now rewrite (H v eq_refl).
Qed.

Lemma trimStart_suffix (s : jsstring) :
  exists pre, s = pre ++ trimStart s.
Proof.
  induction s as [|v s [pre IH]]; [now exists []|].
  cbn [trimStart]. destruct (is_space v).
  - exists (v :: pre). cbn. now f_equal.
  - now exists [].
Qed.

Lemma trimEnd_last (s : jsstring) (u : N) :
  hd_error (rev (trimEnd s)) = Some u -> is_space u = false.
Proof.
  unfold trimEnd. rewrite rev_involutive. apply trimStart_head.
Qed.

Lemma trimEnd_prefix (s : jsstring) :
  exists suf, s = trimEnd s ++ suf.
Proof.
  unfold trimEnd. destruct (trimStart_suffix (rev s)) as [pre H].
  exists (rev pre).
  rewrite <- rev_app_distr, <- H. symmetry. apply rev_involutive.
Qed.

Lemma trimEnd_head (s : jsstring) (u : N) :
  hd_error (trimEnd s) = Some u -> hd_error s = Some u.
Proof.
  destruct (trimEnd_prefix s) as [suf H]. intros Hu.
  rewrite H. destruct (trimEnd s); [discriminate|exact Hu].
Qed.

Lemma trimEnd_fixed (s : jsstring) :
  (forall u, hd_error (rev s) = Some u -> is_space u = false) ->
  trimEnd s = s.
Proof.
  intros H. unfold trimEnd. rewrite trimStart_fixed by exact H.
  apply rev_involutive.
Qed.

(** X7: what the handler takes from the [focusPrompt] and [videoUrl] fields
    is trimmed for good: it neither begins nor ends with white space, and
    trimming it again changes nothing, so that a client may trim the fields
    itself, or not, to the same effect. *)
Theorem fields_are_trimmed (fd : FormData) (v : jsstring) :
  v = field_focusPrompt fd \/ v = field_videoUrl fd ->
  (forall u, hd_error v = Some u -> is_space u = false) /\
  (forall u, hd_error (rev v) = Some u -> is_space u = false) /\
  trim v = v.
Proof.
  intros Hv.
  assert (Ht : exists s, v = trim s).
  { destruct Hv as [->| ->]; eexists; reflexivity. }
  destruct Ht as [s ->].
  assert (Hhead : forall u, hd_error (trim s) = Some u -> is_space u = false).
  { intros u Hu. unfold trim in Hu. apply trimEnd_head in Hu.
    now apply trimStart_head in Hu. }
  assert (Hlast : forall u, hd_error (rev (trim s)) = Some u ->
                            is_space u = false).
  { intros u. unfold trim. apply trimEnd_last. }
  repeat split; try assumption.
  unfold trim at 1. rewrite (trimStart_fixed _ Hhead).
  now apply trimEnd_fixed.
Qed.

Lemma fields_are_trimmed_witness :
  field_focusPrompt [(lit "focusPrompt", EntryString (lit "  pace and tone "))]
  = lit "pace and tone" /\
  trim (lit "pace and tone") = lit "pace and tone".
Proof.
  split; [reflexivity|].
  exact (proj2 (proj2 (fields_are_trimmed
           [(lit "focusPrompt", EntryString (lit "  pace and tone "))]
           (lit "pace and tone") (or_introl eq_refl)))).
Defined.

(** ** The states of the decoder *)

Module Utf8More.
Import Utf8 Utf8Facts.

Ltac scalar_goal := apply is_scalar_spec; lia_div.

Lemma lead_ok (b : N) :
  b < 256 ->
  decoder_ok (fst (lead fresh b)) /\
  Forall (fun cp => is_scalar cp = true) (snd (lead fresh b)).
Proof.
  intros Hb. unfold lead.
  cbn [fresh code_point bytes_seen bytes_needed lower_boundary upper_boundary].
  destruct (b <=? 0x7F) eqn:H1.
  { bool_hyps. cbn. split; [now left|]. repeat constructor. scalar_goal. }
  destruct ((0xC2 <=? b) && (b <=? 0xDF)) eqn:H2.
  { clear H1. bool_hyps. cbn [fst snd]. split; [|constructor]. right. left. cbn.
    rewrite land_1F. repeat split; lia_div. }
  destruct ((0xE0 <=? b) && (b <=? 0xEF)) eqn:H3.
  { clear H1 H2. bool_hyps. cbn [fst snd]. split; [|constructor].
    right. right. left. cbn. rewrite land_F.
    destruct (b =? 0xE0) eqn:E1, (b =? 0xED) eqn:E2,
             (b mod 16 =? 0) eqn:E3, (b mod 16 =? 13) eqn:E4; bool_hyps;
      repeat split; try reflexivity; lia_div. }
  destruct ((0xF0 <=? b) && (b <=? 0xF4)) eqn:H4.
  { clear H1 H2 H3. bool_hyps. cbn [fst snd]. split; [|constructor].
    right. right. right. right. left. cbn.
    rewrite land_7.
    destruct (b =? 0xF0) eqn:E1, (b =? 0xF4) eqn:E2,
             (b mod 8 =? 0) eqn:E3, (b mod 8 =? 4) eqn:E4; bool_hyps;
      repeat split; try reflexivity; lia_div. }
  cbn. split; [now left|]. repeat constructor.
Qed.

Lemma after_error (b : N) :
  b < 256 ->
  decoder_ok (fst (let '(d', out) := lead fresh b in (d', replacement :: out)))
  /\ Forall (fun cp => is_scalar cp = true)
            (snd (let '(d', out) := lead fresh b in (d', replacement :: out))).
Proof.
  intros Hb. destruct (lead_ok b Hb) as [H1 H2].
  destruct (lead fresh b) as [d' out]. cbn [fst snd] in *.
  split; [exact H1|]. constructor; [reflexivity|exact H2].
Qed.

(** A continuation byte met inside a sequence. *)
Lemma continue_ok (cp seen needed lo hi b : N) :
  needed <> 0 ->
  handler (mkDecoder cp seen needed lo hi) b =
    if negb ((lo <=? b) && (b <=? hi)) then
      let '(d', out) := lead fresh b in (d', replacement :: out)
    else if seen + 1 =? needed then (fresh, [cp * 64 + b mod 64])
    else (mkDecoder (cp * 64 + b mod 64) (seen + 1) needed 0x80 0xBF, []).
Proof.
  intros Hn. unfold handler.
  cbn [code_point bytes_seen bytes_needed lower_boundary upper_boundary].
  rewrite (proj2 (N.eqb_neq needed 0) Hn). rewrite accumulate. reflexivity.
Qed.

(** The decoder stays in one of its states, and emits scalar values only. *)
Lemma handler_ok (d : decoder) (b : N) :
  decoder_ok d -> b < 256 ->
  decoder_ok (fst (handler d b)) /\
  Forall (fun cp => is_scalar cp = true) (snd (handler d b)).
Proof.
  intros Hok Hb. destruct d as [cp seen needed lo hi].
  unfold decoder_ok in Hok. cbn in Hok.
  destruct Hok as [Hf|Hok].
  { injection Hf as -> -> -> -> ->. unfold handler. cbn. now apply lead_ok. }
  assert (Hn : needed <> 0) by (intuition lia).
  rewrite (continue_ok cp seen needed lo hi b Hn).
  destruct (negb ((lo <=? b) && (b <=? hi))) eqn:Hr;
    [now apply after_error|].
  bool_hyps.
  destruct Hok as [K|[K|[K|[K|[K|K]]]]].
  - destruct K as (-> & -> & Hcp & -> & ->). cbn [N.add N.eqb Pos.eqb fst snd].
    split; [now left|]. repeat constructor. scalar_goal.
  - destruct K as (-> & -> & Hcp & -> & ->). cbn [N.add N.eqb Pos.eqb fst snd].
    split; [|constructor]. right. right. right. left. cbn.
    destruct (cp =? 0) eqn:E1, (cp =? 13) eqn:E2; bool_hyps;
      repeat split; try reflexivity; lia_div.
  - destruct K as (-> & -> & Hcp & Hsur & -> & ->).
    cbn [N.add N.eqb Pos.eqb Pos.add fst snd].
    split; [now left|]. repeat constructor. scalar_goal.
  - destruct K as (-> & -> & Hcp & -> & ->). cbn [N.add N.eqb Pos.eqb fst snd].
    split; [|constructor]. right. right. right. right. right. left. cbn.
    destruct (cp =? 0) eqn:E1, (cp =? 4) eqn:E2; bool_hyps;
      repeat split; try reflexivity; lia_div.
  - destruct K as (-> & -> & Hcp & -> & ->).
    cbn [N.add N.eqb Pos.eqb Pos.add fst snd].
    split; [|constructor]. right. right. right. right. right. right. cbn.
    repeat split; try reflexivity; lia_div.
  - destruct K as (-> & -> & Hcp & -> & ->).
    cbn [N.add N.eqb Pos.eqb Pos.add Pos.succ fst snd].
    split; [now left|]. repeat constructor. scalar_goal.
Qed.

Lemma bytes_in_range (bs : list byte) :
  Forall (fun n => n < 256) (map Byte.to_N bs).
Proof.
  induction bs as [|b bs IH]; constructor; [apply byte_bound|exact IH].
Qed.

Lemma run_ok (bs : list N) (d : decoder) :
  decoder_ok d -> Forall (fun n => n < 256) bs ->
  decoder_ok (fst (run d bs)) /\
  Forall (fun cp => is_scalar cp = true) (snd (run d bs)).
Proof.
  revert d. induction bs as [|b bs IH]; intros d Hd Hbs.
  - cbn. split; [exact Hd|constructor].
  - inversion Hbs as [|? ? Hb Hbs']; subst. cbn [run].
    destruct (handler_ok d b Hd Hb) as [Hd1 Ho1].
    destruct (handler d b) as [d1 o1]. cbn [fst snd] in *.
    destruct (IH d1 Hd1 Hbs') as [Hd2 Ho2].
    destruct (run d1 bs) as [d2 o2]. cbn [fst snd] in *.
    split; [exact Hd2|]. apply Forall_app. now split.
Qed.

Lemma forwarded_well_formed (chunks : list (list byte)) (td : TextDecoder) :
  decoder_ok (td_decoder td) ->
  Forall well_formed_utf8 (forwarded td chunks).
Proof.
  revert td. induction chunks as [|value chunks IH]; intros td Hd.
  - constructor.
  - cbn [forwarded].
    destruct (run_ok (map Byte.to_N value) (td_decoder td) Hd
                (bytes_in_range value)) as [Hd1 Ho1].
    destruct (decode_then_encode td value Ho1) as [Htd Henc].
    destruct (TextDecoder_decode td value) as [td' chunk].
    cbn [fst snd] in *. constructor.
    + rewrite Henc. eexists. split; [|reflexivity].
      now apply serialize_sublist.
    + apply IH. subst td'. exact Hd1.
Qed.

End Utf8More.

(** ** What the relay lets through *)

Lemma observed_chunk_in (c : list byte) (rs : list ReadResult) :
  In (Chunk c) (observed rs) -> In (Chunk c) rs.
Proof.
  induction rs as [|r rs IH]; [intros []|].
  destruct r as [c'| |e]; cbn.
  - intros [H|H]; [now left|right; now apply IH].
  - intros [H|[]]. discriminate.
  - intros [H|[]]. discriminate.
Qed.

(** X8: whatever bytes the provider sends and however they are cut, every
    chunk the relay hands to the consumer is well-formed UTF-8 on its own:
    the encoding of a sequence of Unicode scalar values. Bytes that are not
    UTF-8 never get through as they are. *)
Theorem relayed_chunks_are_well_formed (chunks : list (list byte))
    (fin : UpstreamEnd) (sched : schedule) (c : list byte) :
  In (Chunk c) (relay (Some (mkBody chunks fin)) sched) ->
  well_formed_utf8 c.
Proof.
  intros Hin.
  assert (Hall : Forall well_formed_utf8
                        (forwarded Utf8.new_TextDecoder chunks)).
  { apply Utf8More.forwarded_well_formed. now left. }
  rewrite Forall_forall in Hall. apply Hall.
  destruct fin as [|e].
  - rewrite relay_done in Hin. apply in_app_or in Hin.
    destruct Hin as [Hin|[Hin|[]]]; [|discriminate].
    apply in_map_iff in Hin. destruct Hin as (c' & E & Hc).
    now injection E as <-.
  - destruct (relay_failed chunks e sched) as (seen & queued & Hs & Hr & _).
    rewrite Hr in Hin. apply in_app_or in Hin.
    destruct Hin as [Hin|[Hin|[]]]; [|discriminate].
    apply in_map_iff in Hin. destruct Hin as (c' & E & Hc).
    injection E as <-. rewrite Hs. apply in_or_app. now left.
Qed.

Lemma relayed_chunks_are_well_formed_witness :
  well_formed_utf8 [xef; xbf; xbd; x28; x41].
Proof.
  apply (relayed_chunks_are_well_formed [[xc3]; [x28; x41]] UpDone
           [1; 1]%nat).
  right. left. reflexivity.
Defined.

(** X9: on a stream that ends normally, the bytes delivered depend on the
    bytes received and on nothing else: not on how the transport cut them
    into chunks, nor on the pace of the consumer. They are the UTF-8
    encoding of what one decoder makes of the whole body, less a leading
    byte order mark. *)
Theorem delivered_bytes_ignore_chunking (chunks1 chunks2 : list (list byte))
    (sched1 sched2 : schedule) :
  List.concat chunks1 = List.concat chunks2 ->
  delivered (relay (Some (mkBody chunks1 UpDone)) sched1)
  = delivered (relay (Some (mkBody chunks2 UpDone)) sched2) /\
  delivered (relay (Some (mkBody chunks1 UpDone)) sched1)
  = Utf8.encode_scalars
      (snd (Utf8.serialize false
              (snd (Utf8.run Utf8.fresh
                      (map Byte.to_N (List.concat chunks1)))))).
Proof.
  intros Hsame.
  assert (Hone : forall chunks sched,
            delivered (relay (Some (mkBody chunks UpDone)) sched)
            = Utf8.encode_scalars
                (snd (Utf8.serialize false
                        (snd (Utf8.run Utf8.fresh
                                (map Byte.to_N (List.concat chunks))))))).
  { intros chunks sched.
    rewrite relay_done, delivered_chunks by now left.
    rewrite Utf8Facts.forwarded_concat; [reflexivity|].
    apply Utf8More.run_ok; [now left|apply Utf8More.bytes_in_range]. }
  split; [|apply Hone].
  rewrite (Hone chunks1 sched1), (Hone chunks2 sched2), Hsame. reflexivity.
Qed.

Lemma delivered_bytes_ignore_chunking_witness :
  delivered (relay (Some (mkBody [[x41; xff; xe2]; [x82; xac]] UpDone))
                   [2; 0]%nat)
  = delivered (relay (Some (mkBody [[x41]; [xff; xe2; x82]; [xac]] UpDone))
                     []).
Proof.
  exact (proj1 (delivered_bytes_ignore_chunking
                  [[x41; xff; xe2]; [x82; xac]]
                  [[x41]; [xff; xe2; x82]; [xac]]
                  [2; 0]%nat [] eq_refl)).
Defined.

(** ** The summary while the text streams in *)

Lemma first_newline (s : jsstring) :
  In newline s ->
  exists first rest, s = first ++ newline :: rest /\ ~ In newline first.
Proof.
  induction s as [|u s IH]; [intros []|].
  intros Hin. destruct (N.eq_dec u newline) as [->|Hne].
  - exists [], s. split; [reflexivity|intros []].
  - destruct Hin as [Hin|Hin]; [now destruct Hne|].
    destruct (IH Hin) as (first & rest & -> & Hf).
    exists (u :: first), rest. split; [reflexivity|].
    intros [H|H]; [now destruct Hne|now destruct Hf].
Qed.

Lemma page_analysis_single (s : jsstring) :
  ~ In newline s ->
  page_analysis s =
    mkAnalysis (or_else s (lit "AI analysis in progress..."))
               (lit "Generating detailed analysis...").
Proof.
  intros H. unfold page_analysis. now rewrite (split_lines_single s H).
Qed.

Lemma page_analysis_lines (first rest : jsstring) :
  ~ In newline first ->
  page_analysis (first ++ newline :: rest) =
    mkAnalysis (or_else first (lit "AI analysis in progress..."))
               (or_else rest (lit "Generating detailed analysis...")).
Proof.
  intros H. unfold page_analysis.
  rewrite (split_lines_first first rest H). cbn [hd tl].
  now rewrite join_split_lines.
Qed.

Lemma summary_after_newline (acc more : jsstring) :
  In newline acc ->
  summary (page_analysis (acc ++ more)) = summary (page_analysis acc).
Proof.
  intros Hin. destruct (first_newline acc Hin) as (first & rest & -> & Hf).
  rewrite <- app_assoc. cbn [app].
  now rewrite !page_analysis_lines.
Qed.

(** X10: on the page, as more text arrives the summary settles and the
    details only grow. Until the first line feed the summary is all the
    text received; once a line feed has arrived the summary never changes
    again, and the details shown, once there are any, are a prefix of the
    details shown after any further text. *)
Theorem summary_settles_details_grow (acc more : jsstring) :
  (~ In newline acc -> acc <> [] ->
   summary (page_analysis acc) = acc) /\
  (In newline acc ->
   summary (page_analysis (acc ++ more)) = summary (page_analysis acc) /\
   (details (page_analysis acc) <> lit "Generating detailed analysis..." ->
    startsWith (details (page_analysis acc))
               (details (page_analysis (acc ++ more))) = true)).
Proof.
  split.
  - intros Hnl Hne. rewrite (page_analysis_single acc Hnl).
    cbn [summary]. apply or_else_truthy. now apply truthy_nonempty.
  - intros Hin. split; [now apply summary_after_newline|].
    destruct (first_newline acc Hin) as (first & rest & -> & Hf).
    rewrite <- app_assoc. cbn [app].
    rewrite !page_analysis_lines by exact Hf.
    cbn [details].
    destruct rest as [|u rest]; [intros H; now destruct H|].
    intros _. unfold or_else. cbn [truthy app].
    change (u :: rest ++ more) with ((u :: rest) ++ more).
    apply startsWith_app.
Qed.

Lemma summary_settles_details_grow_witness :
  summary (page_analysis (lit "Two clips" ++ newline :: lit "First: a"))
  = summary (page_analysis
               ((lit "Two clips" ++ newline :: lit "First: a")
                ++ lit " goal")) /\
  startsWith (lit "First: a")
             (details (page_analysis
                         ((lit "Two clips" ++ newline :: lit "First: a")
                          ++ lit " goal"))) = true.
Proof.
  assert (Hin : In newline (lit "Two clips" ++ newline :: lit "First: a")).
  { apply in_or_app. right. now left. }
  destruct (proj2 (summary_settles_details_grow
                     (lit "Two clips" ++ newline :: lit "First: a")
                     (lit " goal")) Hin) as [Hs Hd].
  split; [now rewrite Hs|].
  apply Hd. discriminate.
Defined.

(** ** The non-streaming route, after the status check *)

Lemma trim_idempotent (s : jsstring) : trim (trim s) = trim s.
Proof.
  assert (Hhead : forall u, hd_error (trim s) = Some u -> is_space u = false).
  { intros u Hu. unfold trim in Hu. apply trimEnd_head in Hu.
    now apply trimStart_head in Hu. }
  unfold trim at 1. rewrite (trimStart_fixed _ Hhead).
  apply trimEnd_fixed. intros u. unfold trim. apply trimEnd_last.
Qed.

Lemma falsy_has_no_parts (c : option Json) :
  js_truthy c = false -> member (lit "text") (element0 c) = None.
Proof.
  destruct c as [[| b | zero text | [|u s] | items | fields]|];
    cbn; try discriminate; reflexivity.
Qed.

(** X11: in the non-streaming route the text of the model is the content
    of the first choice's message and nothing else; the second alternative
    of the code, [content[0].text], never contributes. When that content
    is a non-empty string the answer is its analysis; when it is missing,
    [null], empty, [false] or zero the answer is the 502 that hands the
    provider's JSON back; and when it is anything else, an array of parts
    included, the [split] on it throws and the answer is the 500, whose
    details are the engine's words for a call that is destructured:
    "contentText.split is not a function or its return value is not
    iterable". A provider body that is [null], or that does not parse,
    gives the 500 too. *)
Theorem nonstreaming_content_is_first_alternative (json : Json) :
  let content :=
    member (lit "content")
      (member (lit "message")
         (element0 (member (lit "choices") (Some json)))) in
  (json = JNull ->
   finish_nonstreaming (inr json)
   = AnswerError (UnexpectedInternalError TypeError_null_choices)) /\
  (json <> JNull ->
   (js_truthy content = false ->
    finish_nonstreaming (inr json) = AnswerNoContent json) /\
   (forall s, content = Some (JString s) -> s <> [] ->
    finish_nonstreaming (inr json) = AnswerAnalysis (route_analysis s)) /\
   (js_truthy content = true ->
    (forall s, content <> Some (JString s)) ->
    finish_nonstreaming (inr json)
    = AnswerError (UnexpectedInternalError TypeError_split))) /\
  (forall err,
     finish_nonstreaming (inl err) = AnswerError (UnexpectedInternalError err)) /\
  answer_status (AnswerNoContent json) = 502 /\
  answer_status (AnswerError (UnexpectedInternalError TypeError_split)) = 500 /\
  UnexpectedInternalError TypeError_split
  = JsonResponse 500
      (mkJson (lit "Unexpected server error while analyzing video.")
              (Some (lit "contentText.split is not a function or its return value is not iterable"))).
Proof.
  cbv zeta. split; [|split; [|split; [|split; [|split]]]]; try reflexivity.
  - intros ->. reflexivity.
  - intros Hnn.
    assert (Hc : get_choices json = inr (member (lit "choices") (Some json))).
    { destruct json; try reflexivity. now destruct Hnn. }
    unfold finish_nonstreaming. rewrite Hc.
    set (content := member (lit "content")
                      (member (lit "message")
                         (element0 (member (lit "choices") (Some json))))).
    split; [|split].
    + intros Hf. unfold js_or at 2. rewrite Hf.
      rewrite (falsy_has_no_parts content Hf). reflexivity.
    + intros s Hs Hne. rewrite Hs. apply truthy_nonempty in Hne.
      unfold js_or. cbn [js_truthy].
      repeat (rewrite Hne; cbn [js_truthy negb]). reflexivity.
    + clearbody content. intros Ht Hns. unfold js_or.
      destruct content as [[| b | zero text | s | items | fields]|];
        cbn [js_truthy] in Ht; try discriminate Ht;
        try (now destruct (Hns s)).
      * subst b. reflexivity.
      * apply negb_true_iff in Ht. subst zero. reflexivity.
      * reflexivity.
      * reflexivity.
Qed.

Lemma nonstreaming_content_is_first_alternative_witness :
  let parts :=
    JObject [(lit "choices",
              JArray [JObject [(lit "message",
                JObject [(lit "content",
                  JArray [JObject [(lit "type", JString (lit "text"));
                                   (lit "text", JString (lit "A goal."))]])])]])] in
  finish_nonstreaming (inr parts)
  = AnswerError (UnexpectedInternalError TypeError_split).
Proof.
  cbv zeta.
  match goal with
  | |- finish_nonstreaming (inr ?j) = _ =>
      destruct (nonstreaming_content_is_first_alternative j)
        as (_ & Hj & _)
  end.
  refine (proj2 (proj2 (Hj _)) eq_refl _); [discriminate|].
  intros s. discriminate.
Defined.

Lemma or_else_nonempty (a b : jsstring) : b <> [] -> or_else a b <> [].
Proof.
  intros Hb. unfold or_else. destruct (truthy a) eqn:Ha; [|exact Hb].
  now apply truthy_nonempty.
Qed.

Lemma or_else_trimmed (a b : jsstring) :
  trim b = b -> trim (or_else (trim a) b) = or_else (trim a) b.
Proof.
  intros Hb. unfold or_else. destruct (truthy (trim a)); [|exact Hb].
  apply trim_idempotent.
Qed.

(** X12: an analysis the non-streaming route answers with always has
    something in both parts: the summary is never empty and never has
    white space around it, and the details are never empty. It is the
    split of a non-empty text of the model. *)
Theorem nonstreaming_analysis_is_never_blank (json_result : Exn + Json)
    (a : AnalysisResponse) :
  finish_nonstreaming json_result = AnswerAnalysis a ->
  summary a <> [] /\
  trim (summary a) = summary a /\
  details a <> [] /\
  exists contentText,
    contentText <> [] /\ a = route_analysis contentText.
Proof.
  intros H. unfold finish_nonstreaming in H.
  destruct json_result as [err|json]; [discriminate|].
  destruct (get_choices json) as [err|choices]; [discriminate|].
  set (contentText := js_or _ _) in H.
  destruct (js_truthy contentText) eqn:Ht; cbn [negb] in H; [|discriminate].
  destruct contentText as [[| b | zero text | s | items | fields]|];
    try discriminate.
  injection H as <-. cbn [js_truthy] in Ht. apply truthy_nonempty in Ht.
  unfold route_analysis. cbn [summary details]. repeat split.
  - apply or_else_nonempty. discriminate.
  - apply or_else_trimmed. reflexivity.
  - now apply or_else_nonempty.
  - exists s. now split.
Qed.

Lemma nonstreaming_analysis_is_never_blank_witness :
  let reply :=
    JObject [(lit "choices",
              JArray [JObject [(lit "message",
                JObject [(lit "content", JString (lit "  A goal.  "))])]])] in
  finish_nonstreaming (inr reply)
  = AnswerAnalysis (mkAnalysis (lit "A goal.") (lit "  A goal.  ")) /\
  trim (lit "A goal.") = lit "A goal.".
Proof.
  cbv zeta. split; [reflexivity|].
  match goal with
  | |- trim ?s = ?s =>
      exact (proj1 (proj2 (nonstreaming_analysis_is_never_blank
               (inr (JObject [(lit "choices",
                      JArray [JObject [(lit "message",
                        JObject [(lit "content",
                                  JString (lit "  A goal.  "))])]])]))
               (mkAnalysis s (lit "  A goal.  ")) eq_refl)))
  end.
Defined.

(** ** The page and the route together *)

Lemma field_names_differ :
  JS.eqb (lit "video") (lit "video") = true /\
  JS.eqb (lit "videoUrl") (lit "videoUrl") = true /\
  JS.eqb (lit "focusPrompt") (lit "focusPrompt") = true /\
  JS.eqb (lit "video") (lit "videoUrl") = false /\
  JS.eqb (lit "video") (lit "focusPrompt") = false /\
  JS.eqb (lit "videoUrl") (lit "video") = false /\
  JS.eqb (lit "videoUrl") (lit "focusPrompt") = false /\
  JS.eqb (lit "focusPrompt") (lit "video") = false /\
  JS.eqb (lit "focusPrompt") (lit "videoUrl") = false.
Proof. repeat split. Qed.

Ltac get_fields :=
  destruct field_names_differ as (E1 & E2 & E3 & E4 & E5 & E6 & E7 & E8 & E9);
  repeat (cbn [formData_get app map fst snd];
          rewrite ?E1, ?E2, ?E3, ?E4, ?E5, ?E6, ?E7, ?E8, ?E9);
  cbn [entry_text].

(** Induction on a string two code units at a time, as the functions that
    look one unit ahead recur. *)
Lemma two_step_ind (P : jsstring -> Prop) :
  P [] ->
  (forall u, P [u]) ->
  (forall u v s, P s -> P (v :: s) -> P (u :: v :: s)) ->
  forall s, P s.
Proof.
  intros H0 H1 H2 s.
  assert (H : P s /\ forall u, P (u :: s)).
  { induction s as [|v s [IHs IHc]].
    - split; [exact H0|exact H1].
    - split; [apply IHc|]. intros u. apply H2; [exact IHs|apply IHc]. }
  apply H.
Qed.

(** A string with no white space at either end. *)
Lemma trimmed_ends (s : jsstring) :
  (forall u, hd_error (trim s) = Some u -> is_space u = false) /\
  (forall u, hd_error (rev (trim s)) = Some u -> is_space u = false).
Proof.
  split.
  - intros u Hu. unfold trim in Hu. apply trimEnd_head in Hu.
    now apply trimStart_head in Hu.
  - intros u. unfold trim. apply trimEnd_last.
Qed.

Lemma trim_fixed (s : jsstring) :
  (forall u, hd_error s = Some u -> is_space u = false) ->
  (forall u, hd_error (rev s) = Some u -> is_space u = false) ->
  trim s = s.
Proof.
  intros Hhead Hlast. unfold trim. rewrite (trimStart_fixed _ Hhead).
  now apply trimEnd_fixed.
Qed.

Lemma last_unit (pre : jsstring) (u : N) :
  hd_error (rev (pre ++ [u])) = Some u.
Proof. now rewrite rev_app_distr. Qed.

Lemma ends_in_unit (s : jsstring) :
  s <> [] -> exists pre u, s = pre ++ [u].
Proof.
  intros Hs. destruct (exists_last Hs) as (pre & u & ->). now exists pre, u.
Qed.

Lemma not_space_not_break (u : N) :
  is_space u = false ->
  (u =? carriage_return) = false /\ (u =? newline) = false.
Proof.
  unfold is_space, carriage_return, newline. intros H.
  split; apply N.eqb_neq; intros ->; discriminate H.
Qed.

Lemma replacement_not_space : is_space Utf8.replacement = false.
Proof. reflexivity. Qed.

(** The conversion keeps a last unit that is not white space, or puts
    U+FFFD in its place. *)
Lemma to_USVString_last (pre : jsstring) :
  forall u, is_space u = false ->
  exists pre' u', to_USVString (pre ++ [u]) = pre' ++ [u'] /\
                  is_space u' = false.
Proof.
  induction pre as [| a | a b s IHs IHc] using two_step_ind; intros u Hu.
  - cbn [app to_USVString].
    destruct (Utf8.is_lead_surrogate u); [|destruct (Utf8.is_trail_surrogate u)].
    + now exists [], Utf8.replacement.
    + now exists [], Utf8.replacement.
    + now exists [], u.
  - cbn [app to_USVString].
    assert (H1 : exists pre' u', to_USVString [u] = pre' ++ [u'] /\
                                 is_space u' = false).
    { cbn [to_USVString].
      destruct (Utf8.is_lead_surrogate u); [|destruct (Utf8.is_trail_surrogate u)].
      - now exists [], Utf8.replacement.
      - now exists [], Utf8.replacement.
      - now exists [], u. }
    destruct H1 as (p1 & u1 & E1 & Hu1). cbn [to_USVString] in E1.
    destruct (Utf8.is_lead_surrogate a).
    + destruct (Utf8.is_trail_surrogate u).
      * now exists [a], u.
      * rewrite E1. now exists (Utf8.replacement :: p1), u1.
    + destruct (Utf8.is_trail_surrogate a); rewrite E1.
      * now exists (Utf8.replacement :: p1), u1.
      * now exists (a :: p1), u1.
  - destruct (IHs u Hu) as (p1 & u1 & E1 & Hu1).
    destruct (IHc u Hu) as (p2 & u2 & E2 & Hu2).
    change ((a :: b :: s) ++ [u]) with (a :: b :: (s ++ [u])).
    change ((b :: s) ++ [u]) with (b :: (s ++ [u])) in E2.
    cbn [to_USVString] in E2 |- *.
    destruct (Utf8.is_lead_surrogate a).
    + destruct (Utf8.is_trail_surrogate b) eqn:Eb.
      * rewrite E1. now exists (a :: b :: p1), u1.
      * rewrite E2. now exists (Utf8.replacement :: p2), u2.
    + destruct (Utf8.is_trail_surrogate a); rewrite E2.
      * now exists (Utf8.replacement :: p2), u2.
      * now exists (a :: p2), u2.
Qed.

(** The encoding leaves a last unit that is not white space where it is. *)
Lemma normalize_newlines_last (pre : jsstring) :
  forall u, is_space u = false ->
  normalize_newlines (pre ++ [u]) = normalize_newlines pre ++ [u].
Proof.
  induction pre as [| a | a b s IHs IHc] using two_step_ind; intros u Hu;
    destruct (not_space_not_break u Hu) as [Hcr Hlf].
  - cbn [app normalize_newlines]. now rewrite Hcr, Hlf.
  - cbn [app normalize_newlines]. rewrite Hcr, Hlf.
    destruct (a =? carriage_return); [reflexivity|].
    destruct (a =? newline); reflexivity.
  - change ((a :: b :: s) ++ [u]) with (a :: b :: (s ++ [u])).
    pose proof (IHc u Hu) as E2.
    change ((b :: s) ++ [u]) with (b :: (s ++ [u])) in E2.
    cbn [normalize_newlines] in E2 |- *.
    destruct (a =? carriage_return).
    + destruct (b =? newline).
      * now rewrite (IHs u Hu).
      * now rewrite E2.
    + destruct (a =? newline); now rewrite E2.
Qed.

(** A first unit that is not white space stays first, or U+FFFD takes its
    place. *)
Lemma on_the_wire_head (s : jsstring) (u : N) :
  (forall v, hd_error s = Some v -> is_space v = false) ->
  hd_error (on_the_wire s) = Some u -> is_space u = false.
Proof.
  intros Hs. unfold on_the_wire. destruct s as [|a s]; [discriminate|].
  pose proof (Hs a eq_refl) as Ha.
  assert (H : exists a' t, to_USVString (a :: s) = a' :: t /\
                           is_space a' = false).
  { cbn [to_USVString]. destruct (Utf8.is_lead_surrogate a).
    - destruct s as [|b s]; [now exists Utf8.replacement, []|].
      destruct (Utf8.is_trail_surrogate b); eexists; eexists; split;
        try reflexivity; auto.
    - destruct (Utf8.is_trail_surrogate a); eexists; eexists; split;
        try reflexivity; auto. }
  destruct H as (a' & t & -> & Ha').
  destruct (not_space_not_break a' Ha') as [Hcr Hlf].
  cbn [normalize_newlines]. rewrite Hcr, Hlf. cbn.
  now intros [= <-].
Qed.

(** A value without white space around it comes out of the transport
    without white space around it, and empty only if it was. *)
Lemma on_the_wire_trimmed (s : jsstring) :
  trim (on_the_wire (trim s)) = on_the_wire (trim s) /\
  truthy (on_the_wire (trim s)) = truthy (trim s).
Proof.
  destruct (trimmed_ends s) as [Hhead Hlast].
  destruct (trim s) as [|a t] eqn:E; [split; reflexivity|].
  destruct (ends_in_unit (a :: t)) as (pre & u & Epre); [discriminate|].
  pose proof (last_unit pre u) as Hu. rewrite <- Epre in Hu.
  apply Hlast in Hu.
  destruct (to_USVString_last pre u Hu) as (p1 & u1 & E1 & Hu1).
  assert (Hwire : on_the_wire (a :: t) = normalize_newlines p1 ++ [u1]).
  { unfold on_the_wire. rewrite Epre, E1.
    now apply normalize_newlines_last. }
  split.
  - apply trim_fixed.
    + intros v. now apply on_the_wire_head.
    + intros v. rewrite Hwire, last_unit. now intros [= <-].
  - rewrite Hwire. now destruct (normalize_newlines p1).
Qed.

Lemma normalize_newlines_fixed (s : jsstring) :
  has_line_break s = false -> normalize_newlines s = s.
Proof.
  induction s as [|u s IH]; [reflexivity|].
  cbn [has_line_break existsb]. intros H.
  apply orb_false_elim in H. destruct H as [Hu Hs].
  apply orb_false_elim in Hu. destruct Hu as [Hcr Hlf].
  cbn [normalize_newlines]. rewrite Hcr, Hlf. f_equal. now apply IH.
Qed.

(** What the route reads of the form the page sends. *)
Lemma received_fields (as_received : File -> File) (i : PageInput) :
  let fd := received as_received (page_formData i) in
  field_video fd
  = match in_videoFile i with
    | Some f => Some (EntryFile (as_received f))
    | None => None
    end /\
  field_videoUrl fd = on_the_wire (trim (in_videoUrl i)) /\
  field_focusPrompt fd = on_the_wire (trim (in_focusPrompt i)).
Proof.
  cbv zeta.
  assert (Hnil : trim [] = []) by reflexivity.
  assert (Hwire : on_the_wire [] = []) by reflexivity.
  pose proof (proj1 (on_the_wire_trimmed (in_videoUrl i))) as Tu.
  pose proof (proj1 (on_the_wire_trimmed (in_focusPrompt i))) as Tf.
  unfold received, page_formData, field_video, field_videoUrl,
    field_focusPrompt.
  destruct (in_videoFile i) as [f|];
    destruct (truthy (trim (in_videoUrl i))) eqn:Hu;
    destruct (truthy (trim (in_focusPrompt i))) eqn:Hf;
    try (apply truthy_false in Hu);
    try (apply truthy_false in Hf);
    get_fields;
    rewrite ?Tu, ?Tf, ?Hnil;
    repeat split; try congruence;
    rewrite ?Hu, ?Hf, ?Hwire; reflexivity.
Qed.

(** X13: the page and the route agree on what a request must hold. When
    the page's own check passes, the route reads from the request the URL
    and the focus as the page trimmed them and the multipart encoding
    rewrote them (lone surrogates replaced, every line break made a
    carriage return and line feed), with no white space around them; the
    route, once it has its key and the form, never answers MissingInput
    nor "Unable to resolve video input"; and a call to the provider
    carries the prompt for the focus so encoded, which is the prompt for
    the focus as typed when the trimmed focus has no line break and no
    lone surrogate. When the check fails, the page sends nothing and shows
    the sentence that the route words MissingInput with. *)
Theorem page_and_route_agree_on_input (JSON_parse : jsstring -> Exn + Json)
    (send : FormData -> Exn + Reply) (as_received : File -> File)
    (i : PageInput) (w : World) :
  let fd := received as_received (page_formData i) in
  (page_check i = true ->
   accepted w fd ->
   field_videoUrl fd = on_the_wire (trim (in_videoUrl i)) /\
   field_focusPrompt fd = on_the_wire (trim (in_focusPrompt i)) /\
   fst (POST w) <> MissingInput /\
   fst (POST w) <> UnresolvedInput /\
   (forall req,
      In (EvFetch req) (snd (POST w)) ->
      out_text req = mergedPrompt (on_the_wire (trim (in_focusPrompt i))) /\
      (has_line_break (trim (in_focusPrompt i)) = false ->
       to_USVString (trim (in_focusPrompt i)) = trim (in_focusPrompt i) ->
       out_text req = prompt_for (in_focusPrompt i)))) /\
  (page_check i = false ->
   handleSubmit JSON_parse send i
   = mkView None (Some (lit "Provide a video file or a video URL.")) /\
   MissingInput = json 400 "Provide a video file or a video URL." None /\
   (accepted w fd -> fst (POST w) = MissingInput)).
Proof.
  cbv zeta.
  destruct (received_fields as_received i) as (Hv & Hu & Hf).
  pose proof (proj2 (on_the_wire_trimmed (in_videoUrl i))) as Hurl.
  split.
  - intros Hcheck Hacc.
    split; [exact Hu|]. split; [exact Hf|].
    assert (Hsent : forall req r, fst (provider_outcome w req) = r ->
                      http_status r = 400 -> False).
    { intros req r E Hs. pose proof (provider_outcome_status w req) as Hin.
      rewrite E, Hs in Hin. cbn in Hin.
      repeat (destruct Hin as [Hin|Hin]; [discriminate|]). exact Hin. }
    assert (Hcases :
      fst (POST w) = EmptyFile \/ fst (POST w) = TooLarge \/
      fst (POST w) = InvalidUrl \/
      exists req, fst (POST w) = fst (provider_outcome w req)).
    { unfold page_check in Hcheck.
      destruct (in_videoFile i) as [f|] eqn:Efile.
      - rewrite (POST_file w _ Hacc (as_received f) Hv).
        destruct (file_size (as_received f) =? 0); [now left|].
        destruct (maxBytes <? file_size (as_received f)); [right; now left|].
        do 3 right. eexists. reflexivity.
      - cbn [andb negb] in Hcheck. apply negb_true_iff in Hcheck.
        apply negb_false_iff in Hcheck.
        rewrite (POST_no_file w _ Hacc) by (rewrite Hv; discriminate).
        rewrite Hv, Hu, Hurl, Hcheck. cbn [entry_falsy negb andb].
        destruct (URL_parses w (on_the_wire (trim (in_videoUrl i)))).
        + do 3 right. eexists. reflexivity.
        + right. right. now left. }
    repeat split.
    + intros E. destruct Hcases as [H|[H|[H|[req H]]]];
        rewrite H in E; try discriminate E.
      exact (Hsent req _ E eq_refl).
    + intros E. destruct Hcases as [H|[H|[H|[req H]]]];
        rewrite H in E; try discriminate E.
      exact (Hsent req _ E eq_refl).
    + destruct (handled_fetch_request w _ _ req (POST_handled w) H)
        as (fd & pre & videoUrl & [Hk Hfd] & _ & -> & _).
      destruct Hacc as [_ Hfd']. rewrite Hfd' in Hfd. injection Hfd as <-.
      unfold outbound. cbn [out_text]. now rewrite Hf.
    + intros Hbreak Hpaired.
      destruct (handled_fetch_request w _ _ req (POST_handled w) H)
        as (fd & pre & videoUrl & [Hk Hfd] & _ & -> & _).
      destruct Hacc as [_ Hfd']. rewrite Hfd' in Hfd. injection Hfd as <-.
      unfold outbound, prompt_for. cbn [out_text]. rewrite Hf.
      unfold on_the_wire. rewrite Hpaired.
      now rewrite (normalize_newlines_fixed _ Hbreak).
  - intros Hcheck. split; [|split; [reflexivity|]].
    + unfold handleSubmit. now rewrite Hcheck.
    + intros Hacc.
      unfold page_check in Hcheck. apply negb_false_iff in Hcheck.
      apply andb_prop in Hcheck. destruct Hcheck as [Hfile Hblank].
      apply negb_true_iff in Hblank.
      rewrite (POST_missing_input w _ Hacc); [reflexivity| |].
      * rewrite Hv. destruct (in_videoFile i); [discriminate|reflexivity].
      * now rewrite Hu, Hurl.
Qed.

Lemma page_and_route_agree_on_input_witness :
  let i := mkInput None (lit " https://example.com/clip.mp4 ")
                   (lit " pace" ++ newline :: lit "and tone ") in
  let w := Sample.world Sample.key (received (fun f => f) (page_formData i))
                        (Sample.answers Sample.ok_empty) in
  page_check i = true /\
  field_focusPrompt (received (fun f => f) (page_formData i))
  = lit "pace" ++ carriage_return :: newline :: lit "and tone" /\
  fst (POST w) <> MissingInput /\
  page_check (mkInput None (lit "   ") (lit "pace")) = false.
Proof.
  cbv zeta.
  pose (i := mkInput None (lit " https://example.com/clip.mp4 ")
                     (lit " pace" ++ newline :: lit "and tone ")).
  pose (w := Sample.world Sample.key (received (fun f => f) (page_formData i))
                          (Sample.answers Sample.ok_empty)).
  assert (Hc : page_check i = true) by reflexivity.
  assert (Hacc : accepted w (received (fun f => f) (page_formData i)))
    by (split; reflexivity).
  pose proof (proj1 (page_and_route_agree_on_input
                       (fun _ => inl Sample.reset) (fun _ => inl Sample.reset)
                       (fun f => f) i w) Hc Hacc) as (_ & Hf & Hm & _).
  split; [exact Hc|]. split; [exact Hf|]. split; [exact Hm|reflexivity].
Defined.

(** ** What the page makes of the answer *)

Lemma handled_json_answer (w : World) (r : Response) (tr : list Event)
    (st : N) (b : JsonBody) :
  handled w r tr ->
  r = JsonResponse st b ->
  In st [400; 413; 500; 502] /\ truthy (json_error b) = true.
Proof.
  intros H E. destruct H;
    try (injection E as <- <-; split; [cbn; tauto|reflexivity]).
  subst req. unfold provider_outcome in E.
  destruct (fetch w (outbound w fd videoUrl)) as [e|res].
  - injection E as <- <-. split; [cbn; tauto|reflexivity].
  - destruct (res_ok res); [discriminate E|].
    injection E as <- <-. split; [cbn; tauto|reflexivity].
Qed.

(** X14: every failure of the route reaches the user in the route's own
    words. Whenever the route answers with a JSON response, its status is
    not a success and its error sentence is not empty, and the page, given
    that response, shows no analysis and exactly that sentence as the
    error. *)
Theorem page_shows_route_error (JSON_parse : jsstring -> Exn + Json)
    (send : FormData -> Exn + Reply) (i : PageInput) (w : World)
    (st : N) (b : JsonBody) :
  page_check i = true ->
  fst (POST w) = JsonResponse st b ->
  send (page_formData i) = inr (reply_of_json st b) ->
  rp_ok (reply_of_json st b) = false /\
  json_error b <> [] /\
  handleSubmit JSON_parse send i = mkView None (Some (json_error b)).
Proof.
  intros Hcheck Hr Hsend.
  destruct (handled_json_answer w _ _ st b (POST_handled w) Hr) as [Hst He].
  assert (Hok : rp_ok (reply_of_json st b) = false).
  { cbn in Hst. destruct Hst as [<-|[<-|[<-|[<-|[]]]]]; reflexivity. }
  split; [exact Hok|]. split; [now apply truthy_nonempty|].
  unfold handleSubmit. rewrite Hcheck, Hsend. cbn [negb]. rewrite Hok.
  cbn [negb]. unfold reply_of_json. cbn [rp_json rp_status member own_property].
  change (JS.eqb (lit "error") (lit "error")) with true. cbv iota.
  unfold js_or. cbn [js_truthy]. rewrite He. cbn [to_string].
  unfold shown_error. now rewrite or_else_truthy.
Qed.

Lemma page_shows_route_error_witness :
  let i := mkInput None (lit "not a url") [] in
  let w := Sample.world Sample.key (page_formData i)
                        (Sample.answers Sample.ok_empty) in
  fst (POST w) = InvalidUrl /\
  handleSubmit (fun _ => inl Sample.reset)
               (fun _ => inr (reply_of_json 400
                                (mkJson (lit "Invalid video URL provided.") None)))
               i
  = mkView None (Some (lit "Invalid video URL provided.")).
Proof.
  cbv zeta. split; [reflexivity|].
  pose (i := mkInput None (lit "not a url") []).
  pose (w := Sample.world Sample.key (page_formData i)
                          (Sample.answers Sample.ok_empty)).
  exact (proj2 (proj2 (page_shows_route_error
                  (fun _ => inl Sample.reset)
                  (fun _ => inr (reply_of_json 400
                     (mkJson (lit "Invalid video URL provided.") None)))
                  i w 400 (mkJson (lit "Invalid video URL provided.") None)
                  eq_refl eq_refl eq_refl))).
Defined.

Lemma startsWith_app_r (p s t : jsstring) :
  startsWith p s = true -> startsWith p (s ++ t) = true.
Proof.
  revert s. induction p as [|x p IH]; intros s H; [reflexivity|].
  destruct s as [|y s]; [discriminate|].
  cbn in H |- *. apply andb_prop in H. destruct H as [H1 H2].
  rewrite H1. cbn. now apply IH.
Qed.

Lemma startsWith_refl (p : jsstring) : startsWith p p = true.
Proof.
  induction p as [|x p IH]; [reflexivity|].
  cbn. now rewrite N.eqb_refl.
Qed.

Section Reading.

Variable JSON_parse : jsstring -> Exn + Json.

(** A line leaves the loop's variables in agreement, and only ever adds to
    the text accumulated. *)
Lemma handle_line_ok (line : jsstring) (p : Progress) :
  progress_ok p ->
  progress_ok (handle_line JSON_parse line p) /\
  exists extra,
    accumulatedDetails (handle_line JSON_parse line p)
    = accumulatedDetails p ++ extra.
Proof.
  intros Hp.
  assert (Hsame : progress_ok p /\
                  exists extra, accumulatedDetails p
                                = accumulatedDetails p ++ extra).
  { split; [exact Hp|]. exists []. now rewrite app_nil_r. }
  unfold handle_line.
  destruct (startsWith (lit "data: ") line); [|exact Hsame].
  destruct (JS.eqb (trim (slice6 line)) (lit "[DONE]")); [exact Hsame|].
  destruct (JSON_parse (trim (slice6 line))) as [e|parsed]; [exact Hsame|].
  destruct (get_choices parsed) as [e|choices]; [exact Hsame|].
  destruct (js_truthy _) eqn:Ht; [|exact Hsame].
  destruct (js_or _ _) as [c|]; [|exact Hsame].
  destruct (to_string c) as [e|text]; [exact Hsame|].
  split.
  - right. cbn. split; [reflexivity|]. split; [reflexivity|].
    destruct Hp as [(Hf & _ & Hd & Hs)|(Hf & _ & Hs)]; rewrite Hf.
    + rewrite Hd, Hs. cbn [app]. apply startsWith_refl.
    + now apply startsWith_app_r.
  - cbn. now exists text.
Qed.

Lemma handle_chunk_ok (chunk : jsstring) (p : Progress) :
  progress_ok p ->
  progress_ok (handle_chunk JSON_parse chunk p) /\
  exists extra,
    accumulatedDetails (handle_chunk JSON_parse chunk p)
    = accumulatedDetails p ++ extra.
Proof.
  unfold handle_chunk. generalize (split_lines chunk). intros lines.
  revert p. induction lines as [|line lines IH]; intros p Hp.
  - cbn. split; [exact Hp|]. exists []. now rewrite app_nil_r.
  - cbn [fold_left].
    destruct (handle_line_ok line p Hp) as [Hp1 [x1 E1]].
    destruct (IH _ Hp1) as [Hp2 [x2 E2]].
    split; [exact Hp2|]. exists (x1 ++ x2).
    now rewrite E2, E1, app_assoc.
Qed.

Lemma read_loop_ok (chunks : list (list byte)) :
  forall decoder p,
  progress_ok p ->
  progress_ok (read_loop JSON_parse decoder chunks p) /\
  exists extra,
    accumulatedDetails (read_loop JSON_parse decoder chunks p)
    = accumulatedDetails p ++ extra.
Proof.
  induction chunks as [|value chunks IH]; intros decoder p Hp.
  - cbn. split; [exact Hp|]. exists []. now rewrite app_nil_r.
  - cbn [read_loop].
    destruct (Utf8.TextDecoder_decode decoder value) as [decoder' chunk].
    destruct (handle_chunk_ok chunk p Hp) as [Hp1 [x1 E1]].
    destruct (IH decoder' _ Hp1) as [Hp2 [x2 E2]].
    split; [exact Hp2|]. exists (x1 ++ x2).
    now rewrite E2, E1, app_assoc.
Qed.

Lemma page_analysis_never_blank (acc : jsstring) :
  summary (page_analysis acc) <> [] /\ details (page_analysis acc) <> [].
Proof.
  unfold page_analysis. cbn [summary details].
  split; apply or_else_nonempty; discriminate.
Qed.

End Reading.

(** X15: what the page shows at the end of a stream is the split of all
    the text it gathered from it, and a stream that breaks keeps it. On an
    ok response with a body, the analysis shown is either none, and then
    nothing has been appended and no text was gathered, or the summary
    and details of the whole accumulated text, as it always is once some
    text was gathered, neither of them ever empty. It is the same whether
    the stream ends or fails, and the error shown is none on a normal end
    and, on a failure, the failure's message or "Unexpected error
    analyzing video.". The analysis can be the two placeholders with no
    text gathered: a content that is truthy and prints as nothing, an
    empty array, has the page show them. *)
Theorem page_shows_split_of_gathered_text
    (JSON_parse : jsstring -> Exn + Json)
    (send : FormData -> Exn + Reply) (i : PageInput) (res : Reply)
    (body : UpstreamBody) :
  page_check i = true ->
  send (page_formData i) = inr res ->
  rp_ok res = true ->
  rp_body res = Some body ->
  let p := read_loop JSON_parse Utf8.new_TextDecoder (up_chunks body)
                     no_progress in
  let view := handleSubmit JSON_parse send i in
  ((view_analysis view = None /\
    isFirstChunk p = true /\ accumulatedDetails p = []) \/
   (view_analysis view = Some (page_analysis (accumulatedDetails p)) /\
    isFirstChunk p = false)) /\
  (accumulatedDetails p <> [] ->
   view_analysis view = Some (page_analysis (accumulatedDetails p))) /\
  (forall a, view_analysis view = Some a ->
             summary a <> [] /\ details a <> []) /\
  view_error view
  = match up_end body with
    | UpDone => None
    | UpFail err =>
        Some (or_else (exn_message err)
                      (lit "Unexpected error analyzing video."))
    end.
Proof.
  intros Hcheck Hsend Hok Hbody. cbv zeta.
  assert (H0 : progress_ok no_progress) by (left; repeat split).
  destruct (read_loop_ok JSON_parse (up_chunks body) Utf8.new_TextDecoder
              no_progress H0) as [Hp _].
  assert (Hview : view_analysis (handleSubmit JSON_parse send i)
                  = analysis (read_loop JSON_parse Utf8.new_TextDecoder
                                        (up_chunks body) no_progress) /\
                  view_error (handleSubmit JSON_parse send i)
                  = match up_end body with
                    | UpDone => None
                    | UpFail err => shown_error (exn_message err)
                    end).
  { unfold handleSubmit. rewrite Hcheck, Hsend. cbn [negb].
    rewrite Hok, Hbody. cbn [negb].
    destruct (up_end body); split; reflexivity. }
  destruct Hview as [Ha He]. rewrite Ha, He.
  split; [|split; [|split]].
  - destruct Hp as [(Hf & Hn & Hd & _)|(Hf & Hs & _)]; [left|right]; auto.
  - intros Hne.
    destruct Hp as [(_ & _ & Hd & _)|(_ & Hs & _)]; [now destruct Hne|].
    exact Hs.
  - intros a Hsome.
    destruct Hp as [(_ & Hn & _)|(_ & Hs & _)]; [congruence|].
    rewrite Hs in Hsome. injection Hsome as <-.
    apply page_analysis_never_blank.
  - reflexivity.
Qed.

Lemma page_shows_split_of_gathered_text_witness :
  let parse := fun data : jsstring =>
    inr (JObject
           [(lit "choices",
             JArray [JObject
                       [(lit "delta",
                         JObject [(lit "content", JString data)])]])])
    : Exn + Json in
  let body := mkBody [Utf8.TextEncoder_encode (lit "data: Hi")]
                     (UpFail Sample.reset) in
  handleSubmit parse (fun _ => inr (mkReply 200 None (Some body)))
               (mkInput None Sample.video_url [])
  = mkView (Some (mkAnalysis (lit "Hi")
                             (lit "Generating detailed analysis...")))
           (Some (lit "terminated")).
Proof.
  cbv zeta.
  pose (parse := fun data : jsstring =>
    inr (JObject
           [(lit "choices",
             JArray [JObject
                       [(lit "delta",
                         JObject [(lit "content", JString data)])]])])
    : Exn + Json).
  pose (body := mkBody [Utf8.TextEncoder_encode (lit "data: Hi")]
                       (UpFail Sample.reset)).
  destruct (page_shows_split_of_gathered_text
              parse (fun _ => inr (mkReply 200 None (Some body)))
              (mkInput None Sample.video_url [])
              (mkReply 200 None (Some body)) body
              eq_refl eq_refl eq_refl eq_refl)
    as (_ & Hsome & _ & Herr).
  fold parse body.
  destruct (handleSubmit parse (fun _ => inr (mkReply 200 None (Some body)))
                         (mkInput None Sample.video_url []))
    as [shown err].
  cbn [view_analysis view_error] in Hsome, Herr.
  rewrite Herr, Hsome; [reflexivity|discriminate].
Defined.

(** The placeholders with no text gathered: the content of the delta is an
    empty array. *)
Remark placeholders_without_text :
  let parse := fun _ : jsstring =>
    inr (JObject
           [(lit "choices",
             JArray [JObject
                       [(lit "delta",
                         JObject [(lit "content", JArray [])])]])])
    : Exn + Json in
  let p := read_loop parse Utf8.new_TextDecoder
                     [Utf8.TextEncoder_encode (lit "data: {}")] no_progress in
  accumulatedDetails p = [] /\
  analysis p = Some (mkAnalysis (lit "AI analysis in progress...")
                                (lit "Generating detailed analysis...")).
Proof. cbv zeta. split; reflexivity. Qed.

Lemma read_loop_app (JSON_parse : jsstring -> Exn + Json)
    (chunks more : list (list byte)) :
  forall decoder p,
  exists decoder',
    read_loop JSON_parse decoder (chunks ++ more) p
    = read_loop JSON_parse decoder' more
                (read_loop JSON_parse decoder chunks p).
Proof.
  induction chunks as [|value chunks IH]; intros decoder p.
  - now exists decoder.
  - cbn [app read_loop].
    destruct (Utf8.TextDecoder_decode decoder value) as [decoder' chunk].
    apply IH.
Qed.

(** X16: the summary on the page does not flicker. Once the text gathered
    from the chunks read so far holds a line feed, nothing that the stream
    brings afterwards, whatever is in it, changes the summary shown. *)
Theorem summary_is_final_after_first_line
    (JSON_parse : jsstring -> Exn + Json) (chunks more : list (list byte)) :
  let p := read_loop JSON_parse Utf8.new_TextDecoder chunks no_progress in
  let p' := read_loop JSON_parse Utf8.new_TextDecoder (chunks ++ more)
                      no_progress in
  In newline (accumulatedDetails p) ->
  exists a a',
    analysis p = Some a /\
    analysis p' = Some a' /\
    summary a' = summary a.
Proof.
  cbv zeta. intros Hin.
  assert (H0 : progress_ok no_progress) by (left; repeat split).
  destruct (read_loop_ok JSON_parse chunks Utf8.new_TextDecoder
              no_progress H0) as [Hp _].
  destruct (read_loop_app JSON_parse chunks more Utf8.new_TextDecoder
              no_progress) as [decoder' ->].
  set (p := read_loop JSON_parse Utf8.new_TextDecoder chunks no_progress) in *.
  destruct (read_loop_ok JSON_parse more decoder' p Hp) as [Hp' [extra E]].
  assert (Hright : forall q, progress_ok q -> In newline (accumulatedDetails q) ->
            analysis q = Some (page_analysis (accumulatedDetails q))).
  { intros q [(_ & _ & Hd & _)|(_ & Hs & _)] Hq; [|exact Hs].
    rewrite Hd in Hq. destruct Hq. }
  exists (page_analysis (accumulatedDetails p)),
         (page_analysis
            (accumulatedDetails (read_loop JSON_parse decoder' more p))).
  split; [now apply Hright|]. split.
  - apply Hright; [exact Hp'|]. rewrite E. apply in_or_app. now left.
  - rewrite E. now apply summary_after_newline.
Qed.

Lemma summary_is_final_after_first_line_witness :
  let parse := fun _ : jsstring =>
    inr (JObject
           [(lit "choices",
             JArray [JObject
                       [(lit "delta",
                         JObject [(lit "content",
                                   JString [0x48; 0x69; 0xA; 0x74])])]])])
    : Exn + Json in
  let chunks := [Utf8.TextEncoder_encode (lit "data: {}")] in
  exists a a',
    analysis (read_loop parse Utf8.new_TextDecoder chunks no_progress)
    = Some a /\
    analysis (read_loop parse Utf8.new_TextDecoder (chunks ++ chunks)
                        no_progress)
    = Some a' /\
    summary a' = summary a.
Proof.
  cbv zeta.
  apply (summary_is_final_after_first_line
           (fun _ : jsstring =>
              inr (JObject
                     [(lit "choices",
                       JArray [JObject
                                 [(lit "delta",
                                   JObject [(lit "content",
                                             JString [0x48; 0x69; 0xA; 0x74])])]])]))
           [Utf8.TextEncoder_encode (lit "data: {}")]
           [Utf8.TextEncoder_encode (lit "data: {}")]).
  vm_compute. right. right. left. reflexivity.
Defined.
